(** * Buildbot: obsolete build-request canceller, timed schedulers, trigger step

    A shallow embedding of [master/buildbot/schedulers/canceller.py] and of
    the scheduling and trigger behaviour exercised by the unit tests, with
    the properties of the design document stated and proved over it. *)

From Stdlib Require Import ZArith String Ascii List Lia Bool.
From stdpp Require Import base decidable option list numbers strings.

Local Open Scope Z_scope.

(** ** Python dictionaries

    A [dict] keeps its bindings in insertion order, holds one binding per
    key, and [d[k] = v] on a bound key updates the value where it stands.
    The tracker iterates over [values()] and [keys()], and an exception
    raised half-way through such an iteration leaves a state that depends on
    that order, so a dictionary is an association list in insertion order. *)

Module Dict.
Section dict.
Context {K V : Type} `{EqDecision K}.

Definition dict : Type := list (K * V).

Definition empty : dict := [].

(** [d.get(k, None)] *)
Fixpoint get (k : K) (d : dict) : option V :=
  match d with
  | [] => None
  | (k', v) :: d' => if decide (k = k') then Some v else get k d'
  end.

(** [d[k] = v] *)
Fixpoint set (k : K) (v : V) (d : dict) : dict :=
  match d with
  | [] => [(k, v)]
  | (k', v') :: d' =>
      if decide (k = k') then (k', v) :: d' else (k', v') :: set k v d'
  end.

(** [del d[k]] on a bound key, [d.pop(k, None)] in general: the binding
    of [k] goes, the others keep their order. *)
Fixpoint del (k : K) (d : dict) : dict :=
  match d with
  | [] => []
  | (k', v') :: d' =>
      if decide (k = k') then del k d' else (k', v') :: del k d'
  end.

Definition keys (d : dict) : list K := map fst d.
Definition values (d : dict) : list V := map snd d.

(** [not d] *)
Definition is_empty (d : dict) : bool :=
  match d with [] => true | _ => false end.

(** Every dictionary of a running program has pairwise distinct keys. *)
Definition wf (d : dict) : Prop := NoDup (keys d).

End dict.
Global Arguments dict : clear implicits.
End Dict.

(** ** Source stamps, keys and exceptions *)

(** A source stamp or a change, as far as the canceller reads it: the
    entries ['project'], ['codebase'], ['repository'] and ['branch'] of the
    dictionary, the last of which may be [None]. *)
Record SourceStamp := mkSourceStamp {
  project : string;
  codebase : string;
  repository : string;
  branch : option string
}.

(** The tuple [(project, codebase, repository, branch_key)] that identifies
    a branch. *)
Definition SSKey : Type := string * string * string * string.

(** The exceptions that the canceller can raise. *)
Inductive exn :=
| KeyError_finished (ss_tuple : SSKey)
    (** [KeyError('... Could not find finished builds by tuple ...')] *)
| KeyError_running (ss_tuple : SSKey)
    (** [KeyError('... Could not find running builds by tuple ...')] *)
| KeyError (brid : Z)
    (** [del d[brid]] where [brid] is not bound in [d] *)
| AttributeError.
    (** an attribute of [None] is read *)

Inductive res (A : Type) :=
| Ok (a : A)
| Err (e : exn).
Global Arguments Ok {A} a.
Global Arguments Err {A} e.

(** ** The default branch key *)

Module BranchKey.

Local Open Scope string_scope.

(** A branch name is a string of characters with code points below 256,
    among which [\d] matches the ten digits [0] to [9] only. *)
Definition is_digit (c : ascii) : bool :=
  (48 <=? nat_of_ascii c)%nat && (nat_of_ascii c <=? 57)%nat.

(** The longest run of digits at the head of [s], and what follows it:
    how the greedy [\d+] splits its input when the pattern goes on with a
    character that is not a digit. *)
Fixpoint span_digits (s : string) : string * string :=
  match s with
  | EmptyString => (EmptyString, EmptyString)
  | String c s' =>
      if is_digit c
      then let '(d, r) := span_digits s' in (String c d, r)
      else (EmptyString, s)
  end.

(** [s] without the prefix [p], when it starts with [p]. *)
Fixpoint strip_prefix (p s : string) : option string :=
  match p, s with
  | EmptyString, _ => Some s
  | String a p', String b s' =>
      if decide (a = b) then strip_prefix p' s' else None
  | String _ _, EmptyString => None
  end.

(** [branch.startswith(p)] *)
Definition startswith (p s : string) : bool :=
  match strip_prefix p s with Some _ => true | None => false end.

Definition nonempty (s : string) : bool :=
  match s with EmptyString => false | String _ _ => true end.

(** [re.match(r'refs/changes/(\d+)/(\d+)/\d+', branch)]: the two groups of
    the match, which is anchored at the start of [branch] only. *)
Definition re_match (branch : string) : option (string * string) :=
  match strip_prefix "refs/changes/" branch with
  | None => None
  | Some rest0 =>
      let '(g1, rest1) := span_digits rest0 in
      match nonempty g1, rest1 with
      | true, String "/" rest2 =>
          let '(g2, rest3) := span_digits rest2 in
          match nonempty g2, rest3 with
          | true, String "/" (String c _) =>
              if is_digit c then Some (g1, g2) else None
          | _, _ => None
          end
      | _, _ => None
      end
  end.

(** The body of [_default_branch_key] once [branch] is known to be a
    string. *)
Definition default_branch_key_of (branch : string) : string :=
  if startswith "refs/changes/" branch then
    match re_match branch with
    | Some (g1, g2) => "refs/changes/" +:+ g1 +:+ "/" +:+ g2
    | None => branch
    end
  else branch.

(** [OldBuildCanceller._default_branch_key]: [branch.startswith] fails on
    a branch that is [None]. *)
Definition _default_branch_key (ss_or_change : SourceStamp) : res string :=
  match branch ss_or_change with
  | None => Err AttributeError
  | Some b => Ok (default_branch_key_of b)
  end.

End BranchKey.

(** ** The filter set and the build-request tracker *)

Module Tracker.
Import Dict.

(** A [SourceStampFilter] is used through [is_matched(props)] only. *)
Definition SourceStampFilter : Type := SourceStamp → bool.

(** [_OldBuildFilterSet]: [_by_builder] maps a builder name to the list of
    its filters. *)
Record OldBuildFilterSet := mkFilterSet {
  _by_builder : dict string (list SourceStampFilter)
}.

Definition new_filter_set : OldBuildFilterSet := mkFilterSet empty.

(** [_OldBuildFilterSet.add_filter]:
    [self._by_builder.setdefault(builder, []).append(filter)] for every
    builder. *)
Definition add_filter (builders : list string) (f : SourceStampFilter)
    (fs : OldBuildFilterSet) : OldBuildFilterSet :=
  mkFilterSet
    (fold_left
       (λ d builder, set builder (default [] (get builder d) ++ [f]) d)
       builders (_by_builder fs)).

(** [_OldBuildFilterSet.is_matched] *)
Definition is_matched (fs : OldBuildFilterSet) (builder_name : string)
    (props : SourceStamp) : bool :=
  existsb (λ f : SourceStampFilter, f props)
    (default [] (get builder_name (_by_builder fs))).

(** [_TrackedBuildRequest] *)
Record TrackedBuildRequest := mkTracked {
  brid : Z;
  ss_tuples : list SSKey
}.

Global Instance TrackedBuildRequest_eq_dec : EqDecision TrackedBuildRequest.
Proof. solve_decision. Defined.

(** [_OldBuildrequestTracker]. The callback [on_cancel] is an effect: the
    operations below return the ids it is called on, in call order. *)
Record OldBuildrequestTracker := mkTracker {
  tracker_filter : OldBuildFilterSet;
  branch_key : SourceStamp → res string;
  br_by_id : dict Z TrackedBuildRequest;
  br_by_ss : dict SSKey (dict Z TrackedBuildRequest)
}.

(** [_OldBuildrequestTracker.__init__] *)
Definition new_tracker (fs : OldBuildFilterSet)
    (bk : SourceStamp → res string) : OldBuildrequestTracker :=
  mkTracker fs bk empty empty.

(** [_OldBuildrequestTracker.reconfig] *)
Definition reconfig (s : OldBuildrequestTracker) (fs : OldBuildFilterSet)
    (bk : SourceStamp → res string) : OldBuildrequestTracker :=
  mkTracker fs bk (br_by_id s) (br_by_ss s).

Definition with_by_id (s : OldBuildrequestTracker)
    (d : dict Z TrackedBuildRequest) : OldBuildrequestTracker :=
  mkTracker (tracker_filter s) (branch_key s) d (br_by_ss s).

Definition with_by_ss (s : OldBuildrequestTracker)
    (d : dict SSKey (dict Z TrackedBuildRequest)) : OldBuildrequestTracker :=
  mkTracker (tracker_filter s) (branch_key s) (br_by_id s) d.

(** [_OldBuildrequestTracker.is_buildrequest_tracked] *)
Definition is_buildrequest_tracked (s : OldBuildrequestTracker) (br_id : Z)
    : bool :=
  bool_decide (is_Some (get br_id (br_by_id s))).

(** How a method ends: it returns, after calling [on_cancel] on the ids
    listed, or it raises; either way the tracker is left in a state. *)
Inductive outcome :=
| Returned (s : OldBuildrequestTracker) (cancelled : list Z)
| Raised (e : exn) (s : OldBuildrequestTracker).

Definition state_of (o : outcome) : OldBuildrequestTracker :=
  match o with Returned s _ => s | Raised _ s => s end.

(** How a loop over the indices ends. *)
Inductive loop_end :=
| Finished (s : OldBuildrequestTracker)
| Broke (e : exn) (s : OldBuildrequestTracker).

(** The first loop of [on_new_buildrequest]: [None] when a stamp without a
    branch makes the method return, the matched stamps otherwise. *)
Fixpoint match_loop (fs : OldBuildFilterSet) (builder_name : string)
    (sourcestamps matched_ss : list SourceStamp)
    : option (list SourceStamp) :=
  match sourcestamps with
  | [] => Some matched_ss
  | ss :: rest =>
      match branch ss with
      | None => None
      | Some _ =>
          if is_matched fs builder_name ss
          then match_loop fs builder_name rest (matched_ss ++ [ss])
          else match_loop fs builder_name rest matched_ss
      end
  end.

(** [(ss['project'], ss['codebase'], ss['repository'], branch_key(ss))] *)
Definition ss_tuple_of (bk : SourceStamp → res string) (ss : SourceStamp)
    : res SSKey :=
  match bk ss with
  | Ok b => Ok (project ss, codebase ss, repository ss, b)
  | Err e => Err e
  end.

(** The list comprehension of [on_new_buildrequest]. *)
Fixpoint ss_tuples_of (bk : SourceStamp → res string)
    (matched_ss : list SourceStamp) : res (list SSKey) :=
  match matched_ss with
  | [] => Ok []
  | ss :: rest =>
      match ss_tuple_of bk ss with
      | Err e => Err e
      | Ok k =>
          match ss_tuples_of bk rest with
          | Err e => Err e
          | Ok ks => Ok (k :: ks)
          end
      end
  end.

(** The last loop of [on_new_buildrequest]:
    [self.br_by_ss.setdefault(ss_tuple, {})[tracked_br.brid] = tracked_br]. *)
Fixpoint register (tracked_br : TrackedBuildRequest) (tuples : list SSKey)
    (by_ss : dict SSKey (dict Z TrackedBuildRequest))
    : dict SSKey (dict Z TrackedBuildRequest) :=
  match tuples with
  | [] => by_ss
  | ss_tuple :: rest =>
      let br_dict := default empty (get ss_tuple by_ss) in
      register tracked_br rest
        (set ss_tuple (set (brid tracked_br) tracked_br br_dict) by_ss)
  end.

(** [_OldBuildrequestTracker.on_new_buildrequest] *)
Definition on_new_buildrequest (s : OldBuildrequestTracker) (id : Z)
    (builder_name : string) (sourcestamps : list SourceStamp) : outcome :=
  match match_loop (tracker_filter s) builder_name sourcestamps [] with
  | None => Returned s []
  | Some [] => Returned s []
  | Some matched_ss =>
      match ss_tuples_of (branch_key s) matched_ss with
      | Err e => Raised e s
      | Ok tuples =>
          let tracked_br := mkTracked id tuples in
          Returned
            (mkTracker (tracker_filter s) (branch_key s)
               (set id tracked_br (br_by_id s))
               (register tracked_br tuples (br_by_ss s)))
            []
      end
  end.

(** [del br_dict[brid]; if not br_dict: del self.br_by_ss[ss_tuple]] where
    [br_dict] is the bucket of [ss_tuple]: the bucket is updated where it
    stands, or deleted when it becomes empty. *)
Definition drop_from_bucket (id : Z) (ss_tuple : SSKey)
    (br_dict : dict Z TrackedBuildRequest) (s : OldBuildrequestTracker)
    : loop_end :=
  match get id br_dict with
  | None => Broke (KeyError id) s
  | Some _ =>
      let br_dict' := del id br_dict in
      if is_empty br_dict'
      then Finished (with_by_ss s (del ss_tuple (br_by_ss s)))
      else Finished (with_by_ss s (set ss_tuple br_dict' (br_by_ss s)))
  end.

(** The loop of [on_complete_buildrequest]. *)
Fixpoint complete_loop (id : Z) (tuples : list SSKey)
    (s : OldBuildrequestTracker) : loop_end :=
  match tuples with
  | [] => Finished s
  | ss_tuple :: rest =>
      match get ss_tuple (br_by_ss s) with
      | None => Broke (KeyError_finished ss_tuple) s
      | Some br_dict =>
          match drop_from_bucket id ss_tuple br_dict s with
          | Broke e s' => Broke e s'
          | Finished s' => complete_loop id rest s'
          end
      end
  end.

(** [_OldBuildrequestTracker.on_complete_buildrequest] *)
Definition on_complete_buildrequest (s : OldBuildrequestTracker) (id : Z)
    : outcome :=
  match get id (br_by_id s) with
  | None => Returned s []
  | Some tracked_br =>
      let s1 := with_by_id s (del id (br_by_id s)) in
      match complete_loop (brid tracked_br) (ss_tuples tracked_br) s1 with
      | Finished s' => Returned s' []
      | Broke e s' => Raised e s'
      end
  end.

(** The inner loop of [on_change], over the tuples of one request. *)
Fixpoint others_loop (ss_tuple : SSKey) (id : Z) (tuples : list SSKey)
    (s : OldBuildrequestTracker) : loop_end :=
  match tuples with
  | [] => Finished s
  | i_ss_tuple :: rest =>
      if decide (i_ss_tuple = ss_tuple) then others_loop ss_tuple id rest s
      else
        match get i_ss_tuple (br_by_ss s) with
        | None => Broke (KeyError_running i_ss_tuple) s
        | Some other_br_dict =>
            match drop_from_bucket id i_ss_tuple other_br_dict s with
            | Broke e s' => Broke e s'
            | Finished s' => others_loop ss_tuple id rest s'
            end
        end
  end.

(** The outer loop of [on_change], over [br_dict.values()]. *)
Fixpoint change_loop (ss_tuple : SSKey) (brs : list TrackedBuildRequest)
    (s : OldBuildrequestTracker) : loop_end :=
  match brs with
  | [] => Finished s
  | tracked_br :: rest =>
      match get (brid tracked_br) (br_by_id s) with
      | None => Broke (KeyError (brid tracked_br)) s
      | Some _ =>
          let s1 := with_by_id s (del (brid tracked_br) (br_by_id s)) in
          if decide (length (ss_tuples tracked_br) = 1%nat)
          then change_loop ss_tuple rest s1
          else
            match others_loop ss_tuple (brid tracked_br)
                    (ss_tuples tracked_br) s1 with
            | Broke e s' => Broke e s'
            | Finished s' => change_loop ss_tuple rest s'
            end
      end
  end.

(** [_OldBuildrequestTracker.on_change] *)
Definition on_change (s : OldBuildrequestTracker) (change : SourceStamp)
    : outcome :=
  match ss_tuple_of (branch_key s) change with
  | Err e => Raised e s
  | Ok ss_tuple =>
      match get ss_tuple (br_by_ss s) with
      | None => Returned s []
      | Some br_dict =>
          let s1 := with_by_ss s (del ss_tuple (br_by_ss s)) in
          match change_loop ss_tuple (values br_dict) s1 with
          | Broke e s' => Raised e s'
          | Finished s' => Returned s' (keys br_dict)
          end
      end
  end.

(** The three events of the tracker, and their dispatch one at a time: an
    exception is reported to the event loop and the tracker lives on in the
    state in which the method left it. *)
Inductive event :=
| NewBuildrequest (id : Z) (builder_name : string)
    (sourcestamps : list SourceStamp)
| CompleteBuildrequest (id : Z)
| Change (change : SourceStamp).

Definition dispatch (s : OldBuildrequestTracker) (ev : event) : outcome :=
  match ev with
  | NewBuildrequest id builder_name sourcestamps =>
      on_new_buildrequest s id builder_name sourcestamps
  | CompleteBuildrequest id => on_complete_buildrequest s id
  | Change change => on_change s change
  end.

Definition run (s : OldBuildrequestTracker) (evs : list event)
    : OldBuildrequestTracker :=
  fold_left (λ s ev, state_of (dispatch s ev)) evs s.

(** The entry of request [id] in the bucket of [k]. *)
Definition entry (by_ss : dict SSKey (dict Z TrackedBuildRequest))
    (k : SSKey) (id : Z) : option TrackedBuildRequest :=
  match get k by_ss with
  | None => None
  | Some br_dict => get id br_dict
  end.

Definition bucket_entry (s : OldBuildrequestTracker) (k : SSKey) (id : Z)
    : option TrackedBuildRequest :=
  entry (br_by_ss s) k id.

(** Invariant I1: a request is in the id-index exactly when it is in the
    bucket of each of its tuples, and it is in no other bucket. *)
Definition I1 (s : OldBuildrequestTracker) : Prop :=
  ∀ k id t,
    bucket_entry s k id = Some t ↔
    get id (br_by_id s) = Some t ∧ k ∈ ss_tuples t.

(** Invariant I2: no bucket is empty. *)
Definition I2 (s : OldBuildrequestTracker) : Prop :=
  ∀ k br_dict, get k (br_by_ss s) = Some br_dict → br_dict ≠ [].

(** What holds of the data besides: dictionaries have distinct keys, a
    request is indexed under its own id, and its tuples are a set. *)
Record data_ok (s : OldBuildrequestTracker) : Prop := mk_data_ok {
  by_id_wf : wf (br_by_id s);
  by_ss_wf : wf (br_by_ss s);
  buckets_wf : ∀ k br_dict, get k (br_by_ss s) = Some br_dict → wf br_dict;
  brid_ok : ∀ id t, get id (br_by_id s) = Some t → brid t = id;
  tuples_set : ∀ id t, get id (br_by_id s) = Some t → NoDup (ss_tuples t)
}.

Record tracker_inv (s : OldBuildrequestTracker) : Prop := mk_tracker_inv {
  inv_I1 : I1 s;
  inv_I2 : I2 s;
  inv_data : data_ok s
}.

End Tracker.

(** ** The canceller service *)

Module Canceller.
Import Dict Tracker.

(** A build request as the data API gives it. *)
Record BuildRequest := mkBuildRequest {
  buildrequestid : Z;
  builderid : Z;
  buildsetid : Z
}.

(** The attributes of [OldBuildCanceller] that [checkConfig] sets up and
    [reconfigService] works on. *)
Record OldBuildCanceller := mkCanceller {
  _build_tracker : option OldBuildrequestTracker;
  _reconfiguring : bool;
  _completed_buildrequests_while_reconfiguring : list BuildRequest
}.

(** [OldBuildCanceller.checkConfig] *)
Definition checkConfig : OldBuildCanceller := mkCanceller None false [].

Inductive service_outcome :=
| ServiceReturned (c : OldBuildCanceller) (cancelled : list Z)
| ServiceRaised (e : exn) (c : OldBuildCanceller).

(** [OldBuildCanceller.filter_tuples_to_filter_set_object]; the builders of
    a filter are given as the list that [extract_filter_values] returns. *)
Definition filter_tuples_to_filter_set_object
    (filters : list (list string * SourceStampFilter)) : OldBuildFilterSet :=
  fold_left (λ filter_set '(builders, ss_filter),
               add_filter builders ss_filter filter_set)
    filters new_filter_set.

Section service.

(** The data API of the master:
    [master.data.get(('builders', builderid))['name']] and
    [master.data.get(('buildsets', buildsetid))['sourcestamps']]. *)
Variable builder_name_of : Z → string.
Variable sourcestamps_of : Z → list SourceStamp.

(** The call of [on_new_buildrequest] in [_on_buildrequest_new]. *)
Definition tracker_on_buildrequest_new (s : OldBuildrequestTracker)
    (breq : BuildRequest) : outcome :=
  on_new_buildrequest s (buildrequestid breq)
    (builder_name_of (builderid breq)) (sourcestamps_of (buildsetid breq)).

(** The loop of [reconfigService] over [all_running_buildrequests]. *)
Fixpoint seed_loop (all_running_buildrequests : list BuildRequest)
    (s : OldBuildrequestTracker) : loop_end :=
  match all_running_buildrequests with
  | [] => Finished s
  | breq :: rest =>
      if is_buildrequest_tracked s (buildrequestid breq)
      then seed_loop rest s
      else
        match tracker_on_buildrequest_new s breq with
        | Raised e s' => Broke e s'
        | Returned s' _ => seed_loop rest s'
        end
  end.

(** The loop of [reconfigService] over [completed_breqs]. *)
Fixpoint replay_loop (completed_breqs : list BuildRequest)
    (s : OldBuildrequestTracker) : loop_end :=
  match completed_breqs with
  | [] => Finished s
  | breq :: rest =>
      match on_complete_buildrequest s (buildrequestid breq) with
      | Raised e s' => Broke e s'
      | Returned s' _ => replay_loop rest s'
      end
  end.

(** [OldBuildCanceller.reconfigService], run without another event handled
    at its [yield]s; [all_running_buildrequests] is what the query for the
    incomplete build requests returns. *)
Definition reconfigService (c : OldBuildCanceller)
    (filters : list (list string * SourceStampFilter))
    (branch_key : option (SourceStamp → res string))
    (all_running_buildrequests : list BuildRequest) : service_outcome :=
  let completed := _completed_buildrequests_while_reconfiguring c in
  let branch_key := default BranchKey._default_branch_key branch_key in
  let filter_set_object := filter_tuples_to_filter_set_object filters in
  let tracker :=
    match _build_tracker c with
    | None => new_tracker filter_set_object branch_key
    | Some s => reconfig s filter_set_object branch_key
    end in
  match seed_loop all_running_buildrequests tracker with
  | Broke e s => ServiceRaised e (mkCanceller (Some s) true completed)
  | Finished s =>
      match replay_loop completed s with
      | Broke e s' => ServiceRaised e (mkCanceller (Some s') false [])
      | Finished s' => ServiceReturned (mkCanceller (Some s') false []) []
      end
  end.

(** [OldBuildCanceller._on_change] *)
Definition _on_change (c : OldBuildCanceller) (change : SourceStamp)
    : service_outcome :=
  match _build_tracker c with
  | None => ServiceRaised AttributeError c
  | Some s =>
      match on_change s change with
      | Returned s' ids =>
          ServiceReturned
            (mkCanceller (Some s') (_reconfiguring c)
               (_completed_buildrequests_while_reconfiguring c)) ids
      | Raised e s' =>
          ServiceRaised e
            (mkCanceller (Some s') (_reconfiguring c)
               (_completed_buildrequests_while_reconfiguring c))
      end
  end.

(** [OldBuildCanceller._on_buildrequest_new] *)
Definition _on_buildrequest_new (c : OldBuildCanceller) (breq : BuildRequest)
    : service_outcome :=
  match _build_tracker c with
  | None => ServiceRaised AttributeError c
  | Some s =>
      match tracker_on_buildrequest_new s breq with
      | Returned s' ids =>
          ServiceReturned
            (mkCanceller (Some s') (_reconfiguring c)
               (_completed_buildrequests_while_reconfiguring c)) ids
      | Raised e s' =>
          ServiceRaised e
            (mkCanceller (Some s') (_reconfiguring c)
               (_completed_buildrequests_while_reconfiguring c))
      end
  end.

(** [OldBuildCanceller._on_buildrequest_complete] *)
Definition _on_buildrequest_complete (c : OldBuildCanceller)
    (breq : BuildRequest) : service_outcome :=
  if _reconfiguring c then
    ServiceReturned
      (mkCanceller (_build_tracker c) true
         (_completed_buildrequests_while_reconfiguring c ++ [breq])) []
  else
    match _build_tracker c with
    | None => ServiceRaised AttributeError c
    | Some s =>
        match on_complete_buildrequest s (buildrequestid breq) with
        | Returned s' ids =>
            ServiceReturned (mkCanceller (Some s') false
               (_completed_buildrequests_while_reconfiguring c)) ids
        | Raised e s' =>
            ServiceRaised e (mkCanceller (Some s') false
               (_completed_buildrequests_while_reconfiguring c))
        end
    end.

End service.

End Canceller.

(** ** The periodic scheduler *)

Module Periodic.

(** Modelled from the spec: the states of the periodic scheduler of section
    4.4, whose implementation ([buildbot.schedulers.timed.Periodic]) is not
    among the sources; [test_timed_Periodic.py] gives the runs it must
    produce. Time is in seconds. *)
Inductive phase :=
| Inactive
| Scheduled (due : Z)
| Starting (settles : Z)
| Stopped.

(** Modelled from the spec: how one call of the external build-start
    capability goes, which is how long it takes to settle and whether it
    settles with an error. *)
Record call := mkCall {
  duration : Z;
  fails : bool
}.

(** Modelled from the spec: the scheduler with its persisted checkpoint,
    the clock of the reactor, the instants of its build-start attempts and
    the number of errors it has logged. *)
Record scheduler := mkScheduler {
  interval : Z;
  phase_of : phase;
  checkpoint : option Z;
  clock : Z;
  attempts : list Z;
  logged_errors : nat
}.

(** Modelled from the spec: [activate()] loads the checkpoint; the next
    trigger is now when it is null, the checkpoint plus the interval
    otherwise. *)
Definition activate (interval now : Z) (checkpoint : option Z) : scheduler :=
  let due := match checkpoint with None => now | Some c => c + interval end in
  mkScheduler interval (Scheduled due) checkpoint now [] 0.

(** Modelled from the spec: the timer fires, at the instant it was set for
    or at once when that instant is past; the checkpoint becomes the
    current instant and the build-start capability is invoked. *)
Definition fire (c : call) (s : scheduler) : scheduler :=
  match phase_of s with
  | Scheduled due =>
      let now := Z.max due (clock s) in
      mkScheduler (interval s) (Starting (now + Z.max 0 (duration c)))
        (Some now) now (attempts s ++ [now]) (logged_errors s)
  | _ => s
  end.

(** Modelled from the spec: the build-start call settles; an error is
    logged; the next trigger is the checkpoint of this tick plus the
    interval. *)
Definition settle (c : call) (s : scheduler) : scheduler :=
  match phase_of s, checkpoint s with
  | Starting settles, Some cp =>
      mkScheduler (interval s) (Scheduled (cp + interval s)) (Some cp)
        settles (attempts s)
        (if fails c then S (logged_errors s) else logged_errors s)
  | _, _ => s
  end.

(** Modelled from the spec: [deactivate()] waits for a start attempt in
    flight to settle and schedules no further tick; a pending timer is
    cancelled at once. *)
Definition deactivate (s : scheduler) : scheduler :=
  match phase_of s with
  | Starting settles =>
      mkScheduler (interval s) Stopped (checkpoint s) settles (attempts s)
        (logged_errors s)
  | Scheduled _ =>
      mkScheduler (interval s) Stopped (checkpoint s) (clock s) (attempts s)
        (logged_errors s)
  | _ => s
  end.

(** Modelled from the spec: one tick of the loop, in which the timer fires
    and the build-start call settles, and the loop over the calls that its
    ticks make. *)
Definition tick (s : scheduler) (c : call) : scheduler := settle c (fire c s).

Definition run (calls : list call) (s : scheduler) : scheduler :=
  fold_left tick calls s.

(** The checkpoints recorded by a scheduler activated at [now] without a
    stored checkpoint. *)
Definition checkpoints (interval now : Z) (calls : list call) : list Z :=
  attempts (run calls (activate interval now None)).

(** Successive checkpoints are exactly one interval apart. *)
Definition exact_cadence (interval now : Z) (calls : list call) : Prop :=
  ∀ n c c',
    checkpoints interval now calls !! n = Some c →
    checkpoints interval now calls !! S n = Some c' →
    c' - c = interval.

(** The instants at which ticks that start at [t] fire. *)
Fixpoint fire_times (interval t : Z) (calls : list call) : list Z :=
  match calls with
  | [] => []
  | c :: rest =>
      t :: fire_times interval
             (t + Z.max interval (Z.max 0 (duration c))) rest
  end.

End Periodic.

(** ** The calendar scheduler *)

Module Nightly.

(** Modelled from the spec: the calendar fields of section 3; an unset
    field is a wildcard. The implementation
    ([buildbot.schedulers.timed.NightlyBase]) is not among the sources;
    [test_timed_NightlyBase.py] gives values that it must compute. *)
Record CalendarSpec := mkSpec {
  minute : option (list Z);
  hour : option (list Z);
  dayOfMonth : option (list Z);
  dayOfWeek : option (list Z);
  month : option (list Z)
}.

(** Modelled from the spec: the calendar spec with no field set. *)
Definition hourly : CalendarSpec := mkSpec None None None None None.

(** Modelled from the spec: a day of the calendar. *)
Record date := mkDate { year : Z; mon : Z; day : Z }.

(** Modelled from the spec: an instant of local calendar time. *)
Record instant := mkInstant {
  on : date;
  hh : Z;
  mm : Z;
  ss : Z
}.

(** Modelled from the spec: the calendar, with its leap years, the lengths
    of its months and the day that follows a day. *)
Definition is_leap (y : Z) : bool :=
  (y mod 4 =? 0) && (negb (y mod 100 =? 0) || (y mod 400 =? 0)).

Definition days_in_month (y m : Z) : Z :=
  if m =? 2 then (if is_leap y then 29 else 28)
  else if (m =? 4) || (m =? 6) || (m =? 9) || (m =? 11) then 30
  else 31.

Definition next_day (d : date) : date :=
  if day d <? days_in_month (year d) (mon d)
  then mkDate (year d) (mon d) (day d + 1)
  else if mon d <? 12 then mkDate (year d) (mon d + 1) 1
  else mkDate (year d + 1) 1 1.

(** Modelled from the spec: the days since 1970-01-01, and the day of the
    week with Monday as 0, as the tests count it. *)
Definition days_from_civil (d : date) : Z :=
  let y := if mon d <=? 2 then year d - 1 else year d in
  let era := y / 400 in
  let yoe := y - era * 400 in
  let mp := if mon d >? 2 then mon d - 3 else mon d + 9 in
  let doy := (153 * mp + 2) / 5 + day d - 1 in
  let doe := yoe * 365 + yoe / 4 - yoe / 100 + doy in
  era * 146097 + doe - 719468.

Definition weekday (d : date) : Z := (days_from_civil d + 3) mod 7.

(** Modelled from the spec: an unset dimension is a wildcard. *)
Definition allowed (field : option (list Z)) (v : Z) : bool :=
  match field with
  | None => true
  | Some l => bool_decide (v ∈ l)
  end.

(** Modelled from the spec: a minute with no field set stands for the top
    of the hour. *)
Definition minute_ok (spec : CalendarSpec) (m : Z) : bool :=
  match minute spec with
  | None => m =? 0
  | Some l => bool_decide (m ∈ l)
  end.

(** Modelled from the spec: a day qualifies by its day of the month or by
    its day of the week when both are set, and its month must qualify. *)
Definition day_ok (spec : CalendarSpec) (d : date) : bool :=
  allowed (month spec) (mon d) &&
  match dayOfMonth spec, dayOfWeek spec with
  | None, None => true
  | Some doms, None => bool_decide (day d ∈ doms)
  | None, Some dows => bool_decide (weekday d ∈ dows)
  | Some doms, Some dows =>
      bool_decide (day d ∈ doms) || bool_decide (weekday d ∈ dows)
  end.

(** Modelled from the spec: a minute of the day, counted from midnight,
    qualifies by its hour and its minute. *)
Definition time_ok (spec : CalendarSpec) (t : Z) : bool :=
  allowed (hour spec) (t / 60) && minute_ok spec (t mod 60).

(** Modelled from the spec: the scan forward within a day, to the first
    qualifying minute from [t] on. *)
Fixpoint scan_minutes (spec : CalendarSpec) (fuel : nat) (t : Z) : option Z :=
  match fuel with
  | O => None
  | S fuel' =>
      if 1440 <=? t then None
      else if time_ok spec t then Some t
      else scan_minutes spec fuel' (t + 1)
  end.

(** Modelled from the spec: the scan forward over the days, to the first
    qualifying day from [d] on with a qualifying minute, which on the first
    day must not come before [from]. *)
Fixpoint scan_days (spec : CalendarSpec) (fuel : nat) (d : date) (from : Z)
    : option instant :=
  match fuel with
  | O => None
  | S fuel' =>
      match (if day_ok spec d then scan_minutes spec 1440 from else None) with
      | Some t => Some (mkInstant d (t / 60) (t mod 60) 0)
      | None => scan_days spec fuel' (next_day d) 0
      end
  end.

(** The scan gives up after this many days, which is more than the eight
    years within which every date of the calendar comes round. *)
Definition horizon : nat := 3000.

(** Modelled from the spec: the next trigger after [last], scanning from
    one second after it; now when there is no last trigger. *)
Definition getNextBuildTime (spec : CalendarSpec) (now : instant)
    (last : option instant) : option instant :=
  match last with
  | None => Some now
  | Some l =>
      let seconds := hh l * 3600 + mm l * 60 + ss l + 1 in
      scan_days spec horizon (on l) ((seconds + 59) / 60)
  end.

Definition at_time (y m d h mi s : Z) : instant :=
  mkInstant (mkDate y m d) h mi s.

End Nightly.

(** ** The trigger step *)

Module Trigger.

(** Modelled from the spec: the outcomes of a build that
    [test_trigger.py] names, from best to worst; the module that defines
    them ([buildbot.process.results]) is not among the sources. *)
Inductive result := SUCCESS | FAILURE | EXCEPTION | CANCELLED.

Global Instance result_eq_dec : EqDecision result.
Proof. solve_decision. Defined.

(** Modelled from the spec: how bad an outcome is, and the worse of two
    outcomes. *)
Definition severity (r : result) : nat :=
  match r with
  | SUCCESS => 0
  | FAILURE => 1
  | EXCEPTION => 2
  | CANCELLED => 3
  end.

Definition worst_status (a b : result) : result :=
  if (severity a <? severity b)%nat then b else a.

(** Modelled from the spec: the configuration of the step of section 4.5,
    whose implementation ([buildbot.steps.trigger.Trigger]) is not among
    the sources. *)
Record config := mkConfig {
  schedulerNames : list string;
  unimportantSchedulerNames : list string;
  waitForFinish : bool
}.

(** Modelled from the spec: a target is important unless it is marked
    unimportant. *)
Definition important (cfg : config) (name : string) : bool :=
  bool_decide (name ∉ unimportantSchedulerNames cfg).

(** Modelled from the spec: what the trigger capability of a target does
    at once, which is to return its build request ids or to raise. A name
    that is not a known target has no capability. *)
Inductive trigger_reply :=
| Ids (brids : list Z)
| TriggerRaised.

Definition triggerables : Type := string → option trigger_reply.

(** Modelled from the spec: how the completion of a target settles, with
    the result of its builds or with an exception raised while it is
    awaited, which counts as an exceptional outcome. *)
Inductive settlement :=
| Finished (r : result)
| AwaitFailed.

Definition outcome_of (st : settlement) : result :=
  match st with
  | Finished r => r
  | AwaitFailed => EXCEPTION
  end.

(** Modelled from the spec: the step while it runs, with the targets it
    still waits for, the outcomes that have settled, the links it has
    published, and its result once it has one. *)
Record step := mkStep {
  pending : list string;
  settled : list (string * result);
  links : list (string * Z);
  finished : option result
}.

(** Modelled from the spec: what happens to a step that waits. *)
Inductive event :=
| Settle (name : string) (st : settlement)
| Interrupt.

(** Modelled from the spec: one link per build request id of every target,
    published as soon as the target has returned its ids. *)
Definition links_of (name : string) (brids : list Z) : list (string * Z) :=
  map (λ brid, (name, brid)) brids.

(** Modelled from the spec: the links published and the targets to await;
    a target whose trigger call raised contributes nothing. *)
Fixpoint trigger_all (ts : triggerables) (names : list string)
    : option (list (string * Z) * list string) :=
  match names with
  | [] => Some ([], [])
  | name :: rest =>
      match ts name, trigger_all ts rest with
      | Some (Ids brids), Some (l, awaited) =>
          Some (links_of name brids ++ l, name :: awaited)
      | Some TriggerRaised, Some (l, awaited) => Some (l, awaited)
      | _, _ => None
      end
  end.

(** Modelled from the spec: the aggregate is the worst of the settled
    outcomes of the important targets. *)
Definition agg_step (cfg : config) (acc : result) (o : string * result)
    : result :=
  let '(name, r) := o in
  if important cfg name then worst_status acc r else acc.

Definition aggregate (cfg : config) (outcomes : list (string * result))
    : result :=
  fold_left (agg_step cfg) outcomes SUCCESS.

(** Modelled from the spec: the result of the step while [pending] are
    awaited and [settled] have settled. *)
Definition result_when (cfg : config) (pending : list string)
    (settled : list (string * result)) : option result :=
  match pending with
  | [] => Some (aggregate cfg settled)
  | _ => None
  end.

(** Modelled from the spec: the step starts; a name that is not a known
    target makes it fail with an exception; without wait-for-finish it
    completes at once. *)
Definition start (cfg : config) (ts : triggerables) : step :=
  match trigger_all ts (schedulerNames cfg) with
  | None => mkStep [] [] [] (Some EXCEPTION)
  | Some (l, awaited) =>
      if waitForFinish cfg
      then mkStep awaited [] l (result_when cfg awaited [])
      else mkStep [] [] l (Some SUCCESS)
  end.

(** Modelled from the spec: a target settles, and the step completes when
    it was the last one; an interruption completes the step at once. *)
Definition handle (cfg : config) (s : step) (ev : event) : step :=
  match finished s with
  | Some _ => s
  | None =>
      match ev with
      | Interrupt => mkStep (pending s) (settled s) (links s) (Some CANCELLED)
      | Settle name st =>
          if bool_decide (name ∈ pending s) then
            let pending' := filter (λ n, n ≠ name) (pending s) in
            let settled' := settled s ++ [(name, outcome_of st)] in
            mkStep pending' settled' (links s)
              (result_when cfg pending' settled')
          else s
      end
  end.

Definition run (cfg : config) (ts : triggerables) (evs : list event) : step :=
  fold_left (handle cfg) evs (start cfg ts).

(** No event of the sequence is an interruption. *)
Definition uninterrupted (evs : list event) : Prop := Interrupt ∉ evs.

(** The names that the events settle. *)
Definition settled_names (evs : list event) : list string :=
  omap (λ ev, match ev with Settle name _ => Some name | Interrupt => None end)
    evs.

(** The outcomes with which the events settle the targets among
    [awaited]. *)
Definition settled_of (awaited : list string) (evs : list event)
    : list (string * result) :=
  omap (λ ev, match ev with
              | Settle name st =>
                  if bool_decide (name ∈ awaited)
                  then Some (name, outcome_of st) else None
              | Interrupt => None
              end) evs.

End Trigger.

(** ** The loops of the tracker as functions on the indices

    When the indices are consistent no loop of the tracker raises, and what
    it does is a fold over the key index. The definitions below are these
    folds, and the predicates in which the properties are stated. *)

Module TrackerAux.
Import Dict Tracker.

Implicit Types (s : OldBuildrequestTracker) (k K : SSKey) (id : Z).
Implicit Types (t : TrackedBuildRequest).
Implicit Types (by_ss : dict SSKey (dict Z TrackedBuildRequest)).
Implicit Types (b : dict Z TrackedBuildRequest).

(** Buckets are well-formed dictionaries, none of them empty. *)
Definition ss_ok by_ss : Prop :=
  wf by_ss ∧ ∀ k b, get k by_ss = Some b → wf b ∧ b ≠ [].

(** What [drop_from_bucket] does to the key index. *)
Definition drop1 id k b by_ss : dict SSKey (dict Z TrackedBuildRequest) :=
  if is_empty (del id b) then del k by_ss else set k (del id b) by_ss.

(** What [complete_loop] does to the key index. *)
Definition drop_all id (tuples : list SSKey) by_ss
    : dict SSKey (dict Z TrackedBuildRequest) :=
  fold_left
    (λ d k, match get k d with Some b => drop1 id k b d | None => d end)
    tuples by_ss.

(** What [others_loop] does to the key index. *)
Definition drop_others K id (tuples : list SSKey) by_ss
    : dict SSKey (dict Z TrackedBuildRequest) :=
  drop_all id (filter (λ k, k ≠ K) tuples) by_ss.

(** What [change_loop] does to the two indices. *)
Definition remove_ids (ids : list Z) (by_id : dict Z TrackedBuildRequest)
    : dict Z TrackedBuildRequest :=
  fold_left (λ d id, del id d) ids by_id.

Definition sweep K (brs : list TrackedBuildRequest) by_ss
    : dict SSKey (dict Z TrackedBuildRequest) :=
  fold_left (λ d t, drop_others K (brid t) (ss_tuples t) d) brs by_ss.

(** Request [id] is tracked with [K] among its tuples. *)
Definition hit K (by_id : dict Z TrackedBuildRequest) id : bool :=
  match get id by_id with
  | Some t => bool_decide (K ∈ ss_tuples t)
  | None => false
  end.

(** The tuples that [on_new_buildrequest] would record are pairwise
    distinct. *)
Definition distinct_tuples s (builder_name : string)
    (sourcestamps : list SourceStamp) : Prop :=
  ∀ matched_ss tuples,
    match_loop (tracker_filter s) builder_name sourcestamps [] = Some matched_ss →
    ss_tuples_of (branch_key s) matched_ss = Ok tuples →
    NoDup tuples.

(** Every new request of the sequence comes with an id that is not tracked
    when it arrives. *)
Fixpoint fresh_ids s (evs : list event) : Prop :=
  match evs with
  | [] => True
  | ev :: rest =>
      match ev with
      | NewBuildrequest id _ _ => get id (br_by_id s) = None
      | _ => True
      end ∧ fresh_ids (state_of (dispatch s ev)) rest
  end.

(** Besides, the matching stamps of every new request have pairwise
    distinct tuples. *)
Fixpoint admissible s (evs : list event) : Prop :=
  match evs with
  | [] => True
  | ev :: rest =>
      match ev with
      | NewBuildrequest id builder_name sourcestamps =>
          get id (br_by_id s) = None ∧
          distinct_tuples s builder_name sourcestamps
      | _ => True
      end ∧ admissible (state_of (dispatch s ev)) rest
  end.

(** The exceptions that report a missing entry of an index. *)
Definition is_key_error (e : exn) : Prop :=
  match e with AttributeError => False | _ => True end.

End TrackerAux.

(** ** Sample data *)

Module Samples.
Import Dict Tracker.
Local Open Scope string_scope.

Definition ss_master : SourceStamp :=
  mkSourceStamp "proj" "app" "git://host/app" (Some "master").

(** Two patch sets of one review, on the same codebase. *)
Definition ss_patchset3 : SourceStamp :=
  mkSourceStamp "proj" "lib" "git://host/lib" (Some "refs/changes/12/3412/3").

Definition ss_patchset4 : SourceStamp :=
  mkSourceStamp "proj" "lib" "git://host/lib" (Some "refs/changes/12/3412/4").

Definition ss_no_branch : SourceStamp :=
  mkSourceStamp "proj" "doc" "git://host/doc" None.

Definition key_master : SSKey := ("proj", "app", "git://host/app", "master").

Definition key_review : SSKey :=
  ("proj", "lib", "git://host/lib", "refs/changes/12/3412").

Definition any_stamp : SourceStampFilter := λ _, true.

(** A tracker with one filter, which matches every stamp of ["builder"],
    and the default branch key. *)
Definition tracker0 : OldBuildrequestTracker :=
  new_tracker (add_filter ["builder"] any_stamp new_filter_set)
    BranchKey._default_branch_key.

(** Three requests with distinct tuples each. *)
Definition events_distinct : list event :=
  [ NewBuildrequest 1 "builder" [ss_master; ss_patchset3];
    NewBuildrequest 2 "builder" [ss_master];
    NewBuildrequest 3 "builder" [ss_patchset3] ].

(** Request 1 is built from two patch sets of one review, which have the
    same tuple; then a change arrives on master. *)
Definition events_duplicate : list event :=
  [ NewBuildrequest 1 "builder" [ss_master; ss_patchset3; ss_patchset4];
    NewBuildrequest 2 "builder" [ss_master];
    Change ss_master ].

(** Indices in which a tuple of request 1 has no bucket. *)
Definition tracker_no_bucket : OldBuildrequestTracker :=
  mkTracker (tracker_filter tracker0) (branch_key tracker0)
    [(1, mkTracked 1 [key_master; key_review])]
    [(key_master, [(1, mkTracked 1 [key_master; key_review])])].

End Samples.

Module TriggerSamples.
Import Trigger.
Local Open Scope string_scope.

(** The schedulers of [test_trigger.py]: [a] with build request 11, [b]
    with 22, [c] with 33 and 44. *)
Definition fake_triggerables : triggerables :=
  λ name,
    if decide (name = "a") then Some (Ids [11])
    else if decide (name = "b") then Some (Ids [22])
    else if decide (name = "c") then Some (Ids [33; 44])
    else None.

(** [Trigger(schedulerNames=['a', 'b'], unimportantSchedulerNames=['b'],
    waitForFinish=True)] *)
Definition wait_a_unimportant_b : config := mkConfig ["a"; "b"] ["b"] true.

(** [Trigger(schedulerNames=['a', 'b'], waitForFinish=True)] *)
Definition wait_a_b : config := mkConfig ["a"; "b"] [] true.

(** [b] settles first, with a failure; then [a] settles, with success. *)
Definition b_fails_a_succeeds : list event :=
  [Settle "b" (Finished FAILURE); Settle "a" (Finished SUCCESS)].

End TriggerSamples.

Module CancellerSamples.
Import Tracker Canceller.
Local Open Scope string_scope.

Definition builder_name_of : Z → string := λ _, "builder".

(** Buildset 10 has one stamp; the other buildsets have a second stamp,
    without a branch. *)
Definition sourcestamps_of : Z → list SourceStamp :=
  λ bsid,
    if decide (bsid = 10) then [Samples.ss_master]
    else [Samples.ss_master; Samples.ss_no_branch].

Definition filters : list (list string * SourceStampFilter) :=
  [(["builder"], Samples.any_stamp)].

Definition running : list BuildRequest :=
  [mkBuildRequest 1 5 10; mkBuildRequest 2 5 11].

End CancellerSamples.

(** ** Predicates on the canceller *)

Module CancellerAux.
Import Dict Tracker Canceller.

(** [on_new_buildrequest] returns before it tracks anything: a stamp has
    no branch, or no stamp matches. *)
Definition ignored (fs : OldBuildFilterSet) (builder_name : string)
    (sourcestamps : list SourceStamp) : Prop :=
  match_loop fs builder_name sourcestamps [] = None ∨
  match_loop fs builder_name sourcestamps [] = Some [].

(** The branch-key function gives a key for every stamp with a branch. *)
Definition total_on_branches (bk : SourceStamp → res string) : Prop :=
  ∀ ss, branch ss ≠ None → ∃ key, bk ss = Ok key.

Definition ignored_breq (builder_name_of : Z → string)
    (sourcestamps_of : Z → list SourceStamp) (fs : OldBuildFilterSet)
    (breq : BuildRequest) : Prop :=
  ignored fs (builder_name_of (builderid breq))
    (sourcestamps_of (buildsetid breq)).

Definition tracked (s : OldBuildrequestTracker) (id : Z) : Prop :=
  is_Some (get id (br_by_id s)).

End CancellerAux.

(** ** Shapes of branch names *)

Module BranchKeyAux.
Import BranchKey.
Local Open Scope string_scope.

Fixpoint all_digits (s : string) : bool :=
  match s with
  | EmptyString => true
  | String c s' => is_digit c && all_digits s'
  end.

(** What [\d+] matches in full: one digit or more. *)
Definition numeric (s : string) : Prop :=
  nonempty s = true ∧ all_digits s = true.

(** [refs/changes/<X>/<Y>/<rev>] with [X], [Y] and [rev] numeric. *)
Definition patchset_form (b : string) : Prop :=
  ∃ x y r, numeric x ∧ numeric y ∧ numeric r ∧
    b = "refs/changes/" +:+ x +:+ "/" +:+ y +:+ "/" +:+ r.

(** [refs/changes/<X>/<Y>/] followed by a digit and then by anything. *)
Definition patchset_prefixed (b : string) : Prop :=
  ∃ x y d rest, numeric x ∧ numeric y ∧ is_digit d = true ∧
    b = "refs/changes/" +:+ x +:+ "/" +:+ y +:+ "/" +:+ String d rest.

(** A decision procedure for [patchset_form]. *)
Definition is_patchset_form (b : string) : bool :=
  match strip_prefix "refs/changes/" b with
  | None => false
  | Some rest0 =>
      let '(x, rest1) := span_digits rest0 in
      match rest1 with
      | String "/" rest2 =>
          let '(y, rest3) := span_digits rest2 in
          match rest3 with
          | String "/" r =>
              nonempty x && nonempty y && nonempty r && all_digits r
          | _ => false
          end
      | _ => false
      end
  end.

(** The next character, if there is one, is not a digit. *)
Definition stops (s : string) : Prop :=
  match s with
  | EmptyString => True
  | String c _ => is_digit c = false
  end.

End BranchKeyAux.

(** ** Predicates on filters, seeds and branch keys *)

Module ExtraAux.
Import Dict Tracker TrackerAux Canceller.

(** The filters registered for a builder:
    [self._by_builder.get(builder_name, [])]. *)
Definition filters_of (d : dict string (list SourceStampFilter))
    (builder_name : string) : list SourceStampFilter :=
  default [] (get builder_name d).

(** Some tuple of [filters] names the builder and has a filter that
    matches the stamp. *)
Definition matching_filters (filters : list (list string * SourceStampFilter))
    (builder_name : string) (props : SourceStamp) : bool :=
  existsb (λ '(builders, ss_filter),
             bool_decide (builder_name ∈ builders) && ss_filter props)
    filters.

(** Every stamp has a branch and some stamp matches the filters of the
    builder. *)
Definition wanted (fs : OldBuildFilterSet) (builder_name : string)
    (sourcestamps : list SourceStamp) : Prop :=
  (∀ ss, ss ∈ sourcestamps → branch ss ≠ None) ∧
  ∃ ss, ss ∈ sourcestamps ∧ is_matched fs builder_name ss = true.

(** The matching stamps of every build request of [running] have pairwise
    distinct tuples. *)
Definition seed_distinct (builder_name_of : Z → string)
    (sourcestamps_of : Z → list SourceStamp) (fs : OldBuildFilterSet)
    (bk : SourceStamp → res string) (running : list BuildRequest) : Prop :=
  ∀ breq, breq ∈ running →
    distinct_tuples (new_tracker fs bk) (builder_name_of (builderid breq))
      (sourcestamps_of (buildsetid breq)).

(** Whenever the method of an event of the sequence raises, the exception
    is one that the branch-key function raised, and the tracker is left in
    the state in which the event found it. *)
Fixpoint raises_only_from_branch_key (s : OldBuildrequestTracker)
    (evs : list event) : Prop :=
  match evs with
  | [] => True
  | ev :: rest =>
      match dispatch s ev with
      | Raised e s' => s' = s ∧ ∃ ss, branch_key s ss = Err e
      | Returned _ _ => True
      end ∧ raises_only_from_branch_key (state_of (dispatch s ev)) rest
  end.

End ExtraAux.

(** ** The service at work: messages, and a reconfiguration under way

    [reconfigService] gives the control back at its [yield]s, and the
    message of a completed build request can then be delivered to
    [_on_buildrequest_complete], which puts it on a queue as long as
    [_reconfiguring] is set. The definitions below are the parts of
    [reconfigService] between which this happens. Changes and new build
    requests are taken to arrive between two reconfigurations. *)

Module Service.
Import Dict Tracker TrackerAux Canceller CancellerAux ExtraAux.

(** The canceller that a handler leaves, whether it returned or raised. *)
Definition canceller_of (o : service_outcome) : OldBuildCanceller :=
  match o with ServiceReturned c _ => c | ServiceRaised _ c => c end.

(** What comes next while a reconfiguration is under way: the loop takes
    the next build request of [all_running_buildrequests], or the message
    of a completed build request is delivered at a [yield]. *)
Inductive turn :=
| Seed (breq : BuildRequest)
| Deliver (breq : BuildRequest).

(** The build requests that the loop takes, in order. *)
Fixpoint seeded (turns : list turn) : list BuildRequest :=
  match turns with
  | [] => []
  | Seed breq :: rest => breq :: seeded rest
  | Deliver _ :: rest => seeded rest
  end.

(** The completed build requests delivered meanwhile, in order. *)
Fixpoint delivered (turns : list turn) : list BuildRequest :=
  match turns with
  | [] => []
  | Seed _ :: rest => delivered rest
  | Deliver breq :: rest => breq :: delivered rest
  end.

(** What the service is given to do: the three kinds of message to which
    [startService] subscribes, and a reconfiguration, with what happens
    during it. *)
Inductive message :=
| ChangeNew (change : SourceStamp)
| BuildrequestNew (breq : BuildRequest)
| BuildrequestComplete (breq : BuildRequest)
| Reconfig (filters : list (list string * SourceStampFilter))
    (branch_key : option (SourceStamp → res string)) (turns : list turn).

Section service.

Variable builder_name_of : Z → string.
Variable sourcestamps_of : Z → list SourceStamp.

(** [reconfigService] from its entry to the query for the incomplete build
    requests: the flag is set and the tracker is created or reconfigured. *)
Definition reconfig_begin (c : OldBuildCanceller)
    (filters : list (list string * SourceStampFilter))
    (branch_key : option (SourceStamp → res string)) : OldBuildCanceller :=
  let branch_key := default BranchKey._default_branch_key branch_key in
  let filter_set_object := filter_tuples_to_filter_set_object filters in
  mkCanceller
    (Some match _build_tracker c with
          | None => new_tracker filter_set_object branch_key
          | Some s => reconfig s filter_set_object branch_key
          end)
    true (_completed_buildrequests_while_reconfiguring c).

(** One pass of the loop over [all_running_buildrequests]. *)
Definition seed_pass (c : OldBuildCanceller) (breq : BuildRequest)
    : service_outcome :=
  match _build_tracker c with
  | None => ServiceRaised AttributeError c
  | Some s =>
      if is_buildrequest_tracked s (buildrequestid breq)
      then ServiceReturned c []
      else _on_buildrequest_new builder_name_of sourcestamps_of c breq
  end.

(** The loop, with the completions delivered at its [yield]s. An exception
    of the loop ends [reconfigService]; the handler of a message runs on
    its own. *)
Fixpoint reconfig_turns (turns : list turn) (c : OldBuildCanceller)
    : service_outcome :=
  match turns with
  | [] => ServiceReturned c []
  | Seed breq :: rest =>
      match seed_pass c breq with
      | ServiceRaised e c' => ServiceRaised e c'
      | ServiceReturned c' _ => reconfig_turns rest c'
      end
  | Deliver breq :: rest =>
      reconfig_turns rest (canceller_of (_on_buildrequest_complete c breq))
  end.

(** [reconfigService] after the loop: the flag is cleared, the queue is
    emptied and the completions that were on it are applied. *)
Definition reconfig_end (c : OldBuildCanceller) : service_outcome :=
  let completed_breqs := _completed_buildrequests_while_reconfiguring c in
  match _build_tracker c with
  | None =>
      match completed_breqs with
      | [] => ServiceReturned (mkCanceller None false []) []
      | _ :: _ => ServiceRaised AttributeError (mkCanceller None false [])
      end
  | Some s =>
      match replay_loop completed_breqs s with
      | Broke e s' => ServiceRaised e (mkCanceller (Some s') false [])
      | Finished s' => ServiceReturned (mkCanceller (Some s') false []) []
      end
  end.

(** [OldBuildCanceller.reconfigService] with completions delivered while it
    is under way. *)
Definition reconfig_in_progress (c : OldBuildCanceller)
    (filters : list (list string * SourceStampFilter))
    (branch_key : option (SourceStamp → res string)) (turns : list turn)
    : service_outcome :=
  match reconfig_turns turns (reconfig_begin c filters branch_key) with
  | ServiceRaised e c' => ServiceRaised e c'
  | ServiceReturned c' _ => reconfig_end c'
  end.

Definition handle (c : OldBuildCanceller) (m : message) : service_outcome :=
  match m with
  | ChangeNew change => _on_change c change
  | BuildrequestNew breq =>
      _on_buildrequest_new builder_name_of sourcestamps_of c breq
  | BuildrequestComplete breq => _on_buildrequest_complete c breq
  | Reconfig filters branch_key turns =>
      reconfig_in_progress c filters branch_key turns
  end.

(** The service handles one thing after the other; an exception is reported
    and the service goes on in the state in which the handler left it. *)
Definition serve (c : OldBuildCanceller) (ms : list message)
    : OldBuildCanceller :=
  fold_left (λ c m, canceller_of (handle c m)) ms c.

(** Every new build request of the sequence comes with an id that is not
    tracked when it arrives and with matching stamps of pairwise distinct
    tuples, and every reconfiguration comes with a branch-key function that
    gives a key for every stamp with a branch and with incomplete build
    requests whose matching stamps have pairwise distinct tuples. *)
Fixpoint admissible_messages (c : OldBuildCanceller) (ms : list message)
    : Prop :=
  match ms with
  | [] => True
  | m :: rest =>
      match m with
      | BuildrequestNew breq =>
          ∀ s, _build_tracker c = Some s →
            get (buildrequestid breq) (br_by_id s) = None ∧
            distinct_tuples s (builder_name_of (builderid breq))
              (sourcestamps_of (buildsetid breq))
      | Reconfig filters branch_key turns =>
          total_on_branches
            (default BranchKey._default_branch_key branch_key) ∧
          seed_distinct builder_name_of sourcestamps_of
            (filter_tuples_to_filter_set_object filters)
            (default BranchKey._default_branch_key branch_key)
            (seeded turns)
      | _ => True
      end ∧ admissible_messages (canceller_of (handle c m)) rest
  end.

End service.

End Service.

(** ** More sample data *)

Module ExtraSamples.
Import Dict Tracker Canceller Samples.
Local Open Scope string_scope.

(** Request 1 is built from two patch sets of one review, which have the
    same tuple, and request 2 from master. *)
Definition events_two_patchsets : list event :=
  [ NewBuildrequest 1 "builder" [ss_master; ss_patchset3; ss_patchset4];
    NewBuildrequest 2 "builder" [ss_master] ].

(** Request 2 is built from master, and a change on master cancels it. *)
Definition events_cancelled : list event :=
  [ NewBuildrequest 2 "builder" [ss_master]; Change ss_master ].

(** Request 2 is built from master, then a change without a branch
    arrives. *)
Definition events_bad_change : list event :=
  [ NewBuildrequest 2 "builder" [ss_master]; Change ss_no_branch ].

(** The record of request 1 of [events_distinct]. *)
Definition tracked1 : TrackedBuildRequest :=
  mkTracked 1 [key_master; key_review].

(** The service starts with requests 1 and 2 incomplete, then request 3,
    built from master, arrives. *)
Definition messages_started : list Service.message :=
  [ Service.Reconfig CancellerSamples.filters None
      [Service.Seed (mkBuildRequest 1 5 10);
       Service.Seed (mkBuildRequest 2 5 11)];
    Service.BuildrequestNew (mkBuildRequest 3 5 10) ].

(** A reconfiguration during which request 1 completes before the loop
    comes to it, and request 3 after the loop has passed it. *)
Definition turns_busy : list Service.turn :=
  [ Service.Deliver (mkBuildRequest 1 5 10);
    Service.Seed (mkBuildRequest 1 5 10);
    Service.Seed (mkBuildRequest 3 5 10);
    Service.Deliver (mkBuildRequest 3 5 10);
    Service.Seed (mkBuildRequest 4 5 10) ].

End ExtraSamples.

(** * Properties *)

(** ** Facts about dictionaries *)

Module DictFacts.
Import Dict.
Section dict_facts.
Context {K V : Type} `{EqDecision K}.
Implicit Types (k : K) (v : V) (d : dict K V).

Lemma get_empty k : get k (empty : dict K V) = None.
Proof. reflexivity. Qed.

Lemma get_set k k' v d :
  get k' (set k v d) = if decide (k' = k) then Some v else get k' d.
Proof.
  induction d as [|[k0 v0] d IH]; simpl.
  - repeat case_decide; congruence.
  - repeat (case_decide; simpl; subst); try congruence.
Qed.

Lemma get_set_eq k v d : get k (set k v d) = Some v.
Proof. rewrite get_set. by case_decide. Qed.

Lemma get_set_ne k k' v d : k' ≠ k → get k' (set k v d) = get k' d.
Proof. intros. rewrite get_set. by case_decide. Qed.

Lemma get_del k k' d :
  get k' (del k d) = if decide (k' = k) then None else get k' d.
Proof.
  induction d as [|[k0 v0] d IH]; simpl.
  - by case_decide.
  - repeat (case_decide; simpl; subst); try congruence.
Qed.

Lemma get_del_eq k d : get k (del k d) = None.
Proof. rewrite get_del. by case_decide. Qed.

Lemma get_del_ne k k' d : k' ≠ k → get k' (del k d) = get k' d.
Proof. intros. rewrite get_del. by case_decide. Qed.

Lemma get_None k d : get k d = None ↔ k ∉ keys d.
Proof.
  induction d as [|[k0 v0] d IH]; simpl.
  - split; [intros _; apply not_elem_of_nil | done].
  - rewrite not_elem_of_cons. case_decide; subst.
    + split; [done | intros [? _]; done].
    + rewrite IH. tauto.
Qed.

Lemma get_Some_elem k v d : get k d = Some v → (k, v) ∈ d.
Proof.
  induction d as [|[k0 v0] d IH]; simpl; [done|].
  case_decide; subst.
  - intros [= ->]. apply list_elem_of_here.
  - intros. apply list_elem_of_further. auto.
Qed.

Lemma elem_get k v d : wf d → (k, v) ∈ d → get k d = Some v.
Proof.
  unfold wf. induction d as [|[k0 v0] d IH]; simpl.
  - intros _ H%elem_of_nil. done.
  - rewrite NoDup_cons. intros [Hk0 Hnd] [Heq | Hin]%elem_of_cons.
    + injection Heq as -> ->. by case_decide.
    + case_decide; subst; [|auto].
      exfalso. apply Hk0. unfold keys.
      apply list_elem_of_fmap. by exists (k0, v).
Qed.

Lemma get_is_Some k d : is_Some (get k d) ↔ k ∈ keys d.
Proof.
  destruct (get k d) eqn:E.
  - split; [intros _ | by eauto].
    apply get_Some_elem in E. unfold keys.
    apply list_elem_of_fmap. by exists (k, v).
  - apply get_None in E. split; [intros [? ?]; done | done].
Qed.

Lemma keys_set_in k v d : k ∈ keys d → keys (set k v d) = keys d.
Proof.
  induction d as [|[k0 v0] d IH]; simpl.
  - intros H%elem_of_nil. done.
  - case_decide; subst; simpl; [done|].
    intros [? | ?]%elem_of_cons; [done|]. f_equal. auto.
Qed.

Lemma keys_set_notin k v d : k ∉ keys d → keys (set k v d) = keys d ++ [k].
Proof.
  induction d as [|[k0 v0] d IH]; simpl; [done|].
  rewrite not_elem_of_cons. intros [? ?].
  case_decide; subst; simpl; [done|]. f_equal. auto.
Qed.

Lemma wf_empty : wf (empty : dict K V).
Proof. apply NoDup_nil_2. Qed.

Lemma wf_set k v d : wf d → wf (set k v d).
Proof.
  unfold wf. intros Hd.
  destruct (decide (k ∈ keys d)) as [Hin | Hnin].
  - by rewrite keys_set_in.
  - rewrite keys_set_notin by done.
    apply NoDup_app. repeat split; [done | | apply NoDup_singleton].
    intros x Hx ->%list_elem_of_singleton. done.
Qed.

Lemma keys_del_subset k k' d : k' ∈ keys (del k d) → k' ∈ keys d.
Proof.
  induction d as [|[k0 v0] d IH]; simpl; [done|].
  case_decide; subst; simpl.
  - intros. apply list_elem_of_further. auto.
  - intros [-> | ?]%elem_of_cons;
      [apply list_elem_of_here | apply list_elem_of_further; auto].
Qed.

Lemma wf_del k d : wf d → wf (del k d).
Proof.
  unfold wf. induction d as [|[k0 v0] d IH]; simpl; [done|].
  rewrite NoDup_cons. intros [Hk0 Hnd].
  case_decide; subst; simpl; [auto|].
  apply NoDup_cons. split; [|auto].
  intros H'. apply Hk0. eapply keys_del_subset, H'.
Qed.

Lemma is_empty_true d : is_empty d = true ↔ d = [].
Proof. destruct d; simpl; split; congruence. Qed.

Lemma is_empty_get d : is_empty d = true → ∀ k, get k d = None.
Proof. intros ->%is_empty_true. done. Qed.

Lemma is_empty_false_get d : is_empty d = false → ∃ k v, get k d = Some v.
Proof.
  destruct d as [|[k v] d]; simpl; [done|]. intros _.
  exists k, v. by case_decide.
Qed.

Lemma del_absent k d : get k d = None → del k d = d.
Proof.
  induction d as [|[k0 v0] d IH]; simpl; [done|].
  case_decide; subst; [done|]. intros. f_equal. auto.
Qed.

End dict_facts.
End DictFacts.

(** ** The default branch key *)

Module BranchKeyFacts.
Import BranchKey BranchKeyAux.
Local Open Scope string_scope.
Local Arguments is_digit : simpl never.

Example default_branch_key_gerrit :
  default_branch_key_of "refs/changes/12/3412/7" = "refs/changes/12/3412".
Proof. reflexivity. Qed.

Example default_branch_key_plain :
  default_branch_key_of "master" = "master".
Proof. reflexivity. Qed.

Lemma span_digits_app x s :
  all_digits x = true → stops s → span_digits (x +:+ s) = (x, s).
Proof.
  intros Hx Hs. induction x as [|c x IH]; simpl in *.
  - destruct s as [|c s]; [done|]. simpl in *. by rewrite Hs.
  - apply andb_true_iff in Hx as [Hc Hx]. rewrite Hc. by rewrite IH.
Qed.

Lemma span_digits_spec s d r :
  span_digits s = (d, r) → s = d +:+ r ∧ all_digits d = true ∧ stops r.
Proof.
  revert d r. induction s as [|c s IH]; intros d r; simpl.
  - by intros [= <- <-].
  - destruct (is_digit c) eqn:Ec.
    + destruct (span_digits s) as [d' r'] eqn:Es. intros [= <- <-].
      destruct (IH d' r' eq_refl) as (-> & Hd & Hr).
      simpl. by rewrite Ec, Hd.
    + intros [= <- <-]. simpl. by rewrite Ec.
Qed.

Lemma strip_prefix_Some p s r : strip_prefix p s = Some r → s = p +:+ r.
Proof.
  revert s. induction p as [|a p IH]; intros s; simpl.
  - by intros [= ->].
  - destruct s as [|b s]; [done|]. case_decide; [|done]. subst.
    intros ->%IH. done.
Qed.

Lemma strip_prefix_app p s : strip_prefix p (p +:+ s) = Some s.
Proof. induction p as [|a p IH]; simpl; [done|]. by rewrite decide_True. Qed.

Lemma slash_stops s : stops (String "/" s).
Proof. reflexivity. Qed.

Lemma re_match_prefixed x y d rest :
  numeric x → numeric y → is_digit d = true →
  re_match ("refs/changes/" +:+ x +:+ "/" +:+ y +:+ "/" +:+ String d rest)
  = Some (x, y).
Proof.
  intros [Hx1 Hx2] [Hy1 Hy2] Hd. unfold re_match.
  rewrite strip_prefix_app.
  change ("/" +:+ y +:+ "/" +:+ String d rest)
    with (String "/" (y +:+ String "/" (String d rest))).
  rewrite (span_digits_app x _ Hx2 (slash_stops _)). rewrite Hx1.
  rewrite (span_digits_app y _ Hy2 (slash_stops _)). rewrite Hy1.
  by rewrite Hd.
Qed.

Lemma re_match_Some b g1 g2 :
  re_match b = Some (g1, g2) →
  ∃ d rest, numeric g1 ∧ numeric g2 ∧ is_digit d = true ∧
    b = "refs/changes/" +:+ g1 +:+ "/" +:+ g2 +:+ "/" +:+ String d rest.
Proof.
  unfold re_match.
  destruct (strip_prefix "refs/changes/" b) as [rest0|] eqn:E0; [|done].
  apply strip_prefix_Some in E0 as ->.
  destruct (span_digits rest0) as [x rest1] eqn:E1.
  apply span_digits_spec in E1 as (-> & Hx & _).
  destruct (nonempty x) eqn:Hx1; [|done].
  destruct rest1 as [|c1 rest2]; [done|].
  destruct (decide (c1 = "/"%char)) as [-> | Hc1].
  - destruct (span_digits rest2) as [y rest3] eqn:E2.
    apply span_digits_spec in E2 as (-> & Hy & _).
    destruct (nonempty y) eqn:Hy1; [|done].
    destruct rest3 as [|c3 rest4]; [done|].
    destruct (decide (c3 = "/"%char)) as [-> | Hc3].
    + destruct rest4 as [|d rest]; [done|].
      destruct (is_digit d) eqn:Hd; [|done]. intros [= <- <-].
      exists d, rest. by repeat split.
    + destruct c3 as [[] [] [] [] [] [] [] []]; done.
  - destruct c1 as [[] [] [] [] [] [] [] []]; done.
Qed.

Lemma default_branch_key_prefixed x y d rest :
  numeric x → numeric y → is_digit d = true →
  default_branch_key_of
    ("refs/changes/" +:+ x +:+ "/" +:+ y +:+ "/" +:+ String d rest)
  = "refs/changes/" +:+ x +:+ "/" +:+ y.
Proof.
  intros Hx Hy Hd. unfold default_branch_key_of, startswith.
  rewrite strip_prefix_app. by rewrite re_match_prefixed.
Qed.

Lemma numeric_inv r : numeric r → ∃ d rest, r = String d rest ∧ is_digit d = true.
Proof.
  intros [H1 H2]. destruct r as [|d rest]; [done|]. simpl in H2.
  apply andb_true_iff in H2 as [Hd _]. eauto.
Qed.

Lemma is_patchset_form_spec b : is_patchset_form b = true ↔ patchset_form b.
Proof.
  unfold is_patchset_form, patchset_form. split.
  - destruct (strip_prefix "refs/changes/" b) as [rest0|] eqn:E0; [|done].
    apply strip_prefix_Some in E0 as ->.
    destruct (span_digits rest0) as [x rest1] eqn:E1.
    apply span_digits_spec in E1 as (-> & Hx & _).
    destruct rest1 as [|c1 rest2]; [done|].
    destruct (decide (c1 = "/"%char)) as [-> | Hc1];
      [|destruct c1 as [[] [] [] [] [] [] [] []]; done].
    destruct (span_digits rest2) as [y rest3] eqn:E2.
    apply span_digits_spec in E2 as (-> & Hy & _).
    destruct rest3 as [|c3 r]; [done|].
    destruct (decide (c3 = "/"%char)) as [-> | Hc3];
      [|destruct c3 as [[] [] [] [] [] [] [] []]; done].
    intros [[[Hx1 Hy1]%andb_true_iff Hr1]%andb_true_iff Hr]%andb_true_iff.
    exists x, y, r. by repeat split.
  - intros (x & y & r & [Hx1 Hx2] & [Hy1 Hy2] & [Hr1 Hr2] & ->).
    rewrite strip_prefix_app.
    change ("/" +:+ y +:+ "/" +:+ r) with (String "/" (y +:+ String "/" r)).
    rewrite (span_digits_app x _ Hx2 (slash_stops _)).
    rewrite (span_digits_app y _ Hy2 (slash_stops _)).
    by rewrite Hx1, Hy1, Hr1, Hr2.
Qed.

(** C8, as amended: the default branch key maps every branch
    [refs/changes/<X>/<Y>/<rev>] with [X], [Y] and [rev] numeric to
    [refs/changes/<X>/<Y>]; it maps to the same [refs/changes/<X>/<Y>]
    every branch that starts with [refs/changes/<X>/<Y>/] and a digit,
    whatever comes after that digit; and it returns every other branch
    unchanged. *)
Theorem default_branch_key_collapses :
  (∀ x y r, numeric x → numeric y → numeric r →
     default_branch_key_of ("refs/changes/" +:+ x +:+ "/" +:+ y +:+ "/" +:+ r)
     = "refs/changes/" +:+ x +:+ "/" +:+ y) ∧
  (∀ x y d rest, numeric x → numeric y → is_digit d = true →
     default_branch_key_of
       ("refs/changes/" +:+ x +:+ "/" +:+ y +:+ "/" +:+ String d rest)
     = "refs/changes/" +:+ x +:+ "/" +:+ y) ∧
  (∀ b, ¬ patchset_prefixed b → default_branch_key_of b = b).
Proof.
  split; [|split].
  - intros x y r Hx Hy (d & rest & -> & Hd)%numeric_inv.
    by apply default_branch_key_prefixed.
  - intros x y d rest Hx Hy Hd. by apply default_branch_key_prefixed.
  - intros b Hb. unfold default_branch_key_of.
    destruct (re_match b) as [[g1 g2]|] eqn:Em; [|by destruct (startswith _ _)].
    exfalso. apply Hb. apply re_match_Some in Em as (d & rest & ? & ? & ? & ->).
    by exists g1, g2, d, rest.
Qed.

Lemma default_branch_key_collapses_witness :
  default_branch_key_of "refs/changes/12/3412/7" = "refs/changes/12/3412" ∧
  default_branch_key_of "refs/changes/12/3412/7-wip" = "refs/changes/12/3412" ∧
  default_branch_key_of "refs/heads/main" = "refs/heads/main".
Proof.
  destruct default_branch_key_collapses as (H1 & H2 & H3).
  split; [|split].
  - apply (H1 "12" "3412" "7"); by split.
  - apply (H2 "12" "3412" "7"%char "-wip"); by split.
  - apply H3. intros (x & y & d & rest & _ & _ & _ & H). discriminate H.
Defined.

(** C8 as it was stated fails: a branch that goes on after the revision is
    not of the form [refs/changes/<X>/<Y>/<rev>], and is not returned
    unchanged. *)
Lemma default_branch_key_changes_other_branch :
  ¬ patchset_form "refs/changes/12/3412/7-wip" ∧
  default_branch_key_of "refs/changes/12/3412/7-wip" = "refs/changes/12/3412" ∧
  default_branch_key_of "refs/changes/12/3412/7-wip"
  ≠ "refs/changes/12/3412/7-wip".
Proof.
  split; [|split; [reflexivity | discriminate]].
  rewrite <- is_patchset_form_spec. discriminate.
Qed.

End BranchKeyFacts.

(** ** The build-request tracker *)

Module TrackerFacts.
Import Dict DictFacts Tracker TrackerAux.

Implicit Types (s : OldBuildrequestTracker) (k K : SSKey) (id : Z).
Implicit Types (t : TrackedBuildRequest).
Implicit Types (by_ss : dict SSKey (dict Z TrackedBuildRequest)).
Implicit Types (b : dict Z TrackedBuildRequest).

(** *** Entries of the key index *)

Lemma entry_set by_ss k b k' id :
  entry (set k b by_ss) k' id
  = if decide (k' = k) then get id b else entry by_ss k' id.
Proof. unfold entry. rewrite get_set. by case_decide. Qed.

Lemma entry_del by_ss k k' id :
  entry (del k by_ss) k' id
  = if decide (k' = k) then None else entry by_ss k' id.
Proof. unfold entry. rewrite get_del. by case_decide. Qed.

Lemma entry_Some_bucket by_ss k id t :
  entry by_ss k id = Some t →
  ∃ b, get k by_ss = Some b ∧ get id b = Some t.
Proof. unfold entry. destruct (get k by_ss); [eauto | done]. Qed.

Lemma entry_no_bucket by_ss k id : get k by_ss = None → entry by_ss k id = None.
Proof. unfold entry. by intros ->. Qed.

Lemma ss_ok_empty : ss_ok empty.
Proof. split; [apply wf_empty | done]. Qed.

Lemma drop_from_bucket_present id k b s t :
  get id b = Some t →
  drop_from_bucket id k b s = Finished (with_by_ss s (drop1 id k b (br_by_ss s))).
Proof.
  intros Hid. unfold drop_from_bucket, drop1. rewrite Hid.
  by destruct (is_empty (del id b)).
Qed.

Lemma drop_from_bucket_absent id k b s :
  get id b = None → drop_from_bucket id k b s = Broke (KeyError id) s.
Proof. intros Hid. unfold drop_from_bucket. by rewrite Hid. Qed.

Lemma entry_drop1 by_ss id k b k' id' :
  get k by_ss = Some b →
  entry (drop1 id k b by_ss) k' id'
  = if decide (k' = k ∧ id' = id) then None else entry by_ss k' id'.
Proof.
  intros Hk. unfold drop1. destruct (is_empty (del id b)) eqn:E.
  - rewrite entry_del. destruct (decide (k' = k)) as [-> | Hne].
    + case_decide as H; [done|]. unfold entry. rewrite Hk.
      pose proof (is_empty_get _ E id') as H'. rewrite get_del in H'.
      case_decide; [subst; tauto | done].
    + case_decide as H; [tauto | done].
  - rewrite entry_set. destruct (decide (k' = k)) as [-> | Hne].
    + rewrite get_del. unfold entry. rewrite Hk.
      repeat case_decide; try done; tauto.
    + case_decide as H; [tauto | done].
Qed.

Lemma get_drop1_ne by_ss id k b k' :
  k' ≠ k → get k' (drop1 id k b by_ss) = get k' by_ss.
Proof.
  intros Hne. unfold drop1. destruct (is_empty (del id b)).
  - by apply get_del_ne.
  - by apply get_set_ne.
Qed.

Lemma ss_ok_drop1 by_ss id k b :
  ss_ok by_ss → get k by_ss = Some b → ss_ok (drop1 id k b by_ss).
Proof.
  intros [Hwf Hb] Hk. unfold drop1. destruct (is_empty (del id b)) eqn:E.
  - split; [by apply wf_del|]. intros k' b'. rewrite get_del.
    case_decide; [done | apply Hb].
  - split; [by apply wf_set|]. intros k' b'. rewrite get_set.
    case_decide; [|apply Hb]. intros [= <-]. split.
    + apply wf_del. by apply (Hb k b).
    + intros Heq. rewrite Heq in E. done.
Qed.

(** *** Completing a request that is not tracked *)

(** C10: [on_complete_buildrequest] on an id that the id-index does not
    hold returns normally, calls nothing, and leaves the tracker, with both
    of its indices, exactly as it was. *)
Theorem on_complete_untracked_noop s id :
  get id (br_by_id s) = None →
  on_complete_buildrequest s id = Returned s [].
Proof. intros Hid. unfold on_complete_buildrequest. by rewrite Hid. Qed.

(** *** New build requests *)

Lemma match_loop_no_branch fs builder_name sourcestamps matched_ss :
  (∃ ss, ss ∈ sourcestamps ∧ branch ss = None) →
  match_loop fs builder_name sourcestamps matched_ss = None.
Proof.
  revert matched_ss.
  induction sourcestamps as [|ss0 rest IH]; intros acc (ss & Hin & Hb).
  - by apply elem_of_nil in Hin.
  - simpl. apply elem_of_cons in Hin as [-> | Hin]; [by rewrite Hb|].
    destruct (branch ss0); [|done].
    destruct (is_matched fs builder_name ss0); apply IH; eauto.
Qed.

Lemma match_loop_all_branches fs builder_name sourcestamps matched_ss :
  (∀ ss, ss ∈ sourcestamps → branch ss ≠ None) →
  match_loop fs builder_name sourcestamps matched_ss
  = Some (matched_ss
          ++ filter (λ ss, is_matched fs builder_name ss = true) sourcestamps).
Proof.
  revert matched_ss.
  induction sourcestamps as [|ss0 rest IH]; intros acc Hb; simpl.
  - by rewrite app_nil_r.
  - destruct (branch ss0) eqn:E;
      [|exfalso; apply (Hb ss0); [apply list_elem_of_here | done]].
    assert (∀ ss, ss ∈ rest → branch ss ≠ None) as Hrest.
    { intros ss Hin. apply Hb. by apply list_elem_of_further. }
    destruct (is_matched fs builder_name ss0) eqn:Em.
    + rewrite filter_cons_True by done. rewrite IH by done.
      by rewrite <- app_assoc.
    + rewrite filter_cons_False by congruence. by apply IH.
Qed.

Lemma match_loop_no_match fs builder_name sourcestamps matched_ss :
  (∀ ss, ss ∈ sourcestamps → is_matched fs builder_name ss ≠ true) →
  match_loop fs builder_name sourcestamps matched_ss = None ∨
  match_loop fs builder_name sourcestamps matched_ss = Some matched_ss.
Proof.
  revert matched_ss.
  induction sourcestamps as [|ss0 rest IH]; intros acc Hm; simpl; [by right|].
  destruct (branch ss0); [|by left].
  destruct (is_matched fs builder_name ss0) eqn:Em.
  - exfalso. apply (Hm ss0); [apply list_elem_of_here | done].
  - apply IH. intros ss Hin. apply Hm. by apply list_elem_of_further.
Qed.

Lemma ss_tuples_of_Forall2 bk matched_ss tuples :
  ss_tuples_of bk matched_ss = Ok tuples ↔
  Forall2 (λ ss k, ss_tuple_of bk ss = Ok k) matched_ss tuples.
Proof.
  revert tuples. induction matched_ss as [|ss rest IH]; intros tuples; simpl.
  - split; [intros [= <-]; constructor | intros H; by inversion H].
  - destruct (ss_tuple_of bk ss) as [k|e] eqn:Ek.
    + destruct (ss_tuples_of bk rest) as [ks|e] eqn:Eks.
      * split.
        -- intros [= <-]. constructor; [done | by apply IH].
        -- intros H. inversion H as [|? k' ? ks' Hk Hks]; subst.
           apply IH in Hks. congruence.
      * split; [done|]. intros H. inversion H as [|? k' ? ks' Hk Hks]; subst.
        apply IH in Hks. done.
    + split; [done|]. intros H. inversion H; subst. congruence.
Qed.

Lemma ss_tuples_of_total bk matched_ss :
  (∀ ss, ss ∈ matched_ss → ∃ key, bk ss = Ok key) →
  ∃ tuples, ss_tuples_of bk matched_ss = Ok tuples.
Proof.
  induction matched_ss as [|ss rest IH]; intros Hbk; simpl; [eauto|].
  destruct (Hbk ss) as [key Hb]; [apply list_elem_of_here|].
  unfold ss_tuple_of. rewrite Hb.
  destruct IH as [ks ->]; [|eauto].
  intros ss' Hin. apply Hbk. by apply list_elem_of_further.
Qed.

Lemma entry_register t tuples by_ss k id :
  entry (register t tuples by_ss) k id
  = if decide (k ∈ tuples ∧ id = brid t) then Some t else entry by_ss k id.
Proof.
  revert by_ss. induction tuples as [|k0 rest IH]; intros by_ss;
    cbn [register].
  - case_decide as H; [|done]. destruct H as [H _]. by apply elem_of_nil in H.
  - rewrite IH, entry_set, get_set.
    destruct (decide (k ∈ rest ∧ id = brid t)) as [[H1 H2] | Hn].
    + rewrite decide_True; [done|]. split; [by apply list_elem_of_further | done].
    + destruct (decide (k = k0)) as [-> | Hne].
      * destruct (decide (id = brid t)) as [-> | Hid].
        -- rewrite decide_True; [done|]. split; [apply list_elem_of_here | done].
        -- rewrite decide_False by tauto.
           unfold entry. by destruct (get k0 by_ss).
      * case_decide as H; [|done]. destruct H as [H ->].
        apply elem_of_cons in H as [? | ?]; [done | tauto].
Qed.

(** C3: [on_new_buildrequest] tracks all or nothing. A stamp without a
    branch, or no stamp that matches the filters of the builder, leaves the
    tracker as it was; otherwise the request enters the id-index, with one
    tuple [(project, codebase, repository, branch key)] for each matching
    stamp, and the bucket of that tuple for every matching stamp. The
    branch-key function is taken to give a key for every stamp that has a
    branch, as the default one does. *)
Theorem on_new_buildrequest_tracking s id builder_name sourcestamps :
  let matches ss := is_matched (tracker_filter s) builder_name ss = true in
  ((∃ ss, ss ∈ sourcestamps ∧ branch ss = None) →
   on_new_buildrequest s id builder_name sourcestamps = Returned s []) ∧
  ((∀ ss, ss ∈ sourcestamps → ¬ matches ss) →
   on_new_buildrequest s id builder_name sourcestamps = Returned s []) ∧
  ((∀ ss, ss ∈ sourcestamps → branch ss ≠ None) →
   (∃ ss, ss ∈ sourcestamps ∧ matches ss) →
   (∀ ss, branch ss ≠ None → ∃ key, branch_key s ss = Ok key) →
   ∃ tuples s',
     Forall2
       (λ ss k, ∃ key, branch_key s ss = Ok key ∧
                  k = (project ss, codebase ss, repository ss, key))
       (filter matches sourcestamps) tuples ∧
     on_new_buildrequest s id builder_name sourcestamps = Returned s' [] ∧
     get id (br_by_id s') = Some (mkTracked id tuples) ∧
     (∀ k, k ∈ tuples → bucket_entry s' k id = Some (mkTracked id tuples)) ∧
     (∀ ss, ss ∈ sourcestamps → matches ss →
        ∃ key, branch_key s ss = Ok key ∧
          bucket_entry s' (project ss, codebase ss, repository ss, key) id
          = Some (mkTracked id tuples))).
Proof.
  intros matches. split; [|split].
  - intros Hnone. unfold on_new_buildrequest.
    by rewrite match_loop_no_branch.
  - intros Hno. unfold on_new_buildrequest.
    destruct (match_loop_no_match (tracker_filter s) builder_name
                sourcestamps []) as [-> | ->]; [apply Hno | done | done].
  - intros Hbr (ss0 & Hin0 & Hm0) Hbk. unfold on_new_buildrequest.
    rewrite match_loop_all_branches by done. simpl.
    set (matched_ss := filter _ sourcestamps).
    assert (ss0 ∈ matched_ss) as Hin0'.
    { subst matched_ss. apply list_elem_of_filter. by split. }
    destruct (ss_tuples_of_total (branch_key s) matched_ss) as [tuples Ht].
    { intros ss [_ Hin]%list_elem_of_filter. apply Hbk. by apply Hbr. }
    rewrite Ht. pose proof Ht as HF%ss_tuples_of_Forall2.
    assert (Forall2
              (λ ss k, ∃ key, branch_key s ss = Ok key ∧
                         k = (project ss, codebase ss, repository ss, key))
              matched_ss tuples) as HF'.
    { eapply Forall2_impl; [exact HF|]. intros ss k Hk. cbn beta in Hk.
      unfold ss_tuple_of in Hk. destruct (branch_key s ss) as [key|e];
        [|done].
      injection Hk as <-. by exists key. }
    assert (∀ k, k ∈ tuples →
              entry (register (mkTracked id tuples) tuples (br_by_ss s)) k id
              = Some (mkTracked id tuples)) as Hentry.
    { intros k Hk. rewrite entry_register. by rewrite decide_True. }
    destruct matched_ss as [|m ms] eqn:Em; [by apply elem_of_nil in Hin0'|].
    rewrite <- Em in *. exists tuples. eexists. split; [done|].
    split; [reflexivity|]. split; [apply get_set_eq|]. split; [done|].
    intros ss Hin Hm.
    assert (ss ∈ matched_ss) as Hin'.
    { subst matched_ss. rewrite Em. rewrite <- Em.
      apply list_elem_of_filter. by split. }
    apply list_elem_of_lookup in Hin' as [i Hi].
    destruct (Forall2_lookup_l _ _ _ _ _ HF' Hi) as (k & Hk & key & Hkey & ->).
    exists key. split; [done|]. apply Hentry.
    apply list_elem_of_lookup. eauto.
Qed.

(** *** A missing bucket *)

Local Ltac raised_here := eexists _, _; split; [reflexivity | exact I].

Lemma drop_from_bucket_frame id k0 b s s' k :
  drop_from_bucket id k0 b s = Finished s' → k ≠ k0 →
  get k (br_by_ss s') = get k (br_by_ss s).
Proof.
  unfold drop_from_bucket. destruct (get id b); [|done].
  destruct (is_empty (del id b)); intros [= <-] Hne; simpl.
  - by apply get_del_ne.
  - by apply get_set_ne.
Qed.

Lemma drop_from_bucket_key_error id k0 b s e s' :
  drop_from_bucket id k0 b s = Broke e s' → is_key_error e.
Proof.
  unfold drop_from_bucket. destruct (get id b); [|by intros [= <- _]].
  by destruct (is_empty (del id b)).
Qed.

Lemma complete_loop_missing_bucket id tuples s k :
  k ∈ tuples → get k (br_by_ss s) = None →
  ∃ e s', complete_loop id tuples s = Broke e s' ∧ is_key_error e.
Proof.
  revert s. induction tuples as [|k0 rest IH]; intros s Hin Hk.
  - by apply elem_of_nil in Hin.
  - simpl. destruct (get k0 (br_by_ss s)) as [b0|] eqn:E0; [|raised_here].
    assert (k ≠ k0) as Hne by congruence.
    apply elem_of_cons in Hin as [? | Hin]; [done|].
    destruct (drop_from_bucket id k0 b0 s) as [s1|e s1] eqn:Ed.
    + apply IH; [done|]. by rewrite (drop_from_bucket_frame _ _ _ _ _ _ Ed).
    + apply drop_from_bucket_key_error in Ed. eauto.
Qed.

Lemma others_loop_missing_bucket K id tuples s k :
  k ∈ tuples → k ≠ K → get k (br_by_ss s) = None →
  ∃ e s', others_loop K id tuples s = Broke e s' ∧ is_key_error e.
Proof.
  revert s. induction tuples as [|k0 rest IH]; intros s Hin HK Hk.
  - by apply elem_of_nil in Hin.
  - simpl. case_decide as HK0.
    + subst k0. apply elem_of_cons in Hin as [? | Hin]; [done | by apply IH].
    + destruct (get k0 (br_by_ss s)) as [b0|] eqn:E0; [|raised_here].
      assert (k ≠ k0) as Hne by congruence.
      apply elem_of_cons in Hin as [? | Hin]; [done|].
      destruct (drop_from_bucket id k0 b0 s) as [s1|e s1] eqn:Ed.
      * apply IH; [done | done |].
        by rewrite (drop_from_bucket_frame _ _ _ _ _ _ Ed).
      * apply drop_from_bucket_key_error in Ed. eauto.
Qed.

Lemma others_loop_keeps_missing K id tuples s s' k :
  others_loop K id tuples s = Finished s' →
  get k (br_by_ss s) = None → get k (br_by_ss s') = None.
Proof.
  revert s. induction tuples as [|k0 rest IH]; intros s; simpl.
  - by intros [= <-].
  - case_decide as HK0; [apply IH|].
    destruct (get k0 (br_by_ss s)) as [b0|] eqn:E0; [|done].
    destruct (drop_from_bucket id k0 b0 s) as [s1|e s1] eqn:Ed; [|done].
    intros Hl Hk. apply (IH s1); [done|].
    rewrite (drop_from_bucket_frame _ _ _ _ _ _ Ed); [done | congruence].
Qed.

Lemma others_loop_key_error K id tuples s e s' :
  others_loop K id tuples s = Broke e s' → is_key_error e.
Proof.
  revert s. induction tuples as [|k0 rest IH]; intros s; simpl; [done|].
  case_decide; [apply IH|].
  destruct (get k0 (br_by_ss s)) as [b0|]; [|by intros [= <- _]].
  destruct (drop_from_bucket id k0 b0 s) as [s1|e1 s1] eqn:Ed; [apply IH|].
  intros [= <- _]. by apply drop_from_bucket_key_error in Ed.
Qed.

Lemma two_tuples_length (tuples : list SSKey) k K :
  K ∈ tuples → k ∈ tuples → k ≠ K → length tuples ≠ 1%nat.
Proof.
  destruct tuples as [|k1 [|k2 rest]]; simpl; [done | | done].
  intros ->%list_elem_of_singleton ->%list_elem_of_singleton. done.
Qed.

Lemma change_loop_missing_bucket K brs s t k :
  t ∈ brs → K ∈ ss_tuples t → k ∈ ss_tuples t → k ≠ K →
  get k (br_by_ss s) = None →
  ∃ e s', change_loop K brs s = Broke e s' ∧ is_key_error e.
Proof.
  intros Hin HK Hk Hne. revert s Hin.
  induction brs as [|t0 rest IH]; intros s Hin Hnone.
  - by apply elem_of_nil in Hin.
  - simpl. destruct (get (brid t0) (br_by_id s)); [|raised_here].
    set (s1 := with_by_id s _).
    destruct (decide (t = t0)) as [<- | Ht].
    + rewrite decide_False by exact (two_tuples_length _ k K HK Hk Hne).
      destruct (others_loop_missing_bucket K (brid t) (ss_tuples t) s1 k)
        as (e & s' & -> & He); eauto.
    + apply elem_of_cons in Hin as [? | Hin]; [done|].
      case_decide; [by apply IH|].
      destruct (others_loop K (brid t0) (ss_tuples t0) s1) as [s2|e s2] eqn:El.
      * apply IH; [done|]. by eapply others_loop_keeps_missing.
      * apply others_loop_key_error in El. eauto.
Qed.

(** C4: a tracked request one of whose tuples has no bucket makes its
    removal raise a [KeyError]: in [on_complete_buildrequest], for any of
    its tuples, and in [on_change] for a tuple [K] of the request, for any
    other of its tuples. *)
Theorem missing_bucket_raises s :
  (∀ id t k,
     get id (br_by_id s) = Some t → k ∈ ss_tuples t →
     get k (br_by_ss s) = None →
     ∃ e s', on_complete_buildrequest s id = Raised e s' ∧ is_key_error e) ∧
  (∀ change K br_dict t k,
     ss_tuple_of (branch_key s) change = Ok K →
     get K (br_by_ss s) = Some br_dict → t ∈ values br_dict →
     K ∈ ss_tuples t → k ∈ ss_tuples t → k ≠ K →
     get k (br_by_ss s) = None →
     ∃ e s', on_change s change = Raised e s' ∧ is_key_error e).
Proof.
  split.
  - intros id t k Hid Hk Hnone. unfold on_complete_buildrequest. rewrite Hid.
    destruct (complete_loop_missing_bucket (brid t) (ss_tuples t)
                (with_by_id s (del id (br_by_id s))) k)
      as (e & s' & -> & He); eauto.
  - intros change K br_dict t k HK Hb Hin HKt Hkt Hne Hnone.
    unfold on_change. rewrite HK, Hb.
    destruct (change_loop_missing_bucket K (values br_dict)
                (with_by_ss s (del K (br_by_ss s))) t k)
      as (e & s' & -> & He); eauto.
    simpl. by rewrite get_del_ne.
Qed.

(** *** The loops on consistent indices *)

Lemma with_by_ss_same s : with_by_ss s (br_by_ss s) = s.
Proof. by destruct s. Qed.

Lemma entry_drop_step by_ss id k0 k id' :
  entry (match get k0 by_ss with
         | Some b => drop1 id k0 b by_ss
         | None => by_ss
         end) k id'
  = if decide (k = k0 ∧ id' = id) then None else entry by_ss k id'.
Proof.
  destruct (get k0 by_ss) as [b0|] eqn:E0.
  - by apply entry_drop1.
  - case_decide as H; [|done]. destruct H as [-> _].
    by apply entry_no_bucket.
Qed.

Lemma entry_drop_all id tuples by_ss k id' :
  entry (drop_all id tuples by_ss) k id'
  = if decide (id' = id ∧ k ∈ tuples) then None else entry by_ss k id'.
Proof.
  unfold drop_all. revert by_ss.
  induction tuples as [|k0 rest IH]; intros by_ss; cbn [fold_left].
  - case_decide as H; [|done]. destruct H as [_ H]. by apply elem_of_nil in H.
  - rewrite IH, entry_drop_step.
    destruct (decide (id' = id ∧ k ∈ rest)) as [[-> Hin] | Hn].
    + rewrite decide_True; [done|]. split; [done | by apply list_elem_of_further].
    + destruct (decide (k = k0 ∧ id' = id)) as [[-> ->] | Hn'].
      * rewrite decide_True; [done|]. split; [done | apply list_elem_of_here].
      * rewrite decide_False; [done|]. intros [-> [-> | ?]%elem_of_cons]; tauto.
Qed.

Lemma ss_ok_drop_all id tuples by_ss :
  ss_ok by_ss → ss_ok (drop_all id tuples by_ss).
Proof.
  unfold drop_all. revert by_ss.
  induction tuples as [|k0 rest IH]; intros by_ss Hok; cbn [fold_left]; [done|].
  apply IH. destruct (get k0 by_ss) eqn:E0; [by apply ss_ok_drop1 | done].
Qed.

Lemma get_drop_all_frame id tuples by_ss k :
  k ∉ tuples → get k (drop_all id tuples by_ss) = get k by_ss.
Proof.
  unfold drop_all. revert by_ss.
  induction tuples as [|k0 rest IH]; intros by_ss Hk; cbn [fold_left]; [done|].
  apply not_elem_of_cons in Hk as [Hne Hk]. rewrite IH by done.
  destruct (get k0 by_ss); [by apply get_drop1_ne | done].
Qed.

Lemma complete_loop_fold id tuples s :
  NoDup tuples →
  (∀ k, k ∈ tuples → is_Some (entry (br_by_ss s) k id)) →
  complete_loop id tuples s
  = Finished (with_by_ss s (drop_all id tuples (br_by_ss s))).
Proof.
  revert s. induction tuples as [|k0 rest IH]; intros s Hnd Hent.
  - simpl. by rewrite with_by_ss_same.
  - apply NoDup_cons in Hnd as [Hk0 Hnd].
    destruct (Hent k0) as [t Ht]; [apply list_elem_of_here|].
    apply entry_Some_bucket in Ht as (b0 & Hb0 & Hid).
    cbn [complete_loop]. rewrite Hb0.
    rewrite (drop_from_bucket_present _ _ _ _ _ Hid).
    rewrite IH; [| done |].
    + unfold drop_all. cbn [fold_left]. simpl. by rewrite Hb0.
    + intros k Hk. simpl. rewrite entry_drop1 by done.
      rewrite decide_False; [apply Hent; by apply list_elem_of_further|].
      intros [-> _]. done.
Qed.

Lemma others_loop_fold K id tuples s :
  NoDup tuples →
  (∀ k, k ∈ tuples → k ≠ K → is_Some (entry (br_by_ss s) k id)) →
  others_loop K id tuples s
  = Finished (with_by_ss s (drop_others K id tuples (br_by_ss s))).
Proof.
  unfold drop_others. revert s.
  induction tuples as [|k0 rest IH]; intros s Hnd Hent.
  - simpl. by rewrite with_by_ss_same.
  - apply NoDup_cons in Hnd as [Hk0 Hnd].
    cbn [others_loop]. case_decide as HK.
    + subst k0. rewrite filter_cons_False by (intros H; by apply H).
      apply IH; [done|]. intros k Hk. apply Hent.
      by apply list_elem_of_further.
    + rewrite filter_cons_True by done.
      destruct (Hent k0) as [t Ht]; [apply list_elem_of_here | done |].
      apply entry_Some_bucket in Ht as (b0 & Hb0 & Hid).
      rewrite Hb0. rewrite (drop_from_bucket_present _ _ _ _ _ Hid).
      rewrite IH; [| done |].
      * unfold drop_all. cbn [fold_left]. simpl. by rewrite Hb0.
      * intros k Hk HkK. simpl. rewrite entry_drop1 by done.
        rewrite decide_False; [apply Hent; [by apply list_elem_of_further | done]|].
        intros [-> _]. done.
Qed.

Lemma get_remove_ids (ids : list Z) (by_id : dict Z TrackedBuildRequest) id :
  get id (remove_ids ids by_id)
  = if decide (id ∈ ids) then None else get id by_id.
Proof.
  unfold remove_ids. revert by_id.
  induction ids as [|i rest IH]; intros by_id; cbn [fold_left].
  - rewrite decide_False; [done | apply not_elem_of_nil].
  - rewrite IH, get_del.
    destruct (decide (id ∈ rest)) as [Hin | Hn].
    + rewrite decide_True; [done | by apply list_elem_of_further].
    + destruct (decide (id = i)) as [-> | Hne].
      * rewrite decide_True; [done | apply list_elem_of_here].
      * rewrite decide_False; [done|]. intros [? | ?]%elem_of_cons; done.
Qed.

Lemma wf_remove_ids (ids : list Z) (by_id : dict Z TrackedBuildRequest) :
  wf by_id → wf (remove_ids ids by_id).
Proof.
  unfold remove_ids. revert by_id.
  induction ids as [|i rest IH]; intros by_id Hwf; cbn [fold_left]; [done|].
  apply IH. by apply wf_del.
Qed.

Lemma entry_sweep K brs by_ss k id :
  entry (sweep K brs by_ss) k id
  = if decide (Exists (λ t, brid t = id ∧ k ∈ ss_tuples t ∧ k ≠ K) brs)
    then None else entry by_ss k id.
Proof.
  unfold sweep. revert by_ss.
  induction brs as [|t0 rest IH]; intros by_ss; cbn [fold_left].
  - rewrite decide_False; [done|]. by intros H%Exists_nil.
  - rewrite IH. unfold drop_others. rewrite entry_drop_all.
    destruct (decide (Exists _ rest)) as [Hex | Hn].
    + rewrite decide_True; [done | by apply Exists_cons_tl].
    + destruct (decide (id = brid t0 ∧ k ∈ filter (λ k, k ≠ K) (ss_tuples t0)))
        as [[-> [Hne Hin]%list_elem_of_filter] | Hn'].
      * rewrite decide_True; [done|]. by apply Exists_cons_hd.
      * rewrite decide_False; [done|].
        intros [(<- & Hin & Hne) | ?]%Exists_cons; [|done].
        apply Hn'. split; [done|]. by apply list_elem_of_filter.
Qed.

Lemma ss_ok_sweep K brs by_ss : ss_ok by_ss → ss_ok (sweep K brs by_ss).
Proof.
  unfold sweep. revert by_ss.
  induction brs as [|t0 rest IH]; intros by_ss Hok; cbn [fold_left]; [done|].
  apply IH. by apply ss_ok_drop_all.
Qed.

Lemma get_sweep_K K brs by_ss : get K (sweep K brs by_ss) = get K by_ss.
Proof.
  unfold sweep. revert by_ss.
  induction brs as [|t0 rest IH]; intros by_ss; cbn [fold_left]; [done|].
  rewrite IH. apply get_drop_all_frame.
  intros [H _]%list_elem_of_filter. by apply H.
Qed.

Lemma change_loop_fold K brs s :
  NoDup (map brid brs) →
  (∀ t, t ∈ brs →
     is_Some (get (brid t) (br_by_id s)) ∧ K ∈ ss_tuples t ∧
     NoDup (ss_tuples t) ∧
     ∀ k, k ∈ ss_tuples t → k ≠ K → is_Some (entry (br_by_ss s) k (brid t))) →
  change_loop K brs s
  = Finished (mkTracker (tracker_filter s) (branch_key s)
                (remove_ids (map brid brs) (br_by_id s))
                (sweep K brs (br_by_ss s))).
Proof.
  revert s. induction brs as [|t0 rest IH]; intros s Hnd Hpre.
  - simpl. by destruct s.
  - cbn [map] in Hnd. apply NoDup_cons in Hnd as [Hid0 Hnd].
    destruct (Hpre t0) as ([t0' Hget] & HK & Hnd0 & Hent0);
      [apply list_elem_of_here|].
    assert (∀ t, t ∈ rest → brid t ≠ brid t0) as Hother.
    { intros t Hin Heq. apply Hid0. rewrite <- Heq.
      apply list_elem_of_fmap. by exists t. }
    cbn [change_loop]. rewrite Hget.
    set (s1 := with_by_id s (del (brid t0) (br_by_id s))).
    assert (∀ t, t ∈ rest → is_Some (get (brid t) (br_by_id s1))) as Hget1.
    { intros t Hin. simpl. rewrite get_del_ne by by apply Hother.
      apply Hpre. by apply list_elem_of_further. }
    case_decide as Hlen.
    + assert (ss_tuples t0 = [K]) as HtK.
      { destruct (ss_tuples t0) as [|k1 [|k2 ?]]; try done.
        by apply list_elem_of_singleton in HK as ->. }
      rewrite IH; [| done |].
      * unfold sweep, remove_ids, drop_others, drop_all. cbn [fold_left map].
        rewrite HtK. rewrite filter_cons_False by (intros H; by apply H).
        by rewrite filter_nil.
      * intros t Hin. split; [by apply Hget1|].
        apply Hpre. by apply list_elem_of_further.
    + rewrite others_loop_fold by done.
      rewrite IH; [done | done |].
      intros t Hin.
      destruct (Hpre t) as (_ & HKt & Hndt & Hentt);
        [by apply list_elem_of_further|].
      split; [by apply Hget1|]. split; [done|]. split; [done|].
      intros k Hk HkK. simpl. unfold drop_others. rewrite entry_drop_all.
      rewrite decide_False; [by apply Hentt|].
      intros [Heq _]. by apply (Hother t).
Qed.

(** *** Consistency of the indices *)

Lemma tracker_inv_ss_ok s : tracker_inv s → ss_ok (br_by_ss s).
Proof.
  intros [_ H2 Hd]. split; [apply Hd|]. intros k b Hk. split.
  - by apply (buckets_wf _ Hd k).
  - by apply (H2 k).
Qed.

Lemma new_tracker_inv fs bk : tracker_inv (new_tracker fs bk).
Proof.
  split.
  - intros k id t. unfold bucket_entry. simpl. split; [done | by intros [? _]].
  - intros k b. done.
  - split; simpl; try done; apply NoDup_nil_2.
Qed.

(** A state whose indices are those of a consistent state cut down to the
    requests that [keep] selects is consistent. *)
Lemma inv_restrict s s' (keep : Z → bool) :
  tracker_inv s →
  (∀ id, get id (br_by_id s')
         = if keep id then get id (br_by_id s) else None) →
  (∀ k id, bucket_entry s' k id
           = if keep id then bucket_entry s k id else None) →
  ss_ok (br_by_ss s') → wf (br_by_id s') →
  tracker_inv s'.
Proof.
  intros [H1 H2 Hd] Hid Hss [Hwf Hb] Hwfid. split.
  - intros k id t. rewrite Hid, Hss. destruct (keep id); [apply H1|].
    split; [done | by intros [? _]].
  - intros k b Hk. by apply (Hb k b).
  - split; [done | done | | |].
    + intros k b Hk. by apply (Hb k b).
    + intros id t. rewrite Hid. destruct (keep id); [|done].
      apply (brid_ok _ Hd).
    + intros id t. rewrite Hid. destruct (keep id); [|done].
      apply (tuples_set _ Hd).
Qed.

Lemma untracked_no_entry s k id :
  I1 s → get id (br_by_id s) = None → bucket_entry s k id = None.
Proof.
  intros H1 Hid. destruct (bucket_entry s k id) as [t|] eqn:E; [|done].
  apply H1 in E as [E _]. congruence.
Qed.

Lemma on_complete_consistent s id :
  tracker_inv s →
  ∃ s', on_complete_buildrequest s id = Returned s' [] ∧
    (∀ id', get id' (br_by_id s')
            = if decide (id' = id) then None else get id' (br_by_id s)) ∧
    (∀ k id', bucket_entry s' k id'
              = if decide (id' = id) then None else bucket_entry s k id') ∧
    tracker_inv s'.
Proof.
  intros Hinv. pose proof Hinv as [H1 H2 Hd].
  unfold on_complete_buildrequest.
  destruct (get id (br_by_id s)) as [t|] eqn:Hid.
  - assert (brid t = id) as Hbrid by by apply (brid_ok _ Hd).
    rewrite Hbrid. rewrite complete_loop_fold.
    + eexists. split; [reflexivity|].
      assert (∀ id', get id'
                (br_by_id (with_by_ss (with_by_id s (del id (br_by_id s)))
                             (drop_all id (ss_tuples t) (br_by_ss s))))
              = if decide (id' = id) then None else get id' (br_by_id s)) as Hg.
      { intros id'. simpl. apply get_del. }
      assert (∀ k id', bucket_entry
                (with_by_ss (with_by_id s (del id (br_by_id s)))
                   (drop_all id (ss_tuples t) (br_by_ss s))) k id'
              = if decide (id' = id) then None else bucket_entry s k id') as He.
      { intros k id'. unfold bucket_entry. simpl. rewrite entry_drop_all.
        destruct (decide (id' = id)) as [-> | Hne].
        - case_decide as Hk; [done|].
          destruct (entry (br_by_ss s) k id) as [t'|] eqn:E; [|done].
          apply H1 in E as [E Hin]. exfalso. apply Hk. split; [done|].
          congruence.
        - rewrite decide_False; [done | tauto]. }
      split; [done|]. split; [done|].
      apply (inv_restrict s _ (λ id', bool_decide (id' ≠ id))); [done | | | |].
      * intros id'. rewrite Hg. case_bool_decide; by case_decide.
      * intros k id'. rewrite He. case_bool_decide; by case_decide.
      * simpl. apply ss_ok_drop_all. by apply tracker_inv_ss_ok.
      * simpl. apply wf_del. apply Hd.
    + by apply (tuples_set _ Hd id).
    + intros k Hk. simpl. exists t. apply H1. by split.
  - exists s. split; [done|]. split; [|split; [|done]].
    + intros id'. case_decide; by subst.
    + intros k id'. case_decide; [|done]. subst.
      by apply untracked_no_entry.
Qed.

(** *** No method touches the configuration *)

Lemma drop_from_bucket_config id k (b : dict Z TrackedBuildRequest) s :
  match drop_from_bucket id k b s with
  | Finished s' | Broke _ s' =>
      tracker_filter s' = tracker_filter s ∧ branch_key s' = branch_key s ∧
      br_by_id s' = br_by_id s
  end.
Proof.
  unfold drop_from_bucket. destruct (get id b); [|done].
  by destruct (is_empty _).
Qed.

Lemma complete_loop_config id tuples s :
  match complete_loop id tuples s with
  | Finished s' | Broke _ s' =>
      tracker_filter s' = tracker_filter s ∧ branch_key s' = branch_key s ∧
      br_by_id s' = br_by_id s
  end.
Proof.
  revert s. induction tuples as [|k rest IH]; intros s; [done|].
  cbn [complete_loop]. destruct (get k (br_by_ss s)) as [b|]; [|done].
  pose proof (drop_from_bucket_config id k b s) as Hcfg.
  destruct (drop_from_bucket id k b s) as [s1|e s1]; [|done].
  specialize (IH s1). destruct (complete_loop id rest s1);
    destruct Hcfg as (? & ? & ?), IH as (? & ? & ?); repeat split; congruence.
Qed.

Lemma others_loop_config K id tuples s :
  match others_loop K id tuples s with
  | Finished s' | Broke _ s' =>
      tracker_filter s' = tracker_filter s ∧ branch_key s' = branch_key s ∧
      br_by_id s' = br_by_id s
  end.
Proof.
  revert s. induction tuples as [|k rest IH]; intros s; [done|].
  cbn [others_loop]. case_decide; [apply IH|].
  destruct (get k (br_by_ss s)) as [b|]; [|done].
  pose proof (drop_from_bucket_config id k b s) as Hcfg.
  destruct (drop_from_bucket id k b s) as [s1|e s1]; [|done].
  specialize (IH s1). destruct (others_loop K id rest s1);
    destruct Hcfg as (? & ? & ?), IH as (? & ? & ?); repeat split; congruence.
Qed.

Lemma change_loop_config K brs s :
  match change_loop K brs s with
  | Finished s' | Broke _ s' =>
      tracker_filter s' = tracker_filter s ∧ branch_key s' = branch_key s
  end.
Proof.
  revert s. induction brs as [|t rest IH]; intros s; [done|].
  cbn [change_loop]. destruct (get (brid t) (br_by_id s)); [|done].
  set (s1 := with_by_id s _).
  assert (tracker_filter s1 = tracker_filter s ∧ branch_key s1 = branch_key s)
    as [Hf1 Hb1] by done.
  clearbody s1. case_decide.
  { specialize (IH s1). destruct (change_loop K rest s1);
      destruct IH as (? & ?); split; congruence. }
  pose proof (others_loop_config K (brid t) (ss_tuples t) s1) as Hcfg.
  destruct (others_loop K (brid t) (ss_tuples t) s1) as [s2|e s2].
  - specialize (IH s2). destruct (change_loop K rest s2);
      destruct Hcfg as (? & ? & _), IH as (? & ?); split; congruence.
  - destruct Hcfg as (? & ? & _). split; congruence.
Qed.

Lemma dispatch_config s ev :
  tracker_filter (state_of (dispatch s ev)) = tracker_filter s ∧
  branch_key (state_of (dispatch s ev)) = branch_key s.
Proof.
  destruct ev as [id builder_name sourcestamps | id | change];
    cbn [dispatch].
  - unfold on_new_buildrequest.
    destruct (match_loop _ _ _ _) as [[|m ms]|]; try done.
    by destruct (ss_tuples_of _ _).
  - unfold on_complete_buildrequest.
    destruct (get id (br_by_id s)) as [t|]; [|done].
    set (s1 := with_by_id s _).
    pose proof (complete_loop_config (brid t) (ss_tuples t) s1) as Hcfg.
    destruct (complete_loop _ _ s1); cbn [state_of];
      destruct Hcfg as (-> & -> & _); done.
  - unfold on_change. destruct (ss_tuple_of _ _) as [K|e]; [|done].
    destruct (get K (br_by_ss s)) as [b|]; [|done].
    set (s1 := with_by_ss s _).
    pose proof (change_loop_config K (values b) s1) as Hcfg.
    destruct (change_loop _ _ s1); cbn [state_of];
      destruct Hcfg as (-> & ->); done.
Qed.

Lemma run_config s evs :
  tracker_filter (run s evs) = tracker_filter s ∧
  branch_key (run s evs) = branch_key s.
Proof.
  unfold run. revert s. induction evs as [|ev rest IH]; intros s; [done|].
  cbn [fold_left]. destruct (IH (state_of (dispatch s ev))) as [-> ->].
  apply dispatch_config.
Qed.

(** The tuple of a stamp, spelled out. *)
Lemma ss_tuple_of_Ok bk ss key :
  bk ss = Ok key →
  ss_tuple_of bk ss = Ok (project ss, codebase ss, repository ss, key).
Proof. intros H. unfold ss_tuple_of. by rewrite H. Qed.

Lemma ss_tuple_of_inv bk ss k :
  ss_tuple_of bk ss = Ok k →
  ∃ key, bk ss = Ok key ∧ k = (project ss, codebase ss, repository ss, key).
Proof.
  unfold ss_tuple_of. destruct (bk ss) as [key|e]; [|done].
  intros [= <-]. by exists key.
Qed.


Lemma ss_ok_register t tuples by_ss :
  ss_ok by_ss → ss_ok (register t tuples by_ss).
Proof.
  revert by_ss. induction tuples as [|k0 rest IH]; intros by_ss Hok;
    cbn [register]; [done|].
  apply IH. destruct Hok as [Hwf Hb]. split; [by apply wf_set|].
  intros k b. rewrite get_set. case_decide; [|apply Hb].
  intros [= <-]. split.
  - apply wf_set. destruct (get k0 by_ss) as [b0|] eqn:E0; simpl.
    + by apply (Hb k0).
    + apply wf_empty.
  - intros Heq. pose proof (get_set_eq (brid t) t
      (default empty (get k0 by_ss))) as Hg.
    rewrite Heq in Hg. done.
Qed.

Lemma on_new_consistent s id builder_name sourcestamps :
  tracker_inv s → get id (br_by_id s) = None →
  distinct_tuples s builder_name sourcestamps →
  tracker_inv (state_of (on_new_buildrequest s id builder_name sourcestamps)).
Proof.
  intros Hinv Hfresh Hdist. pose proof Hinv as [H1 H2 Hd].
  unfold on_new_buildrequest.
  destruct (match_loop _ _ _ _) as [[|m ms]|] eqn:Em; cbn [state_of];
    try done.
  destruct (ss_tuples_of _ _) as [tuples|e] eqn:Et; cbn [state_of]; [|done].
  pose proof (Hdist _ _ Em Et) as Hnd.
  set (t := mkTracked id tuples).
  split.
  - intros k id' t'. unfold bucket_entry. simpl.
    rewrite entry_register, get_set. simpl.
    destruct (decide (id' = id)) as [-> | Hne].
    + destruct (decide (k ∈ tuples)) as [Hk | Hk].
      * rewrite decide_True by done. split; [intros [= <-]; by split|].
        by intros [? _].
      * rewrite decide_False by tauto. split.
        -- intros E. apply H1 in E as [E _]. congruence.
        -- intros [[= <-] Hin]. done.
    + rewrite decide_False by tauto. apply H1.
  - pose proof (ss_ok_register t tuples _ (tracker_inv_ss_ok _ Hinv))
      as [_ Hb].
    intros k b Hk. by apply (Hb k b).
  - pose proof (ss_ok_register t tuples _ (tracker_inv_ss_ok _ Hinv))
      as [Hwf Hb].
    split; simpl.
    + apply wf_set, Hd.
    + done.
    + intros k b Hk. by apply (Hb k b).
    + intros id' t'. rewrite get_set. case_decide; [by intros [= <-]; subst|].
      apply (brid_ok _ Hd).
    + intros id' t'. rewrite get_set. case_decide; [by intros [= <-]|].
      apply (tuples_set _ Hd).
Qed.

Lemma keys_values_brid b :
  (∀ id t, (id, t) ∈ b → brid t = id) → map brid (values b) = keys b.
Proof.
  induction b as [|[id t] b IH]; intros H; simpl; [done|]. f_equal.
  - apply H. apply list_elem_of_here.
  - apply IH. intros id' t' Hin. apply H. by apply list_elem_of_further.
Qed.

Lemma hit_spec K (by_id : dict Z TrackedBuildRequest) id :
  hit K by_id id = true ↔ ∃ t, get id by_id = Some t ∧ K ∈ ss_tuples t.
Proof.
  unfold hit. destruct (get id by_id) as [t|].
  - rewrite bool_decide_eq_true. split; [by exists t | by intros (? & [= <-] & ?)].
  - split; [done | by intros (? & ? & _)].
Qed.

(** What [on_change] does to consistent indices. *)
Lemma on_change_consistent s change K :
  tracker_inv s → ss_tuple_of (branch_key s) change = Ok K →
  ∃ s' cancelled, on_change s change = Returned s' cancelled ∧
    (∀ id, get id (br_by_id s')
           = if hit K (br_by_id s) id then None else get id (br_by_id s)) ∧
    (∀ k id, bucket_entry s' k id
             = if hit K (br_by_id s) id then None else bucket_entry s k id) ∧
    NoDup cancelled ∧
    (∀ id, id ∈ cancelled ↔ hit K (br_by_id s) id = true) ∧
    tracker_inv s'.
Proof.
  intros Hinv HK. pose proof Hinv as [H1 H2 Hd].
  unfold on_change. rewrite HK.
  destruct (get K (br_by_ss s)) as [b|] eqn:Hb.
  - (* the bucket of K lists the requests that are hit *)
    assert (wf b) as Hwfb by by apply (buckets_wf _ Hd K).
    assert (∀ id t, (id, t) ∈ b →
              get id (br_by_id s) = Some t ∧ K ∈ ss_tuples t ∧ brid t = id)
      as Hbucket.
    { intros id t Hin. apply elem_get in Hin; [|done].
      destruct (H1 K id t) as [Hto _]. unfold bucket_entry, entry in Hto.
      rewrite Hb in Hto. destruct (Hto Hin) as [Hg Hk].
      split; [done|]. split; [done|]. by apply (brid_ok _ Hd). }
    assert (map brid (values b) = keys b) as Hkeys.
    { apply keys_values_brid. intros id t Hin. by apply Hbucket. }
    assert (∀ id, id ∈ keys b ↔ hit K (br_by_id s) id = true) as Hhit.
    { intros id. rewrite hit_spec. rewrite <- get_is_Some. split.
      - intros [t Ht]. exists t. apply get_Some_elem in Ht.
        destruct (Hbucket _ _ Ht) as (? & ? & _). done.
      - intros (t & Hg & Hk). exists t.
        destruct (H1 K id t) as [_ Hfrom]. unfold bucket_entry, entry in Hfrom.
        rewrite Hb in Hfrom. by apply Hfrom. }
    rewrite change_loop_fold.
    + eexists _, _. split; [reflexivity|].
      assert (∀ id, get id (remove_ids (map brid (values b)) (br_by_id s))
                    = if hit K (br_by_id s) id then None
                      else get id (br_by_id s)) as Hg.
      { intros id. rewrite get_remove_ids, Hkeys.
        destruct (hit K (br_by_id s) id) eqn:Eh.
        - rewrite decide_True; [done | by apply Hhit].
        - rewrite decide_False; [done|]. rewrite Hhit. congruence. }
      assert (∀ k id,
                entry (sweep K (values b) (del K (br_by_ss s))) k id
                = if hit K (br_by_id s) id then None
                  else bucket_entry s k id) as He.
      { intros k id. rewrite entry_sweep, entry_del. unfold bucket_entry.
        destruct (hit K (br_by_id s) id) eqn:Eh.
        - apply hit_spec in Eh as (t & Hgt & HKt).
          destruct (decide (k = K)) as [-> | Hne]; [by case_decide|].
          case_decide as Hex; [done|].
          destruct (entry (br_by_ss s) k id) as [t'|] eqn:E; [|done].
          apply H1 in E as [E Hin]. exfalso. apply Hex.
          assert (t' = t) as -> by congruence.
          apply Exists_exists. exists t. split.
          + apply list_elem_of_fmap. exists (id, t).
            split; [done|]. apply get_Some_elem.
            destruct (H1 K id t) as [_ Hfrom].
            unfold bucket_entry, entry in Hfrom. rewrite Hb in Hfrom.
            by apply Hfrom.
          + split; [by apply (brid_ok _ Hd)|]. by split.
        - rewrite decide_False.
          + destruct (decide (k = K)) as [-> | Hne]; [|done].
            destruct (entry (br_by_ss s) K id) as [t'|] eqn:E; [|done].
            apply H1 in E. assert (hit K (br_by_id s) id = true); [|congruence].
            apply hit_spec. by exists t'.
          + intros (t & Hin & Hbr & _)%Exists_exists.
            apply list_elem_of_fmap in Hin as ([id' t'] & -> & Hin). simpl in *.
            destruct (Hbucket _ _ Hin) as (Hgt & HKt & Hid'). subst.
            assert (hit K (br_by_id s) (brid t') = true); [|congruence].
            apply hit_spec. by exists t'. }
      split; [done|]. split; [done|]. split; [done|]. split; [done|].
      apply (inv_restrict s _ (λ id, negb (hit K (br_by_id s) id)));
        [done | | | |].
      * intros id. simpl. rewrite Hg. by destruct (hit _ _ _).
      * intros k id. unfold bucket_entry at 1. simpl. rewrite He.
        by destruct (hit _ _ _).
      * simpl. apply ss_ok_sweep.
        destruct (tracker_inv_ss_ok _ Hinv) as [Hwf Hbs].
        split; [by apply wf_del|]. intros k b'. rewrite get_del.
        case_decide; [done | apply Hbs].
      * simpl. apply wf_remove_ids, Hd.
    + by rewrite Hkeys.
    + intros t Hin. apply list_elem_of_fmap in Hin as ([id t'] & -> & Hin).
      simpl. destruct (Hbucket _ _ Hin) as (Hgt & HKt & Hid). subst id.
      split; [by exists t'|]. split; [done|].
      split; [by apply (tuples_set _ Hd (brid t'))|].
      intros k Hk Hne. rewrite entry_del. rewrite decide_False by done.
      exists t'. apply H1. by split.
  - assert (∀ id, hit K (br_by_id s) id = false) as Hno.
    { intros id. destruct (hit K (br_by_id s) id) eqn:Eh; [|done].
      apply hit_spec in Eh as (t & Hg & Hk).
      destruct (H1 K id t) as [_ Hfrom]. unfold bucket_entry, entry in Hfrom.
      rewrite Hb in Hfrom. by specialize (Hfrom (conj Hg Hk)). }
    exists s, []. split; [done|].
    split; [intros id; by rewrite Hno|].
    split; [intros k id; by rewrite Hno|].
    split; [apply NoDup_nil_2|]. split; [|done].
    intros id. rewrite Hno. split; [by intros ?%elem_of_nil | done].
Qed.

Lemma run_consistent s evs :
  tracker_inv s → admissible s evs → tracker_inv (run s evs).
Proof.
  unfold run. revert s. induction evs as [|ev rest IH]; intros s Hinv Hadm;
    [done|].
  cbn [fold_left]. destruct Hadm as [Hev Hrest]. apply IH; [|done].
  destruct ev as [id builder_name sourcestamps | id | change];
    cbn [dispatch].
  - destruct Hev as [Hfresh Hdist]. by apply on_new_consistent.
  - destruct (on_complete_consistent s id Hinv) as (s' & -> & _ & _ & Hinv').
    done.
  - destruct (ss_tuple_of (branch_key s) change) as [K|e] eqn:HK.
    + destruct (on_change_consistent s change K Hinv HK)
        as (s' & c & -> & _ & _ & _ & _ & Hinv'). done.
    + unfold on_change. by rewrite HK.
Qed.

(** C1, as amended: take any sequence of the three events on a fresh
    tracker in which every new request has an id that is not tracked when
    it arrives and matching stamps with pairwise distinct tuples. In the
    state it leaves, [on_change] for a change whose tuple is
    [K = (project, codebase, repository, branch key)] returns normally;
    every request tracked with [K] among its tuples is gone from the
    id-index and from every bucket; every other tracked request is kept,
    with its entries as they were; nothing else gets tracked; and
    [on_cancel] is called once for each removed id and for no other id. *)
Theorem on_change_removes_exactly fs bk evs change key :
  let s := run (new_tracker fs bk) evs in
  let K := (project change, codebase change, repository change, key) in
  admissible (new_tracker fs bk) evs → bk change = Ok key →
  ∃ s' cancelled, on_change s change = Returned s' cancelled ∧
    (∀ id t, get id (br_by_id s) = Some t → K ∈ ss_tuples t →
       get id (br_by_id s') = None ∧ ∀ k, bucket_entry s' k id = None) ∧
    (∀ id t, get id (br_by_id s) = Some t → K ∉ ss_tuples t →
       get id (br_by_id s') = Some t ∧
       ∀ k, bucket_entry s' k id = bucket_entry s k id) ∧
    (∀ id, get id (br_by_id s) = None →
       get id (br_by_id s') = None ∧ ∀ k, bucket_entry s' k id = None) ∧
    NoDup cancelled ∧
    (∀ id, id ∈ cancelled ↔ ∃ t, get id (br_by_id s) = Some t ∧ K ∈ ss_tuples t) ∧
    I1 s' ∧ I2 s'.
Proof.
  intros s K Hadm Hkey.
  assert (tracker_inv s) as Hinv
    by (apply run_consistent; [apply new_tracker_inv | done]).
  assert (ss_tuple_of (branch_key s) change = Ok K) as HK.
  { destruct (run_config (new_tracker fs bk) evs) as [_ Hb].
    fold s in Hb. rewrite Hb. by apply ss_tuple_of_Ok. }
  destruct (on_change_consistent s change K Hinv HK)
    as (s' & c & Heq & Hg & He & Hnd & Hc & Hinv').
  exists s', c. split; [done|].
  split; [|split; [|split; [|split; [done | split; [|split; apply Hinv']]]]].
  - intros id t Hid Hin.
    assert (hit K (br_by_id s) id = true) as Hh by (apply hit_spec; eauto).
    split; [by rewrite Hg, Hh|]. intros k. by rewrite He, Hh.
  - intros id t Hid Hin.
    assert (hit K (br_by_id s) id = false) as Hh.
    { unfold hit. rewrite Hid. by apply bool_decide_eq_false. }
    split; [by rewrite Hg, Hh|]. intros k. by rewrite He, Hh.
  - intros id Hid.
    assert (hit K (br_by_id s) id = false) as Hh by (unfold hit; by rewrite Hid).
    split; [by rewrite Hg, Hh|]. intros k. rewrite He, Hh.
    apply untracked_no_entry; [apply Hinv | done].
  - intros id. rewrite Hc. apply hit_spec.
Qed.

(** C2, as amended: from a fresh tracker, after any sequence of the three
    events in which every new request has an id that is not tracked when it
    arrives and matching stamps with pairwise distinct tuples, I1 and I2
    hold. *)
Theorem indices_consistent_after_events fs bk evs :
  admissible (new_tracker fs bk) evs →
  I1 (run (new_tracker fs bk) evs) ∧ I2 (run (new_tracker fs bk) evs).
Proof.
  intros Hadm.
  destruct (run_consistent (new_tracker fs bk) evs) as [H1 H2 _];
    [apply new_tracker_inv | done | by split].
Qed.

(** *** The properties on sample data *)

Import Samples.

Lemma events_distinct_admissible : admissible tracker0 events_distinct.
Proof.
  repeat split; try reflexivity;
    intros matched_ss tuples Hm Ht;
    vm_compute in Hm; injection Hm as <-;
    vm_compute in Ht; injection Ht as <-;
    apply (bool_decide_unpack _); vm_compute; exact I.
Defined.

Lemma tracker_events_distinct_inv : tracker_inv (run tracker0 events_distinct).
Proof.
  apply run_consistent; [apply new_tracker_inv | apply events_distinct_admissible].
Defined.

(** A new patch set of the review arrives: requests 1 and 3 are cancelled,
    request 2 stays. *)
Lemma on_change_removes_exactly_witness :
  ∃ s' cancelled,
    on_change (run tracker0 events_distinct) ss_patchset4
    = Returned s' cancelled ∧
    NoDup cancelled ∧ 1 ∈ cancelled ∧ 3 ∈ cancelled ∧ (2 ∉ cancelled) ∧
    get 1 (br_by_id s') = None ∧ get 3 (br_by_id s') = None ∧
    get 2 (br_by_id s') = Some (mkTracked 2 [key_master]) ∧
    bucket_entry s' key_master 1 = None.
Proof.
  destruct (on_change_removes_exactly (tracker_filter tracker0)
              (branch_key tracker0) events_distinct ss_patchset4
              "refs/changes/12/3412" events_distinct_admissible eq_refl)
    as (s' & c & Heq & Hgone & Hkept & _ & Hnd & Hc & _).
  exists s', c.
  assert (key_review ∈ [key_master; key_review]) as Hin1
    by apply list_elem_of_further, list_elem_of_here.
  assert (key_review ∈ [key_review]) as Hin3 by apply list_elem_of_here.
  assert (key_review ∉ [key_master]) as Hin2
    by (intros H%list_elem_of_singleton; discriminate H).
  destruct (Hgone 1 (mkTracked 1 [key_master; key_review]) eq_refl Hin1)
    as [H1 H1'].
  destruct (Hgone 3 (mkTracked 3 [key_review]) eq_refl Hin3) as [H3 _].
  destruct (Hkept 2 (mkTracked 2 [key_master]) eq_refl Hin2) as [H2 _].
  split; [exact Heq|]. split; [exact Hnd|].
  split.
  { apply Hc. exists (mkTracked 1 [key_master; key_review]).
    split; [reflexivity | exact Hin1]. }
  split.
  { apply Hc. exists (mkTracked 3 [key_review]).
    split; [reflexivity | exact Hin3]. }
  split.
  { intros (t & Ht & Hin)%Hc. injection Ht as <-. by apply Hin2. }
  repeat split; [exact H1 | exact H3 | exact H2 | exact (H1' key_master)].
Defined.

Lemma indices_consistent_after_events_witness :
  I1 (run tracker0 events_distinct) ∧ I2 (run tracker0 events_distinct).
Proof.
  exact (indices_consistent_after_events _ _ events_distinct
           events_distinct_admissible).
Defined.

(** C2 as it was stated fails: every new id of [events_duplicate] is fresh,
    the change on master makes [on_change] raise while it removes request 1
    from the bucket of its repeated tuple, and request 2 is left in the
    id-index without the bucket of its tuple. *)
Lemma duplicate_tuple_breaks_indices :
  fresh_ids tracker0 events_duplicate ∧
  br_by_id (run tracker0 events_duplicate) = [(2, mkTracked 2 [key_master])] ∧
  br_by_ss (run tracker0 events_duplicate) = [] ∧
  ¬ (I1 (run tracker0 events_duplicate) ∧ I2 (run tracker0 events_duplicate)).
Proof.
  split; [repeat split; reflexivity|].
  split; [reflexivity|]. split; [reflexivity|].
  intros [H1 _].
  destruct (H1 key_master 2 (mkTracked 2 [key_master])) as [_ H].
  assert (bucket_entry (run tracker0 events_duplicate) key_master 2
          = Some (mkTracked 2 [key_master])) as E.
  { apply H. split; [reflexivity|]. apply list_elem_of_here. }
  vm_compute in E. discriminate E.
Qed.

(** C1 as it was stated fails: request 1 is built from two patch sets of one
    review, which have the same tuple, and request 2 from master; both ids
    are fresh. The change on master makes [on_change] raise while it removes
    request 1 from the bucket of its repeated tuple: no request is
    cancelled, and request 2, which has the tuple of the change, stays in
    the id-index. *)
Lemma duplicate_tuple_blocks_cancellation :
  fresh_ids tracker0 ExtraSamples.events_two_patchsets ∧
  BranchKey._default_branch_key ss_master = Ok "master" ∧
  key_master = (project ss_master, codebase ss_master, repository ss_master,
                "master") ∧
  get 2 (br_by_id (run tracker0 ExtraSamples.events_two_patchsets))
  = Some (mkTracked 2 [key_master]) ∧
  ∃ e s',
    on_change (run tracker0 ExtraSamples.events_two_patchsets) ss_master
    = Raised e s' ∧
    is_key_error e ∧
    get 2 (br_by_id s') = Some (mkTracked 2 [key_master]).
Proof.
  split; [repeat split; reflexivity|].
  split; [reflexivity|]. split; [reflexivity|]. split; [reflexivity|].
  eexists _, _. split; [reflexivity|]. split; [exact I | reflexivity].
Qed.

Lemma on_complete_untracked_noop_witness :
  on_complete_buildrequest (run tracker0 events_distinct) 7
  = Returned (run tracker0 events_distinct) [].
Proof.
  exact (on_complete_untracked_noop (run tracker0 events_distinct) 7 eq_refl).
Defined.

Lemma on_new_buildrequest_tracking_witness :
  on_new_buildrequest tracker0 1 "builder" [ss_master; ss_no_branch]
  = Returned tracker0 [] ∧
  on_new_buildrequest tracker0 1 "other" [ss_master] = Returned tracker0 [] ∧
  ∃ tuples s',
    on_new_buildrequest tracker0 1 "builder" [ss_master; ss_patchset3]
    = Returned s' [] ∧
    get 1 (br_by_id s') = Some (mkTracked 1 tuples) ∧
    bucket_entry s'
      ("proj", "app", "git://host/app", "master") 1
    = Some (mkTracked 1 tuples) ∧
    bucket_entry s'
      ("proj", "lib", "git://host/lib", "refs/changes/12/3412") 1
    = Some (mkTracked 1 tuples).
Proof.
  split; [|split].
  - destruct (on_new_buildrequest_tracking tracker0 1 "builder"
                [ss_master; ss_no_branch]) as (H & _ & _).
    apply H. exists ss_no_branch. split; [|reflexivity].
    apply list_elem_of_further, list_elem_of_here.
  - destruct (on_new_buildrequest_tracking tracker0 1 "other" [ss_master])
      as (_ & H & _).
    apply H. intros ss _. vm_compute. discriminate.
  - destruct (on_new_buildrequest_tracking tracker0 1 "builder"
                [ss_master; ss_patchset3]) as (_ & _ & H).
    destruct H as (tuples & s' & HF & Heq & Hid & _ & Hstamps).
    + intros ss [-> | [-> | []%elem_of_nil]%elem_of_cons]%elem_of_cons;
        discriminate.
    + exists ss_master. split; [apply list_elem_of_here | reflexivity].
    + intros ss Hb. simpl. unfold BranchKey._default_branch_key.
      destruct (branch ss); [eauto | done].
    + exists tuples, s'. split; [exact Heq|]. split; [exact Hid|]. split.
      * destruct (Hstamps ss_master) as (key & Hkey & He);
          [apply list_elem_of_here | reflexivity |].
        injection Hkey as <-. exact He.
      * destruct (Hstamps ss_patchset3) as (key & Hkey & He);
          [apply list_elem_of_further, list_elem_of_here | reflexivity |].
        injection Hkey as <-. exact He.
Defined.

Lemma missing_bucket_raises_witness :
  (∃ e s', on_complete_buildrequest tracker_no_bucket 1 = Raised e s' ∧
           is_key_error e) ∧
  (∃ e s', on_change tracker_no_bucket ss_master = Raised e s' ∧
           is_key_error e).
Proof.
  destruct (missing_bucket_raises tracker_no_bucket) as [Hc Hch]. split.
  - apply (Hc 1 (mkTracked 1 [key_master; key_review]) key_review);
      [reflexivity | | reflexivity].
    apply list_elem_of_further, list_elem_of_here.
  - apply (Hch ss_master key_master
             [(1, mkTracked 1 [key_master; key_review])]
             (mkTracked 1 [key_master; key_review]) key_review);
      [reflexivity | reflexivity | apply list_elem_of_here
      | apply list_elem_of_here
      | apply list_elem_of_further, list_elem_of_here
      | discriminate | reflexivity].
Defined.

End TrackerFacts.

(** ** The canceller service *)

Module CancellerFacts.
Import Dict DictFacts Tracker TrackerAux TrackerFacts Canceller CancellerAux.

Implicit Types (s : OldBuildrequestTracker) (id : Z).

Lemma default_branch_key_total :
  total_on_branches BranchKey._default_branch_key.
Proof.
  intros ss Hb. unfold BranchKey._default_branch_key.
  destruct (branch ss); [eauto | done].
Qed.

Lemma match_loop_branches fs builder_name sourcestamps acc matched_ss :
  match_loop fs builder_name sourcestamps acc = Some matched_ss →
  (∀ ss, ss ∈ acc → branch ss ≠ None) →
  ∀ ss, ss ∈ matched_ss → branch ss ≠ None.
Proof.
  revert acc. induction sourcestamps as [|ss0 rest IH]; intros acc; simpl.
  - intros [= <-]. done.
  - destruct (branch ss0) eqn:E0; [|done].
    destruct (is_matched fs builder_name ss0); intros Hm Hacc; eapply IH;
      try done.
    intros ss [? | ->%list_elem_of_singleton]%elem_of_app; [by apply Hacc|].
    by rewrite E0.
Qed.

Lemma on_new_cases s id builder_name sourcestamps :
  total_on_branches (branch_key s) →
  (ignored (tracker_filter s) builder_name sourcestamps ∧
   on_new_buildrequest s id builder_name sourcestamps = Returned s []) ∨
  (∃ tuples,
     on_new_buildrequest s id builder_name sourcestamps
     = Returned
         (mkTracker (tracker_filter s) (branch_key s)
            (set id (mkTracked id tuples) (br_by_id s))
            (register (mkTracked id tuples) tuples (br_by_ss s))) []).
Proof.
  intros Hbk. unfold on_new_buildrequest, ignored.
  destruct (match_loop _ _ _ _) as [[|m ms]|] eqn:Em; [left | right | left];
    try by (split; [tauto | done]).
  destruct (ss_tuples_of_total (branch_key s) (m :: ms)) as [tuples ->];
    [|by exists tuples].
  intros ss Hin. apply Hbk.
  eapply match_loop_branches; [exact Em | | exact Hin].
  by intros ? ?%elem_of_nil.
Qed.

Lemma on_new_ignored s id builder_name sourcestamps :
  ignored (tracker_filter s) builder_name sourcestamps →
  on_new_buildrequest s id builder_name sourcestamps = Returned s [].
Proof. unfold on_new_buildrequest. by intros [-> | ->]. Qed.

Section service_facts.
Variable builder_name_of : Z → string.
Variable sourcestamps_of : Z → list SourceStamp.

Local Abbreviation seed_loop :=
  (Canceller.seed_loop builder_name_of sourcestamps_of).
Local Abbreviation reconfigService :=
  (Canceller.reconfigService builder_name_of sourcestamps_of).

Local Abbreviation ignored_breq :=
  (CancellerAux.ignored_breq builder_name_of sourcestamps_of).

Lemma is_buildrequest_tracked_spec s id :
  is_buildrequest_tracked s id = true ↔ tracked s id.
Proof. unfold is_buildrequest_tracked. apply bool_decide_eq_true. Qed.

(** What the seeding loop of [reconfigService] does. *)
Lemma seed_loop_spec running s :
  total_on_branches (branch_key s) →
  ∃ s', seed_loop running s = Finished s' ∧
    tracker_filter s' = tracker_filter s ∧ branch_key s' = branch_key s ∧
    (∀ id t, get id (br_by_id s) = Some t →
       get id (br_by_id s') = Some t ∧
       ∀ k, bucket_entry s' k id = bucket_entry s k id) ∧
    (∀ id, tracked s' id →
       tracked s id ∨ id ∈ map buildrequestid running) ∧
    (∀ breq, breq ∈ running →
       tracked s' (buildrequestid breq) ∨ ignored_breq (tracker_filter s) breq).
Proof.
  revert s. induction running as [|breq rest IH]; intros s Hbk.
  - exists s. split; [done|]. split; [done|]. split; [done|].
    split; [done|]. split; [by left|]. by intros ? ?%elem_of_nil.
  - cbn [Canceller.seed_loop].
    destruct (is_buildrequest_tracked s (buildrequestid breq)) eqn:Et.
    + apply is_buildrequest_tracked_spec in Et.
      destruct (IH s Hbk) as (s' & -> & Hf & Hb & Hkeep & Hnew & Hall).
      exists s'. split; [done|]. split; [done|]. split; [done|].
      split; [done|]. split.
      * intros id Hid. destruct (Hnew id Hid) as [? | ?]; [by left|].
        right. by apply list_elem_of_further.
      * intros breq' [-> | Hin]%elem_of_cons; [|by apply Hall].
        left. destruct Et as [t Ht]. exists t. by apply Hkeep.
    + assert (get (buildrequestid breq) (br_by_id s) = None) as Hfresh.
      { destruct (get _ (br_by_id s)) eqn:E; [|done].
        assert (is_buildrequest_tracked s (buildrequestid breq) = true);
          [|congruence].
        apply is_buildrequest_tracked_spec. by eexists. }
      unfold tracker_on_buildrequest_new.
      destruct (on_new_cases s (buildrequestid breq)
                  (builder_name_of (builderid breq))
                  (sourcestamps_of (buildsetid breq)) Hbk)
        as [[Hign ->] | [tuples ->]].
      * destruct (IH s Hbk) as (s' & -> & Hf & Hb & Hkeep & Hnew & Hall).
        exists s'. split; [done|]. split; [done|]. split; [done|].
        split; [done|]. split.
        -- intros id Hid. destruct (Hnew id Hid) as [? | ?]; [by left|].
           right. by apply list_elem_of_further.
        -- intros breq' [-> | Hin]%elem_of_cons; [by right | by apply Hall].
      * set (s1 := mkTracker _ _ _ _).
        destruct (IH s1 Hbk) as (s' & -> & Hf & Hb & Hkeep & Hnew & Hall).
        exists s'. split; [done|]. split; [done|]. split; [done|]. split.
        { intros id t Hid.
          assert (id ≠ buildrequestid breq) as Hne by congruence.
          destruct (Hkeep id t) as [Hg He].
          { simpl. by rewrite get_set_ne. }
          split; [done|]. intros k. rewrite He. unfold bucket_entry. simpl.
          rewrite entry_register. rewrite decide_False; [done|].
          simpl. tauto. }
        split.
        { intros id Hid. destruct (Hnew id Hid) as [Ht | ?].
          - unfold tracked in Ht. simpl in Ht. rewrite get_set in Ht.
            case_decide; [|by left]. subst. right. apply list_elem_of_here.
          - right. by apply list_elem_of_further. }
        intros breq' [-> | Hin]%elem_of_cons; [|by apply Hall].
        left. eexists. apply Hkeep. simpl. apply get_set_eq.
Qed.

Lemma seed_loop_fixed running s :
  (∀ breq, breq ∈ running →
     tracked s (buildrequestid breq) ∨ ignored_breq (tracker_filter s) breq) →
  seed_loop running s = Finished s.
Proof.
  induction running as [|breq rest IH]; intros Hall; [done|].
  cbn [Canceller.seed_loop].
  assert (seed_loop rest s = Finished s) as Hrest.
  { apply IH. intros breq' Hin. apply Hall. by apply list_elem_of_further. }
  destruct (is_buildrequest_tracked s (buildrequestid breq)) eqn:Et; [done|].
  destruct (Hall breq) as [Ht | Hign]; [apply list_elem_of_here | |].
  - apply is_buildrequest_tracked_spec in Ht. congruence.
  - unfold tracker_on_buildrequest_new. by rewrite on_new_ignored.
Qed.

(** What one call of [reconfigService] does when no completion is
    queued. *)
Lemma reconfigService_spec c filters bk running :
  _completed_buildrequests_while_reconfiguring c = [] →
  total_on_branches (default BranchKey._default_branch_key bk) →
  ∃ s1,
    reconfigService c filters bk running
    = ServiceReturned (mkCanceller (Some s1) false []) [] ∧
    tracker_filter s1 = filter_tuples_to_filter_set_object filters ∧
    branch_key s1 = default BranchKey._default_branch_key bk ∧
    (∀ s id t, _build_tracker c = Some s → get id (br_by_id s) = Some t →
       get id (br_by_id s1) = Some t ∧
       ∀ k, bucket_entry s1 k id = bucket_entry s k id) ∧
    (∀ id, tracked s1 id →
       (∃ s, _build_tracker c = Some s ∧ tracked s id) ∨
       id ∈ map buildrequestid running) ∧
    (∀ breq, breq ∈ running →
       tracked s1 (buildrequestid breq) ∨
       ignored_breq (tracker_filter s1) breq).
Proof.
  intros Hq Hbk. unfold Canceller.reconfigService. rewrite Hq.
  set (bk' := default BranchKey._default_branch_key bk) in *.
  set (fso := filter_tuples_to_filter_set_object filters).
  set (s0 := match _build_tracker c with
             | Some s => reconfig s fso bk'
             | None => new_tracker fso bk'
             end).
  assert (tracker_filter s0 = fso ∧ branch_key s0 = bk') as [Hf0 Hb0].
  { subst s0. by destruct (_build_tracker c). }
  destruct (seed_loop_spec running s0)
    as (s1 & -> & Hf & Hb & Hkeep & Hnew & Hall).
  { by rewrite Hb0. }
  cbn [replay_loop]. exists s1. split; [reflexivity|].
  split; [congruence|]. split; [congruence|]. split; [|split].
  - intros s id t Hc Hid. subst s0. rewrite Hc in *. by apply Hkeep.
  - intros id Hid. destruct (Hnew id Hid) as [Ht | ?]; [left | by right].
    subst s0. destruct (_build_tracker c) as [s|]; [by exists s|].
    by destruct Ht.
  - intros breq Hin. rewrite Hf. by apply Hall.
Qed.

(** C9: reconfiguring a canceller that has no completion queued returns;
    every request that was tracked keeps its record and its entries of the
    key index; a request is tracked afterwards only if it was tracked
    before or is one of the incomplete requests; reconfiguring again with
    the same filters and branch key changes nothing when the incomplete
    requests are the same, and keeps every tracked request as it is
    whatever the incomplete requests are. The branch-key function is taken
    to give a key for every stamp that has a branch, as the default one
    does. *)
Theorem reconfigService_idempotent c filters bk running :
  _completed_buildrequests_while_reconfiguring c = [] →
  total_on_branches (default BranchKey._default_branch_key bk) →
  ∃ c1 s1,
    reconfigService c filters bk running = ServiceReturned c1 [] ∧
    _build_tracker c1 = Some s1 ∧
    (∀ s id t, _build_tracker c = Some s → get id (br_by_id s) = Some t →
       get id (br_by_id s1) = Some t ∧
       ∀ k, bucket_entry s1 k id = bucket_entry s k id) ∧
    (∀ id, tracked s1 id →
       (∃ s, _build_tracker c = Some s ∧ tracked s id) ∨
       id ∈ map buildrequestid running) ∧
    reconfigService c1 filters bk running = ServiceReturned c1 [] ∧
    (∀ running', ∃ c2 s2,
       reconfigService c1 filters bk running' = ServiceReturned c2 [] ∧
       _build_tracker c2 = Some s2 ∧
       ∀ id t, get id (br_by_id s1) = Some t →
         get id (br_by_id s2) = Some t ∧
         ∀ k, bucket_entry s2 k id = bucket_entry s1 k id).
Proof.
  intros Hq Hbk.
  destruct (reconfigService_spec c filters bk running Hq Hbk)
    as (s1 & Heq & Hf & Hb & Hkeep & Hnew & Hall).
  eexists _, s1. split; [exact Heq|]. split; [reflexivity|].
  split; [done|]. split; [done|]. split.
  - unfold Canceller.reconfigService.
    cbn [_build_tracker _completed_buildrequests_while_reconfiguring].
    assert (reconfig s1 (filter_tuples_to_filter_set_object filters)
              (default BranchKey._default_branch_key bk) = s1) as ->.
    { unfold reconfig. rewrite <- Hf, <- Hb. by destruct s1. }
    by rewrite seed_loop_fixed.
  - intros running'.
    destruct (reconfigService_spec (mkCanceller (Some s1) false [])
                filters bk running' eq_refl Hbk)
      as (s2 & Heq2 & _ & _ & Hkeep2 & _).
    eexists _, s2. split; [exact Heq2|]. split; [reflexivity|].
    intros id t Hid. by apply (Hkeep2 s1).
Qed.

End service_facts.

(** A canceller that has just been configured, and two incomplete
    requests of which the second has a stamp without a branch. *)
Lemma reconfigService_idempotent_witness :
  ∃ c1,
    reconfigService CancellerSamples.builder_name_of
      CancellerSamples.sourcestamps_of checkConfig
      CancellerSamples.filters None CancellerSamples.running
    = ServiceReturned c1 [] ∧
    reconfigService CancellerSamples.builder_name_of
      CancellerSamples.sourcestamps_of c1
      CancellerSamples.filters None CancellerSamples.running
    = ServiceReturned c1 [].
Proof.
  destruct (reconfigService_idempotent CancellerSamples.builder_name_of
              CancellerSamples.sourcestamps_of checkConfig
              CancellerSamples.filters None CancellerSamples.running
              eq_refl default_branch_key_total)
    as (c1 & s1 & H1 & _ & _ & _ & H2 & _).
  exists c1. split; [exact H1 | exact H2].
Defined.

End CancellerFacts.

(** ** The periodic scheduler *)

Module PeriodicFacts.
Import Periodic.

Lemma tick_scheduled s c due :
  phase_of s = Scheduled due →
  let now := Z.max due (clock s) in
  tick s c
  = mkScheduler (interval s) (Scheduled (now + interval s)) (Some now)
      (now + Z.max 0 (duration c)) (attempts s ++ [now])
      (if fails c then S (logged_errors s) else logged_errors s).
Proof. intros Hp. unfold tick, fire, settle. rewrite Hp. reflexivity. Qed.

Lemma run_fire_times calls s due :
  phase_of s = Scheduled due →
  attempts (run calls s)
  = attempts s ++ fire_times (interval s) (Z.max due (clock s)) calls.
Proof.
  unfold run. revert s due.
  induction calls as [|c rest IH]; intros s due Hp; cbn [fold_left fire_times].
  - by rewrite app_nil_r.
  - rewrite (tick_scheduled s c due Hp). cbv zeta.
    erewrite IH by reflexivity. cbn [attempts interval clock].
    rewrite <- app_assoc. cbn [app]. do 3 f_equal. lia.
Qed.

Lemma checkpoints_fire_times interval now calls :
  checkpoints interval now calls = fire_times interval now calls.
Proof.
  unfold checkpoints, activate.
  erewrite run_fire_times by reflexivity.
  cbn [attempts Periodic.interval clock app]. by rewrite Z.max_id.
Qed.

Lemma fire_times_gap interval t calls n c c' :
  fire_times interval t calls !! n = Some c →
  fire_times interval t calls !! S n = Some c' →
  ∃ call, calls !! n = Some call ∧
    c' - c = Z.max interval (Z.max 0 (duration call)).
Proof.
  revert t calls. induction n as [|n IH]; intros t calls.
  - destruct calls as [|c0 [|c1 rest]]; cbn; try done.
    intros [= <-] [= <-]. exists c0. split; [done | lia].
  - destruct calls as [|c0 rest]; [done|]. cbn [fire_times].
    rewrite !lookup_cons. apply IH.
Qed.

(** C5, as amended: between two successive checkpoints there is the
    interval or, when the build-start call of the tick took longer, the
    duration of that call, whether the call failed or not; so the
    checkpoints are exactly one interval apart after every call that
    settles within the interval, and a slow call delays the next attempt
    only. *)
Theorem cadence_between_checkpoints interval now calls n c c' :
  checkpoints interval now calls !! n = Some c →
  checkpoints interval now calls !! S n = Some c' →
  ∃ call, calls !! n = Some call ∧
    c' - c = Z.max interval (Z.max 0 (duration call)) ∧
    (duration call ≤ interval → 0 ≤ interval → c' - c = interval).
Proof.
  rewrite checkpoints_fire_times. intros Hn HSn.
  destruct (fire_times_gap _ _ _ _ _ _ Hn HSn) as (call & Hcall & Hgap).
  exists call. split; [done|]. split; [done | lia].
Qed.

(** The run of [test_iterations_simple]: an interval of 13 seconds and
    calls that settle at once, of which the second fails. *)
Lemma cadence_between_checkpoints_witness :
  checkpoints 13 0 [mkCall 0 false; mkCall 0 true; mkCall 0 false] = [0; 13; 26] ∧
  ∃ call, [mkCall 0 false; mkCall 0 true; mkCall 0 false] !! 1%nat = Some call ∧
    26 - 13 = Z.max 13 (Z.max 0 (duration call)) ∧
    (duration call ≤ 13 → 0 ≤ 13 → 26 - 13 = 13).
Proof.
  split; [reflexivity|].
  exact (cadence_between_checkpoints 13 0
           [mkCall 0 false; mkCall 0 true; mkCall 0 false] 1 13 26
           eq_refl eq_refl).
Defined.

(** C5 as it was stated fails on the run of [test_iterations_long]: with
    an interval of 10 seconds and a first call that takes 15 seconds the
    checkpoints are 0, 15, 25 and 35, and the first two are not 10 seconds
    apart. *)
Lemma slow_start_breaks_exact_cadence :
  checkpoints 10 0 [mkCall 15 false; mkCall 0 false; mkCall 0 false;
                    mkCall 0 false] = [0; 15; 25; 35] ∧
  ¬ exact_cadence 10 0 [mkCall 15 false; mkCall 0 false; mkCall 0 false;
                        mkCall 0 false].
Proof.
  split; [reflexivity|]. intros H.
  specialize (H 0%nat 0 15 eq_refl eq_refl). discriminate H.
Qed.

(** The run of [test_iterations_stop_while_starting_build]: the scheduler
    is deactivated while its first call, of 6 seconds, is in flight. *)
Example stop_while_starting :
  let s := deactivate (fire (mkCall 6 false) (activate 13 0 None)) in
  phase_of s = Stopped ∧ clock s = 6 ∧ checkpoint s = Some 0 ∧
  attempts (run [mkCall 0 false; mkCall 0 false] s) = [0].
Proof. repeat split. Qed.

(** The run of [test_iterations_with_initial_state]: the stored checkpoint
    is 7 seconds old. *)
Example with_initial_state :
  attempts (run [mkCall 0 false; mkCall 0 false] (activate 13 0 (Some (-7))))
  = [6; 19].
Proof. reflexivity. Qed.

End PeriodicFacts.

(** ** The calendar scheduler *)

Module NightlyFacts.
Import Nightly.

Lemma scan_minutes_sound spec fuel t t0 :
  scan_minutes spec fuel t = Some t0 → time_ok spec t0 = true.
Proof.
  revert t. induction fuel as [|fuel IH]; intros t; simpl; [done|].
  destruct (1440 <=? t); [done|].
  destruct (time_ok spec t) eqn:E; [by intros [= <-] | apply IH].
Qed.

Lemma scan_minutes_finds spec fuel t t0 :
  t ≤ t0 < 1440 → time_ok spec t0 = true →
  (∀ u, t ≤ u < t0 → time_ok spec u = false) →
  (Z.to_nat (t0 - t) < fuel)%nat →
  scan_minutes spec fuel t = Some t0.
Proof.
  revert t. induction fuel as [|fuel IH]; intros t Ht Hok Hno Hfuel; [lia|].
  simpl. destruct (Z.leb_spec 1440 t); [lia|].
  destruct (decide (t = t0)) as [-> | Hne]; [by rewrite Hok|].
  rewrite Hno by lia. apply IH; [lia | done | | lia].
  intros u Hu. apply Hno. lia.
Qed.

Lemma scan_minutes_none spec fuel t :
  (∀ u, t ≤ u < 1440 → time_ok spec u = false) →
  scan_minutes spec fuel t = None.
Proof.
  revert t. induction fuel as [|fuel IH]; intros t Hno; [done|].
  simpl. destruct (Z.leb_spec 1440 t); [done|].
  rewrite Hno by lia. apply IH. intros u Hu. apply Hno. lia.
Qed.

Lemma scan_days_sound spec fuel d from r :
  scan_days spec fuel d from = Some r →
  ∃ t, time_ok spec t = true ∧ hh r = t / 60 ∧ mm r = t mod 60 ∧ ss r = 0.
Proof.
  revert d from. induction fuel as [|fuel IH]; intros d from;
    cbn [scan_days]; [done|].
  destruct (day_ok spec d).
  - destruct (scan_minutes spec 1440 from) as [t|] eqn:E; [|apply IH].
    intros [= <-]. exists t. split; [|done]. by eapply scan_minutes_sound.
  - apply IH.
Qed.

Lemma time_ok_hourly t : time_ok hourly t = (t mod 60 =? 0).
Proof. reflexivity. Qed.

Lemma scan_days_step spec fuel d from :
  scan_days spec (S fuel) d from
  = match (if day_ok spec d then scan_minutes spec 1440 from else None) with
    | Some t => Some (mkInstant d (t / 60) (t mod 60) 0)
    | None => scan_days spec fuel (next_day d) 0
    end.
Proof. reflexivity. Qed.

Lemma day_ok_hourly d : day_ok hourly d = true.
Proof. reflexivity. Qed.

Lemma horizon_two : ∃ n, horizon = S (S n).
Proof. by exists 2998%nat. Qed.

Lemma hourly_scan_same_day from h :
  h * 60 < from ≤ (h + 1) * 60 → 0 ≤ h < 23 →
  scan_minutes hourly 1440 from = Some ((h + 1) * 60).
Proof.
  intros Hfrom Hh. apply scan_minutes_finds; [lia | | | lia].
  - rewrite time_ok_hourly, Z.mod_mul by lia. done.
  - intros u Hu. rewrite time_ok_hourly. apply Z.eqb_neq. intros Hu0.
    apply Z.mod_divide in Hu0 as [q Hq]; lia.
Qed.

Lemma hourly_scan_last_hour from :
  23 * 60 < from → scan_minutes hourly 1440 from = None.
Proof.
  intros Hfrom. apply scan_minutes_none.
  intros u Hu. rewrite time_ok_hourly. apply Z.eqb_neq. intros Hu0.
  apply Z.mod_divide in Hu0 as [q Hq]; lia.
Qed.

Lemma hourly_scan_midnight : scan_minutes hourly 1440 0 = Some 0.
Proof. apply scan_minutes_finds; [lia | done | lia | lia]. Qed.

(** With no field set the next trigger is the top of the next hour. *)
Lemma hourly_next now l :
  0 ≤ hh l < 24 → 0 ≤ mm l < 60 → 0 ≤ ss l < 60 →
  getNextBuildTime hourly now (Some l)
  = Some (if hh l <? 23 then mkInstant (on l) (hh l + 1) 0 0
          else mkInstant (next_day (on l)) 0 0 0).
Proof.
  intros Hh Hm Hs. unfold getNextBuildTime.
  set (from := (hh l * 3600 + mm l * 60 + ss l + 1 + 59) / 60).
  assert (from = hh l * 60 + mm l + 1) as Hfrom.
  { subst from. symmetry. apply Z.div_unique with (r := ss l); lia. }
  destruct horizon_two as [n ->].
  rewrite scan_days_step, day_ok_hourly.
  destruct (Z.ltb_spec (hh l) 23) as [H23 | H23].
  - rewrite (hourly_scan_same_day from (hh l)) by lia.
    f_equal. f_equal; [apply Z.div_mul | apply Z.mod_mul]; lia.
  - rewrite hourly_scan_last_hour by lia.
    by rewrite scan_days_step, day_ok_hourly, hourly_scan_midnight.
Qed.

(** C6: with the minute unset every trigger is at the top of an hour, and
    with no field set at all it is the top of the next hour; on the inputs
    of the spec the next trigger is the instant that the spec gives. *)
Theorem getNextBuildTime_hourly_default :
  (∀ spec now l r,
     minute spec = None → getNextBuildTime spec now (Some l) = Some r →
     mm r = 0 ∧ ss r = 0) ∧
  (∀ now l,
     0 ≤ hh l < 23 → 0 ≤ mm l < 60 → 0 ≤ ss l < 60 →
     getNextBuildTime hourly now (Some l)
     = Some (mkInstant (on l) (hh l + 1) 0 0)) ∧
  (∀ now,
     getNextBuildTime hourly now (Some (at_time 2011 1 1 3 15 0))
     = Some (at_time 2011 1 1 4 0 0) ∧
     getNextBuildTime (mkSpec (Some [4]) None None None None) now
       (Some (at_time 2011 1 1 3 0 0))
     = Some (at_time 2011 1 1 3 4 0) ∧
     getNextBuildTime (mkSpec None None (Some [10]) None None) now
       (Some (at_time 2011 1 9 3 0 0))
     = Some (at_time 2011 1 10 0 0 0) ∧
     getNextBuildTime (mkSpec None None (Some [10]) None None) now
       (Some (at_time 2011 1 10 3 0 0))
     = Some (at_time 2011 1 10 4 0 0) ∧
     getNextBuildTime (mkSpec None None None None (Some [4; 6])) now
       (Some (at_time 2011 3 30 3 11 0))
     = Some (at_time 2011 4 1 0 0 0)).
Proof.
  split; [|split].
  - intros spec now l r Hmin Hnext. unfold getNextBuildTime in Hnext.
    apply scan_days_sound in Hnext as (t & Hok & _ & Hmm & Hss).
    split; [|done]. rewrite Hmm.
    unfold time_ok, minute_ok in Hok. rewrite Hmin in Hok.
    apply andb_true_iff in Hok as [_ Hok]. by apply Z.eqb_eq.
  - intros now l Hh Hm Hs. rewrite hourly_next by lia.
    destruct (Z.ltb_spec (hh l) 23); [done | lia].
  - intros now. repeat split; vm_compute; reflexivity.
Qed.

Lemma getNextBuildTime_hourly_default_witness :
  getNextBuildTime hourly (at_time 2011 1 1 0 0 0)
    (Some (at_time 2011 1 1 22 59 59))
  = Some (at_time 2011 1 1 23 0 0).
Proof.
  destruct getNextBuildTime_hourly_default as (_ & H & _).
  apply (H (at_time 2011 1 1 0 0 0) (at_time 2011 1 1 22 59 59));
    simpl; lia.
Defined.

(** The rows of [test_timed_NightlyBase.py]. *)
Example rows_hourly now :
  Forall (λ '(last, next), getNextBuildTime hourly now (Some last) = Some next)
    [ (at_time 2011 1 1 3 0 0, at_time 2011 1 1 4 0 0);
      (at_time 2011 1 1 3 15 0, at_time 2011 1 1 4 0 0);
      (at_time 2011 1 1 3 15 1, at_time 2011 1 1 4 0 0);
      (at_time 2011 1 1 3 59 1, at_time 2011 1 1 4 0 0);
      (at_time 2011 1 1 3 59 59, at_time 2011 1 1 4 0 0);
      (at_time 2011 1 1 23 22 22, at_time 2011 1 2 0 0 0);
      (at_time 2011 1 1 23 59 0, at_time 2011 1 2 0 0 0) ].
Proof. repeat constructor. Qed.

Example rows_minutes now :
  Forall (λ '(spec, last, next), getNextBuildTime spec now (Some last) = Some next)
    [ (mkSpec (Some [4]) None None None None,
       at_time 2011 1 1 3 0 0, at_time 2011 1 1 3 4 0);
      (mkSpec (Some [4]) None None None None,
       at_time 2011 1 1 3 15 0, at_time 2011 1 1 4 4 0);
      (mkSpec (Some [4; 34]) None None None None,
       at_time 2011 1 1 3 15 0, at_time 2011 1 1 3 34 0);
      (mkSpec (Some [4; 34]) None None None None,
       at_time 2011 1 1 3 34 0, at_time 2011 1 1 4 4 0);
      (mkSpec (Some [4; 34]) None None None None,
       at_time 2011 1 1 3 59 1, at_time 2011 1 1 4 4 0) ].
Proof. repeat constructor. Qed.

Example rows_hours now :
  Forall (λ '(spec, last, next), getNextBuildTime spec now (Some last) = Some next)
    [ (mkSpec None (Some [4]) None None None,
       at_time 2011 1 1 3 0 0, at_time 2011 1 1 4 0 0);
      (mkSpec None (Some [4]) None None None,
       at_time 2011 1 1 13 0 0, at_time 2011 1 2 4 0 0);
      (mkSpec None (Some [7; 19]) None None None,
       at_time 2011 1 1 7 1 0, at_time 2011 1 1 19 0 0);
      (mkSpec None (Some [7; 19]) None None None,
       at_time 2011 1 1 19 59 0, at_time 2011 1 2 7 0 0);
      (mkSpec (Some [19]) (Some [13]) None None None,
       at_time 2011 1 1 3 11 0, at_time 2011 1 1 13 19 0);
      (mkSpec (Some [19]) (Some [13]) None None None,
       at_time 2011 1 1 13 19 0, at_time 2011 1 2 13 19 0) ].
Proof. repeat constructor. Qed.

Example rows_days now :
  Forall (λ '(spec, last, next), getNextBuildTime spec now (Some last) = Some next)
    [ (mkSpec None None None None (Some [3]),
       at_time 2011 2 27 3 11 0, at_time 2011 3 1 0 0 0);
      (mkSpec None None None None (Some [3]),
       at_time 2011 3 1 1 11 0, at_time 2011 3 1 2 0 0);
      (mkSpec None None None None (Some [4; 6]),
       at_time 2011 5 29 3 11 0, at_time 2011 6 1 0 0 0);
      (mkSpec None None (Some [15]) None (Some [3; 6]),
       at_time 2011 2 12 3 11 0, at_time 2011 3 15 0 0 0);
      (mkSpec None None (Some [10]) None None,
       at_time 2011 1 30 3 0 0, at_time 2011 2 10 0 0 0);
      (mkSpec None None (Some [10]) None None,
       at_time 2011 12 30 11 0 0, at_time 2012 1 10 0 0 0);
      (mkSpec None None (Some [10; 20; 30]) None None,
       at_time 2011 1 29 22 0 0, at_time 2011 1 30 0 0 0);
      (mkSpec (Some [30]) (Some [20]) (Some [15]) None None,
       at_time 2011 1 13 22 19 0, at_time 2011 1 15 20 30 0);
      (mkSpec None None None (Some [1]) None,
       at_time 2011 1 3 22 19 0, at_time 2011 1 4 0 0 0);
      (mkSpec None None None (Some [1]) None,
       at_time 2011 1 4 19 19 0, at_time 2011 1 4 20 0 0);
      (mkSpec None (Some [1]) None (Some [1; 3]) None,
       at_time 2011 1 4 22 19 0, at_time 2011 1 6 1 0 0);
      (mkSpec None (Some [1]) (Some [5]) (Some [1; 4]) None,
       at_time 2011 1 3 22 19 0, at_time 2011 1 4 1 0 0);
      (mkSpec None (Some [1]) (Some [5]) (Some [1; 4]) None,
       at_time 2011 1 4 22 19 0, at_time 2011 1 5 1 0 0);
      (mkSpec None (Some [1]) (Some [5]) (Some [1; 4]) None,
       at_time 2011 1 5 22 19 0, at_time 2011 1 7 1 0 0) ].
Proof. repeat constructor. Qed.

(** No day qualifies: the scan gives up. *)
Example no_february_30 now :
  getNextBuildTime (mkSpec None None (Some [30]) None (Some [2])) now
    (Some (at_time 2011 1 1 0 0 0)) = None.
Proof. vm_compute. reflexivity. Qed.

End NightlyFacts.

(** ** The trigger step *)

Module TriggerFacts.
Import Trigger.

Implicit Types (cfg : config) (ts : triggerables) (evs : list event).

Lemma worst_status_severity a b :
  severity (worst_status a b) = (severity a `max` severity b)%nat.
Proof.
  unfold worst_status. destruct (Nat.ltb_spec (severity a) (severity b)); lia.
Qed.

Lemma worst_status_cases a b : worst_status a b = a ∨ worst_status a b = b.
Proof. unfold worst_status. destruct (_ <? _)%nat; auto. Qed.

Lemma aggregate_fold cfg (outcomes : list (string * result)) acc :
  let r := fold_left (agg_step cfg) outcomes acc in
  (severity acc ≤ severity r)%nat ∧
  (∀ name r', (name, r') ∈ outcomes → important cfg name = true →
     (severity r' ≤ severity r)%nat) ∧
  (r = acc ∨ ∃ name, (name, r) ∈ outcomes ∧ important cfg name = true).
Proof.
  revert acc. induction outcomes as [|[n0 r0] rest IH]; intros acc;
    cbn [fold_left].
  - split; [done|]. split; [by intros ? ? ?%elem_of_nil | by left].
  - destruct (IH (agg_step cfg acc (n0, r0))) as (Hacc & Hall & Hatt).
    assert (severity acc ≤ severity (agg_step cfg acc (n0, r0)))%nat as Hstep.
    { unfold agg_step. destruct (important cfg n0); [|done].
      rewrite worst_status_severity. lia. }
    split; [lia|]. split.
    + intros name r' [[= -> ->] | Hin]%elem_of_cons Himp; [|by eapply Hall].
      assert (severity r0 ≤ severity (agg_step cfg acc (n0, r0)))%nat.
      { unfold agg_step. rewrite Himp, worst_status_severity. lia. }
      lia.
    + destruct Hatt as [-> | (name & Hin & Himp)].
      * unfold agg_step. destruct (important cfg n0) eqn:Himp; [|by left].
        destruct (worst_status_cases acc r0) as [-> | ->]; [by left|].
        right. exists n0. split; [apply list_elem_of_here | done].
      * right. exists name. split; [by apply list_elem_of_further | done].
Qed.

Lemma aggregate_spec cfg (outcomes : list (string * result)) :
  (∀ name r', (name, r') ∈ outcomes → important cfg name = true →
     (severity r' ≤ severity (aggregate cfg outcomes))%nat) ∧
  (aggregate cfg outcomes = SUCCESS ∨
   ∃ name, (name, aggregate cfg outcomes) ∈ outcomes ∧
           important cfg name = true).
Proof.
  destruct (aggregate_fold cfg outcomes SUCCESS) as (_ & H1 & H2).
  split; [exact H1 | exact H2].
Qed.

Lemma filter_ext_in {A} (P Q : A → Prop) `{∀ x, Decision (P x)}
    `{∀ x, Decision (Q x)} (l : list A) :
  (∀ x, x ∈ l → P x ↔ Q x) → filter P l = filter Q l.
Proof.
  induction l as [|x l IH]; intros Hext; [done|].
  assert (filter P l = filter Q l) as Hl.
  { apply IH. intros y Hy. apply Hext. by apply list_elem_of_further. }
  destruct (decide (P x)) as [HP | HP].
  - rewrite !filter_cons_True; [by rewrite Hl | | done].
    apply Hext; [apply list_elem_of_here | done].
  - rewrite !filter_cons_False; [done | | done].
    intros HQ. apply HP. apply Hext; [apply list_elem_of_here | done].
Qed.

Lemma settled_names_settle name st evs :
  settled_names (Settle name st :: evs) = name :: settled_names evs.
Proof. reflexivity. Qed.

Lemma settled_names_interrupt evs :
  settled_names (Interrupt :: evs) = settled_names evs.
Proof. reflexivity. Qed.

Lemma settled_of_settle (P : list string) name st evs :
  settled_of P (Settle name st :: evs)
  = if bool_decide (name ∈ P)
    then (name, outcome_of st) :: settled_of P evs
    else settled_of P evs.
Proof. unfold settled_of. cbn [omap list_omap]. by destruct (bool_decide _). Qed.

Lemma settled_of_interrupt (P : list string) evs :
  settled_of P (Interrupt :: evs) = settled_of P evs.
Proof. reflexivity. Qed.

Lemma settled_of_ext (P P' : list string) evs :
  (∀ name, name ∈ settled_names evs → name ∈ P ↔ name ∈ P') →
  settled_of P evs = settled_of P' evs.
Proof.
  induction evs as [|[name st|] rest IH]; intros Hext; [done | |].
  - rewrite settled_names_settle in Hext. rewrite !settled_of_settle.
    rewrite IH by (intros n Hn; apply Hext; by apply list_elem_of_further).
    assert (name ∈ P ↔ name ∈ P') as Hn by (apply Hext; apply list_elem_of_here).
    destruct (decide (name ∈ P)) as [Hin | Hin].
    + rewrite !bool_decide_eq_true_2; [done | by apply Hn | done].
    + rewrite !bool_decide_eq_false_2; [done | by rewrite <- Hn | done].
  - rewrite !settled_of_interrupt. by apply IH.
Qed.

Lemma settled_of_nil evs : settled_of [] evs = [].
Proof.
  induction evs as [|[name st|] rest IH]; [done | |done].
  rewrite settled_of_settle.
  rewrite bool_decide_eq_false_2; [done | apply not_elem_of_nil].
Qed.

Lemma filter_all {A} (l : list A) : filter (λ _, True) l = l.
Proof.
  induction l as [|x l IH]; [done|].
  rewrite filter_cons_True by done. by rewrite IH.
Qed.

Lemma handle_settle cfg (P : list string) (S : list (string * result))
    (l : list (string * Z)) name st :
  P ≠ [] →
  handle cfg (mkStep P S l (result_when cfg P S)) (Settle name st)
  = if bool_decide (name ∈ P)
    then mkStep (filter (λ n, n ≠ name) P) (S ++ [(name, outcome_of st)]) l
           (result_when cfg (filter (λ n, n ≠ name) P)
              (S ++ [(name, outcome_of st)]))
    else mkStep P S l (result_when cfg P S).
Proof. intros HP. unfold handle. by destruct P. Qed.

(** The step after the events, when none is an interruption and no target
    settles twice. *)
Lemma fold_handle_closed cfg (P : list string) (S : list (string * result))
    (l : list (string * Z)) evs :
  uninterrupted evs → NoDup (settled_names evs) →
  fold_left (handle cfg) evs (mkStep P S l (result_when cfg P S))
  = let P' := filter (λ n, n ∉ settled_names evs) P in
    let S' := S ++ settled_of P evs in
    mkStep P' S' l (result_when cfg P' S').
Proof.
  revert P S. induction evs as [|ev rest IH]; intros P S Hun Hnd; cbv zeta.
  - cbn [fold_left].
    change (settled_of P []) with (@nil (string * result)).
    change (settled_names []) with (@nil string).
    rewrite app_nil_r.
    rewrite (filter_ext_in _ (λ _, True) P).
    + by rewrite filter_all.
    + intros n _. split; [done | intros _; apply not_elem_of_nil].
  - destruct ev as [name st|];
      [|exfalso; apply Hun; apply list_elem_of_here].
    assert (uninterrupted rest) as Hun'.
    { intros Hin. apply Hun. by apply list_elem_of_further. }
    rewrite settled_names_settle in Hnd.
    apply NoDup_cons in Hnd as [Hname Hnd].
    cbn [fold_left].
    destruct (decide (P = [])) as [-> | HP].
    + change (handle cfg (mkStep [] S l (result_when cfg [] S))
                (Settle name st))
        with (mkStep [] S l (result_when cfg [] S)).
      rewrite IH by done. cbv zeta.
      by rewrite !filter_nil, !settled_of_nil.
    + rewrite handle_settle by done.
      rewrite settled_names_settle, settled_of_settle.
      destruct (decide (name ∈ P)) as [Hin | Hin].
      * rewrite !bool_decide_eq_true_2 by done.
        rewrite IH by done. cbv zeta.
        assert (filter (λ n, n ∉ settled_names rest) (filter (λ n, n ≠ name) P)
                = filter (λ n, n ∉ name :: settled_names rest) P) as ->.
        { rewrite list_filter_filter. apply filter_ext_in. intros n _.
          rewrite not_elem_of_cons. tauto. }
        assert ((S ++ [(name, outcome_of st)])
                ++ settled_of (filter (λ n, n ≠ name) P) rest
                = S ++ (name, outcome_of st) :: settled_of P rest) as ->;
          [|done].
        rewrite <- app_assoc. cbn [app]. do 2 f_equal.
        apply settled_of_ext. intros n Hn. rewrite list_elem_of_filter.
        split; [tauto|]. intros HnP. split; [|done]. congruence.
      * rewrite !bool_decide_eq_false_2 by done.
        rewrite IH by done. cbv zeta.
        assert (filter (λ n, n ∉ settled_names rest) P
                = filter (λ n, n ∉ name :: settled_names rest) P) as ->;
          [|done].
        apply filter_ext_in. intros n HnP.
        rewrite not_elem_of_cons. split; [|tauto]. intros ?.
        split; [congruence | done].
Qed.

Lemma elem_of_settled_of (awaited : list string) evs name r :
  (name, r) ∈ settled_of awaited evs ↔
  name ∈ awaited ∧ ∃ st, Settle name st ∈ evs ∧ outcome_of st = r.
Proof.
  unfold settled_of. rewrite list_elem_of_omap. split.
  - intros ([name' st|] & Hin & Heq); [|done].
    case_bool_decide; [|done]. injection Heq as -> <-. eauto.
  - intros (Hin & st & Hev & <-). exists (Settle name st).
    split; [done|]. by rewrite bool_decide_eq_true_2.
Qed.

Lemma elem_of_settled_names evs name :
  name ∈ settled_names evs ↔ ∃ st, Settle name st ∈ evs.
Proof.
  unfold settled_names. rewrite list_elem_of_omap. split.
  - intros ([name' st|] & Hin & [= ->]). eauto.
  - intros [st Hin]. by exists (Settle name st).
Qed.

Lemma trigger_all_links ts names l awaited name brids brid :
  trigger_all ts names = Some (l, awaited) →
  name ∈ names → ts name = Some (Ids brids) → brid ∈ brids →
  (name, brid) ∈ l.
Proof.
  revert l awaited. induction names as [|n0 rest IH]; intros l awaited.
  - by intros _ ?%elem_of_nil.
  - cbn [trigger_all].
    destruct (ts n0) as [[brids0|]|] eqn:E0; [| |done];
      destruct (trigger_all ts rest) as [[l' awaited']|]; try done;
      intros [= <- <-] [-> | Hin]%elem_of_cons Hts Hbrid.
    + rewrite E0 in Hts. injection Hts as ->. apply elem_of_app. left.
      unfold links_of. apply list_elem_of_fmap. by exists brid.
    + apply elem_of_app. right. by eapply IH.
    + congruence.
    + by eapply IH.
Qed.

(** C7: with wait-for-finish, when every target resolves, none of the
    events is an interruption and no target settles twice, the step has no
    result while an awaited target has not settled; once all have settled
    its result is the worst outcome among the important targets, and
    success when they all succeeded, whatever the unimportant targets did;
    and a link is published for every build request of every target,
    important or not. *)
Theorem wait_aggregates_important cfg ts evs l awaited :
  waitForFinish cfg = true →
  trigger_all ts (schedulerNames cfg) = Some (l, awaited) →
  uninterrupted evs → NoDup (settled_names evs) →
  ((∃ name, name ∈ awaited ∧ name ∉ settled_names evs) →
   finished (run cfg ts evs) = None) ∧
  ((∀ name, name ∈ awaited → name ∈ settled_names evs) →
   ∃ r, finished (run cfg ts evs) = Some r ∧
     (∀ name st, name ∈ awaited → Settle name st ∈ evs →
        important cfg name = true →
        (severity (outcome_of st) ≤ severity r)%nat) ∧
     (r = SUCCESS ∨
      ∃ name st, name ∈ awaited ∧ Settle name st ∈ evs ∧
        important cfg name = true ∧ outcome_of st = r) ∧
     ((∀ name st, name ∈ awaited → Settle name st ∈ evs →
         important cfg name = true → outcome_of st = SUCCESS) →
      r = SUCCESS)) ∧
  (∀ name brids brid,
     name ∈ schedulerNames cfg → ts name = Some (Ids brids) → brid ∈ brids →
     (name, brid) ∈ links (run cfg ts evs)).
Proof.
  intros Hwait Htrig Hun Hnd. unfold run, start. rewrite Htrig, Hwait.
  rewrite fold_handle_closed by done. cbv zeta.
  cbn [finished links app]. split; [|split].
  - intros (name & Hin & Hnot).
    assert (name ∈ filter (λ n, n ∉ settled_names evs) awaited) as Hp.
    { apply list_elem_of_filter. by split. }
    destruct (filter _ awaited); [by apply elem_of_nil in Hp | done].
  - intros Hall.
    assert (filter (λ n, n ∉ settled_names evs) awaited = []) as ->.
    { destruct (filter _ awaited) as [|n ns] eqn:E; [done|].
      assert (n ∈ filter (λ n, n ∉ settled_names evs) awaited) as Hn
        by (rewrite E; apply list_elem_of_here).
      apply list_elem_of_filter in Hn as [Hn Hin]. exfalso. by apply Hn, Hall. }
    cbn [result_when]. eexists. split; [reflexivity|].
    destruct (aggregate_spec cfg (settled_of awaited evs)) as [Hle Hatt].
    assert (aggregate cfg (settled_of awaited evs) = SUCCESS ∨
            ∃ name st, name ∈ awaited ∧ Settle name st ∈ evs ∧
              important cfg name = true ∧
              outcome_of st = aggregate cfg (settled_of awaited evs)) as Hatt'.
    { destruct Hatt as [? | (name & Hin & Himp)]; [by left | right].
      apply elem_of_settled_of in Hin as (Haw & st & Hev & Hout).
      by exists name, st. }
    split; [|split; [done|]].
    + intros name st Haw Hev Himp. apply (Hle name); [|done].
      apply elem_of_settled_of. eauto.
    + intros Hsucc. destruct Hatt' as [? | (name & st & Haw & Hev & Himp & Hout)];
        [done|]. rewrite <- Hout. by eapply Hsucc.
  - intros name brids brid Hin Hts Hbrid. by eapply trigger_all_links.
Qed.

(** [a] succeeds and the unimportant [b] fails: the step succeeds, and the
    link of the build request of [b] is published. *)
Lemma wait_aggregates_important_witness :
  finished (run TriggerSamples.wait_a_unimportant_b
              TriggerSamples.fake_triggerables
              TriggerSamples.b_fails_a_succeeds) = Some SUCCESS ∧
  ("b"%string, 22) ∈ links (run TriggerSamples.wait_a_unimportant_b
                              TriggerSamples.fake_triggerables
                              TriggerSamples.b_fails_a_succeeds).
Proof.
  set (evs := TriggerSamples.b_fails_a_succeeds).
  destruct (wait_aggregates_important TriggerSamples.wait_a_unimportant_b
              TriggerSamples.fake_triggerables evs
              [("a"%string, 11); ("b"%string, 22)] ["a"%string; "b"%string]
              eq_refl eq_refl) as (_ & Hdone & Hlinks).
  - intros [H | [H | H%elem_of_nil]%elem_of_cons]%elem_of_cons;
      [discriminate H | discriminate H | exact H].
  - apply (bool_decide_unpack _). vm_compute. exact I.
  - split.
    + destruct Hdone as (r & Hr & _ & _ & Hsucc).
      * change (settled_names evs) with ["b"%string; "a"%string].
        intros name [-> | [-> | H%elem_of_nil]%elem_of_cons]%elem_of_cons;
          [apply list_elem_of_further, list_elem_of_here
          | apply list_elem_of_here | destruct H].
      * rewrite Hr. f_equal. apply Hsucc. intros name st _ Hev Himp.
        apply elem_of_cons in Hev as [[= -> ->] | Hev]; [discriminate Himp|].
        apply list_elem_of_singleton in Hev as [= -> ->]. reflexivity.
    + apply (Hlinks "b"%string [22] 22);
        [apply list_elem_of_further, list_elem_of_here | reflexivity
        | apply list_elem_of_here].
Defined.

(** The rows of [test_waitForFinish_split_failure] and of
    [test_waitForFinish_exception]. *)
Example split_failure :
  finished (run TriggerSamples.wait_a_b TriggerSamples.fake_triggerables
              [Settle "a" (Finished FAILURE); Settle "b" (Finished SUCCESS)])
  = Some FAILURE.
Proof. reflexivity. Qed.

Example wait_exception :
  finished (run TriggerSamples.wait_a_b TriggerSamples.fake_triggerables
              [Settle "a" (Finished SUCCESS); Settle "b" AwaitFailed])
  = Some EXCEPTION.
Proof. reflexivity. Qed.

End TriggerFacts.

(** * Further properties of the canceller *)

(** ** Updates of dictionaries that undo or commute *)

Module DictMore.
Import Dict DictFacts.
Section dict_more.
Context {K V : Type} `{EqDecision K}.
Implicit Types (k : K) (v : V) (d : dict K V).

Lemma del_set_absent k v d : get k d = None → del k (set k v d) = d.
Proof.
  induction d as [|[k0 v0] d IH]; simpl.
  - intros _. by rewrite decide_True.
  - case_decide; [done|]. intros Hk. simpl. rewrite decide_False by done.
    f_equal. auto.
Qed.

Lemma set_get_same k v d : get k d = Some v → set k v d = d.
Proof.
  induction d as [|[k0 v0] d IH]; simpl; [done|].
  case_decide; [by intros [= ->] | intros; f_equal; auto].
Qed.

Lemma set_set_eq k v v' d : set k v (set k v' d) = set k v d.
Proof.
  induction d as [|[k0 v0] d IH]; simpl.
  - by rewrite decide_True.
  - case_decide; simpl.
    + by rewrite decide_True.
    + rewrite decide_False by done. by f_equal.
Qed.

Lemma del_set_ne k k' v d : k ≠ k' → del k (set k' v d) = set k' v (del k d).
Proof.
  intros Hne. induction d as [|[k0 v0] d IH]; simpl.
  - by rewrite decide_False.
  - destruct (decide (k' = k0)) as [-> | Hk'], (decide (k = k0)) as [-> | Hk];
      simpl; try done.
    + rewrite decide_False by done. rewrite decide_True by done. done.
    + rewrite decide_True by done. done.
    + rewrite !decide_False by done. by f_equal.
Qed.

Lemma set_set_ne k k' v v' d :
  k ≠ k' → is_Some (get k d) →
  set k v (set k' v' d) = set k' v' (set k v d).
Proof.
  intros Hne. induction d as [|[k0 v0] d IH]; simpl.
  - by intros [? ?].
  - destruct (decide (k' = k0)) as [-> | Hk'], (decide (k = k0)) as [-> | Hk];
      simpl; try done.
    + rewrite decide_False by done. rewrite decide_True by done. done.
    + intros _. rewrite decide_True by done. rewrite decide_False by done.
      done.
    + intros Hd. rewrite !decide_False by done. f_equal. auto.
Qed.

End dict_more.
End DictMore.

(** ** The filter set *)

Module FilterSetFacts.
Import Dict DictFacts Tracker Canceller ExtraAux.

Lemma add_filter_fold (builders : list string) (f : SourceStampFilter)
    (d : dict string (list SourceStampFilter)) (builder_name : string)
    (props : SourceStamp) :
  existsb (λ g : SourceStampFilter, g props)
    (filters_of
       (fold_left
          (λ d builder, set builder (default [] (get builder d) ++ [f]) d)
          builders d) builder_name)
  = existsb (λ g : SourceStampFilter, g props) (filters_of d builder_name)
    || (bool_decide (builder_name ∈ builders) && f props).
Proof.
  revert d. induction builders as [|b0 rest IH]; intros d; cbn [fold_left].
  - rewrite bool_decide_eq_false_2 by apply not_elem_of_nil.
    by rewrite orb_false_r.
  - rewrite IH. unfold filters_of at 1.
    destruct (decide (builder_name = b0)) as [-> | Hne].
    + rewrite get_set_eq. simpl default. rewrite existsb_app. cbn [existsb].
      fold (filters_of d b0).
      rewrite (bool_decide_eq_true_2 (b0 ∈ b0 :: rest))
        by apply list_elem_of_here.
      destruct (existsb _ (filters_of d b0)), (f props),
        (bool_decide (b0 ∈ rest)); reflexivity.
    + rewrite get_set_ne by done. fold (filters_of d builder_name).
      destruct (decide (builder_name ∈ rest)) as [Hin | Hin].
      * rewrite !bool_decide_eq_true_2;
          [done | by apply list_elem_of_further | done].
      * rewrite !bool_decide_eq_false_2; [done | | done].
        intros [? | ?]%elem_of_cons; done.
Qed.

Lemma is_matched_add builders f fs builder_name props :
  is_matched (add_filter builders f fs) builder_name props
  = is_matched fs builder_name props
    || (bool_decide (builder_name ∈ builders) && f props).
Proof.
  unfold is_matched, add_filter. cbn [_by_builder]. apply add_filter_fold.
Qed.

Lemma is_matched_fold filters fs builder_name props :
  is_matched
    (fold_left (λ filter_set '(builders, ss_filter),
                  add_filter builders ss_filter filter_set) filters fs)
    builder_name props
  = is_matched fs builder_name props
    || matching_filters filters builder_name props.
Proof.
  unfold matching_filters. revert fs.
  induction filters as [|[builders f] rest IH]; intros fs;
    cbn [fold_left existsb].
  - by rewrite orb_false_r.
  - rewrite IH, is_matched_add. by rewrite orb_assoc.
Qed.

(** X1: after [add_filter(builders, filter)] a stamp matches for a builder
    exactly when it matched before, or the builder is one of [builders] and
    the new filter matches the stamp; the filters of the other builders are
    not affected. *)
Theorem is_matched_add_filter builders f fs builder_name props :
  is_matched (add_filter builders f fs) builder_name props
  = is_matched fs builder_name props
    || (bool_decide (builder_name ∈ builders) && f props).
Proof. apply is_matched_add. Qed.

(** X2: for the filter set that [filter_tuples_to_filter_set_object] builds,
    a stamp matches for a builder exactly when some tuple of the configured
    filters names the builder and its filter matches the stamp. *)
Theorem filter_set_object_matches filters builder_name props :
  is_matched (filter_tuples_to_filter_set_object filters) builder_name props
  = matching_filters filters builder_name props.
Proof.
  unfold filter_tuples_to_filter_set_object. by rewrite is_matched_fold.
Qed.

End FilterSetFacts.

(** ** The tracker: removal, round trips and what its methods leave alone *)

Module TrackerMore.
Import Dict DictFacts DictMore Tracker TrackerAux TrackerFacts.
Import CancellerAux CancellerFacts ExtraAux.
Implicit Types (s : OldBuildrequestTracker) (k K : SSKey) (id : Z).
Implicit Types (t : TrackedBuildRequest).
Implicit Types (by_ss : dict SSKey (dict Z TrackedBuildRequest)).

(** *** [register] against the other updates of the key index *)

Lemma get_register_notin t tuples by_ss k :
  k ∉ tuples → get k (register t tuples by_ss) = get k by_ss.
Proof.
  revert by_ss. induction tuples as [|k0 rest IH]; intros by_ss Hk; [done|].
  cbn [register]. rewrite IH; [|by intros ?; apply Hk; right].
  apply get_set_ne. intros ->. apply Hk. by left.
Qed.

Lemma del_register t tuples by_ss k :
  k ∉ tuples → del k (register t tuples by_ss) = register t tuples (del k by_ss).
Proof.
  revert by_ss. induction tuples as [|k0 rest IH]; intros by_ss Hk; [done|].
  assert (k ≠ k0) as Hne by (intros ->; apply Hk; by left).
  cbn [register]. rewrite IH; [|by intros ?; apply Hk; right].
  rewrite del_set_ne by done. by rewrite (get_del_ne k k0) by done.
Qed.

Lemma set_register t tuples by_ss k (b : dict Z TrackedBuildRequest) :
  k ∉ tuples → is_Some (get k by_ss) →
  set k b (register t tuples by_ss) = register t tuples (set k b by_ss).
Proof.
  revert by_ss. induction tuples as [|k0 rest IH]; intros by_ss Hk Hin; [done|].
  assert (k ≠ k0) as Hne by (intros ->; apply Hk; by left).
  cbn [register]. rewrite IH.
  - rewrite set_set_ne by done. by rewrite (get_set_ne k k0) by done.
  - intros ?. apply Hk. by right.
  - by rewrite get_set_ne.
Qed.

(** Removing a request from the buckets in which it has just been put
    gives the key index back, bucket order included. *)
Lemma drop_all_register t tuples by_ss :
  NoDup tuples → ss_ok by_ss →
  (∀ k, k ∈ tuples → entry by_ss k (brid t) = None) →
  drop_all (brid t) tuples (register t tuples by_ss) = by_ss.
Proof.
  intros Hnd [Hwf Hb]. induction Hnd as [|k0 rest Hk0 Hnd IH]; intros Hnew;
    [done|].
  unfold drop_all. cbn [register fold_left].
  rewrite get_register_notin, get_set_eq by done.
  fold (drop_all (brid t) rest).
  assert (entry by_ss k0 (brid t) = None) as Hk by (apply Hnew; by left).
  unfold entry in Hk. unfold drop1.
  destruct (get k0 by_ss) as [b|] eqn:Eb; cbn [from_option Datatypes.id].
  - rewrite del_set_absent by done.
    destruct (Hb k0 b Eb) as [_ Hne].
    destruct b as [|p b]; [done|]. cbn [is_empty].
    rewrite set_register; [|done|by rewrite get_set_eq].
    rewrite set_set_eq, set_get_same by done.
    apply IH. intros k ?. apply Hnew. by right.
  - rewrite del_set_absent by done. cbn [is_empty].
    rewrite del_register by done. rewrite del_set_absent by done.
    apply IH. intros k ?. apply Hnew. by right.
Qed.

(** *** The shape of what the methods return *)

Lemma on_new_shape s id builder_name sourcestamps :
  total_on_branches (branch_key s) →
  (ignored (tracker_filter s) builder_name sourcestamps ∧
   on_new_buildrequest s id builder_name sourcestamps = Returned s []) ∨
  (∃ matched_ss tuples,
     match_loop (tracker_filter s) builder_name sourcestamps []
     = Some matched_ss ∧ matched_ss ≠ [] ∧
     ss_tuples_of (branch_key s) matched_ss = Ok tuples ∧
     on_new_buildrequest s id builder_name sourcestamps
     = Returned
         (mkTracker (tracker_filter s) (branch_key s)
            (set id (mkTracked id tuples) (br_by_id s))
            (register (mkTracked id tuples) tuples (br_by_ss s))) []).
Proof.
  intros Hbk. unfold on_new_buildrequest, ignored.
  destruct (match_loop _ _ _ _) as [[|m ms]|] eqn:Em; [left | right | left];
    try by (split; [tauto | done]).
  destruct (ss_tuples_of_total (branch_key s) (m :: ms)) as [tuples Ht].
  - intros ss Hin. apply Hbk.
    eapply match_loop_branches; [exact Em | | exact Hin].
    by intros ? ?%elem_of_nil.
  - exists (m :: ms), tuples. rewrite Ht. by repeat split.
Qed.

Lemma on_complete_closed s id t :
  tracker_inv s → get id (br_by_id s) = Some t →
  on_complete_buildrequest s id
  = Returned
      (mkTracker (tracker_filter s) (branch_key s) (del id (br_by_id s))
         (drop_all id (ss_tuples t) (br_by_ss s))) [].
Proof.
  intros [H1 H2 Hd] Hid. unfold on_complete_buildrequest. rewrite Hid.
  assert (brid t = id) as -> by by apply (brid_ok _ Hd).
  rewrite complete_loop_fold; [done | by apply (tuples_set _ Hd id) |].
  intros k Hk. cbn. exists t. apply H1. by split.
Qed.

Lemma ss_tuples_of_Err bk matched_ss e :
  ss_tuples_of bk matched_ss = Err e → ∃ ss, ss ∈ matched_ss ∧ bk ss = Err e.
Proof.
  induction matched_ss as [|ss rest IH]; [done|]. cbn [ss_tuples_of].
  unfold ss_tuple_of at 1. destruct (bk ss) as [key|e'] eqn:E.
  - destruct (ss_tuples_of bk rest) as [ks|e'] eqn:Er; [done|].
    intros [= ->]. destruct (IH eq_refl) as (ss' & Hin & Hss').
    exists ss'. split; [by right | done].
  - intros [= ->]. exists ss. split; [by left | done].
Qed.

Lemma dispatch_consistent s ev :
  tracker_inv s → admissible s [ev] → tracker_inv (state_of (dispatch s ev)).
Proof.
  intros Hinv Hadm.
  exact (run_consistent s [ev] Hinv Hadm).
Qed.

Lemma branch_dec (sourcestamps : list SourceStamp) :
  (∀ ss, ss ∈ sourcestamps → branch ss ≠ None) ∨
  (∃ ss, ss ∈ sourcestamps ∧ branch ss = None).
Proof.
  induction sourcestamps as [|ss0 rest [IH | (ss & Hin & Hss)]].
  - left. by intros ? ?%elem_of_nil.
  - destruct (branch ss0) eqn:E.
    + left. intros ss [-> | ?]%elem_of_cons; [congruence | by apply IH].
    + right. exists ss0. split; [by left | done].
  - right. exists ss. split; [by right | done].
Qed.

(** [on_new_buildrequest] goes on to track the request exactly when every
    stamp has a branch and some stamp matches. *)
Lemma wanted_not_ignored fs builder_name sourcestamps :
  wanted fs builder_name sourcestamps ↔ ¬ ignored fs builder_name sourcestamps.
Proof.
  unfold wanted, ignored. split.
  - intros [Hall (ss & Hin & Hm)].
    rewrite (match_loop_all_branches _ _ _ [] Hall). cbn [app].
    intros [? | [= Hnil]]; [done|].
    assert (ss ∈ filter (λ ss, is_matched fs builder_name ss = true)
                   sourcestamps) as Hf by by apply list_elem_of_filter.
    rewrite Hnil in Hf. by apply elem_of_nil in Hf.
  - intros Hni. destruct (branch_dec sourcestamps) as [Hall | Hex].
    + split; [done|].
      rewrite (match_loop_all_branches _ _ _ [] Hall) in Hni. cbn [app] in Hni.
      destruct (filter _ sourcestamps) as [|ss l] eqn:Ef; [tauto|].
      assert (ss ∈ filter (λ ss, is_matched fs builder_name ss = true)
                     sourcestamps) as Hf by (rewrite Ef; by left).
      apply list_elem_of_filter in Hf as [? ?]. by exists ss.
    + exfalso. apply Hni. left. by apply match_loop_no_branch.
Qed.

Lemma reconfig_inv s fs bk : tracker_inv s → tracker_inv (reconfig s fs bk).
Proof.
  intros Hinv. apply (inv_restrict s _ (λ _, true)); [done | done | done | |].
  - exact (tracker_inv_ss_ok s Hinv).
  - exact (by_id_wf _ (inv_data _ Hinv)).
Qed.

Lemma empty_id_index s : tracker_inv s → br_by_id s = [] → br_by_ss s = [].
Proof.
  intros [H1 H2 _] Hid. destruct (br_by_ss s) as [|[k b] rest] eqn:E; [done|].
  exfalso.
  assert (get k (br_by_ss s) = Some b) as Hk.
  { rewrite E. cbn. by rewrite decide_True. }
  destruct b as [|[id t] b]; [by apply (H2 k [] Hk)|].
  assert (bucket_entry s k id = Some t) as He.
  { unfold bucket_entry, entry. rewrite Hk. cbn. by rewrite decide_True. }
  apply H1 in He as [He _]. by rewrite Hid in He.
Qed.

(** *** What the methods do when the invariant holds *)

(** Completion of a tracked request when the invariant holds. *)
Lemma on_complete_tracked_inv s id t :
  tracker_inv s → get id (br_by_id s) = Some t →
  ∃ s', on_complete_buildrequest s id = Returned s' [] ∧
    is_buildrequest_tracked s' id = false ∧
    (∀ k, bucket_entry s' k id = None) ∧
    (∀ id', id' ≠ id →
       get id' (br_by_id s') = get id' (br_by_id s) ∧
       ∀ k, bucket_entry s' k id' = bucket_entry s k id') ∧
    (∀ k, k ∉ ss_tuples t → get k (br_by_ss s') = get k (br_by_ss s)) ∧
    tracker_inv s' ∧
    on_complete_buildrequest s' id = Returned s' [].
Proof.
  intros Hinv Hid.
  destruct (on_complete_consistent s id Hinv) as (s' & Heq & Hg & He & Hinv').
  exists s'. split; [done|].
  rewrite (on_complete_closed s id t Hinv Hid) in Heq.
  split; [|split; [|split; [|split; [|split; [done|]]]]].
  5: { unfold on_complete_buildrequest. by rewrite Hg, decide_True. }
  - unfold is_buildrequest_tracked. apply bool_decide_eq_false_2.
    rewrite Hg, decide_True by done. by intros [? ?].
  - intros k. by rewrite He, decide_True.
  - intros id' Hne. split; [by rewrite Hg, decide_False|].
    intros k. by rewrite He, decide_False.
  - intros k Hk. injection Heq as <-. cbn [br_by_ss].
    by apply get_drop_all_frame.
Qed.

(** The same change twice when the invariant holds. *)
Lemma on_change_twice_inv s change K :
  tracker_inv s → ss_tuple_of (branch_key s) change = Ok K →
  ∃ s' cancelled,
    on_change s change = Returned s' cancelled ∧
    get K (br_by_ss s') = None ∧
    on_change s' change = Returned s' [].
Proof.
  intros Hinv HK.
  destruct (on_change_consistent s change K Hinv HK)
    as (s' & c & Heq & Hg & He & _ & _ & Hinv').
  exists s', c. split; [done|].
  assert (get K (br_by_ss s') = None) as Hgone.
  { destruct (get K (br_by_ss s')) as [b|] eqn:Eb; [|done]. exfalso.
    pose proof Hinv' as [H1' H2' _].
    destruct b as [|[id t] b]; [by apply (H2' K [] Eb)|].
    assert (bucket_entry s' K id = Some t) as Hin.
    { unfold bucket_entry, entry. rewrite Eb. cbn. by rewrite decide_True. }
    apply H1' in Hin as [Hid HKt]. rewrite Hg in Hid.
    destruct (hit K (br_by_id s) id) eqn:Eh; [done|].
    assert (hit K (br_by_id s) id = true); [|congruence].
    apply hit_spec. by exists t. }
  split; [done|].
  pose proof (dispatch_config s (Change change)) as [_ Hb].
  cbn [dispatch] in Hb. rewrite Heq in Hb. cbn [state_of] in Hb.
  unfold on_change. rewrite Hb, HK. by rewrite Hgone.
Qed.

(** No [KeyError] along admissible events when the invariant holds. *)
Lemma only_branch_key_raises_inv s evs :
  tracker_inv s → admissible s evs → raises_only_from_branch_key s evs.
Proof.
  revert s. induction evs as [|ev rest IH]; intros s Hinv Hadm; [done|].
  destruct Hadm as [Hev Hrest]. cbn [raises_only_from_branch_key]. split.
  - destruct ev as [id builder_name sourcestamps | id | change];
      cbn [dispatch].
    + unfold on_new_buildrequest.
      destruct (match_loop _ _ _ _) as [[|m ms]|]; try done.
      destruct (ss_tuples_of _ _) as [tuples|e] eqn:Et; [done|].
      split; [done|]. apply ss_tuples_of_Err in Et as (ss & _ & Hss).
      by exists ss.
    + by destruct (on_complete_consistent s id Hinv) as (s' & -> & _).
    + destruct (ss_tuple_of (branch_key s) change) as [K|e] eqn:HK.
      * by destruct (on_change_consistent s change K Hinv HK)
          as (s' & c & -> & _).
      * unfold on_change. rewrite HK. split; [done|]. exists change.
        unfold ss_tuple_of in HK. destruct (branch_key s change); congruence.
  - apply IH; [|done]. apply dispatch_consistent; [done|]. by split.
Qed.

(** A new request and then a change on one of its tuples, when the
    invariant holds. *)
Lemma new_then_change_inv s id builder_name sourcestamps ss
    change K :
  tracker_inv s → get id (br_by_id s) = None →
  distinct_tuples s builder_name sourcestamps →
  total_on_branches (branch_key s) →
  (∀ ss', ss' ∈ sourcestamps → branch ss' ≠ None) →
  ss ∈ sourcestamps → is_matched (tracker_filter s) builder_name ss = true →
  ss_tuple_of (branch_key s) ss = Ok K →
  ss_tuple_of (branch_key s) change = Ok K →
  ∃ s1 s2 cancelled,
    on_new_buildrequest s id builder_name sourcestamps = Returned s1 [] ∧
    on_change s1 change = Returned s2 cancelled ∧
    id ∈ cancelled ∧ is_buildrequest_tracked s2 id = false ∧
    tracker_inv s2.
Proof.
  intros Hinv Hfresh Hdist Hbk Hall Hin Hm HK HKc.
  pose proof (on_new_consistent s id builder_name sourcestamps Hinv Hfresh
                Hdist) as Hinv1.
  destruct (on_new_shape s id builder_name sourcestamps Hbk)
    as [[Hign _] | (matched_ss & tuples & Hml & _ & Ht & Heq)].
  { exfalso. revert Hign. apply wanted_not_ignored. split; [done|].
    by exists ss. }
  rewrite Heq in Hinv1. cbn [state_of] in Hinv1.
  set (s1 := mkTracker _ _ _ _) in *.
  assert (K ∈ tuples) as HKin.
  { rewrite (match_loop_all_branches _ _ _ [] Hall) in Hml.
    injection Hml as <-. cbn [app] in Ht.
    apply ss_tuples_of_Forall2 in Ht.
    assert (ss ∈ filter (λ ss, is_matched (tracker_filter s) builder_name ss
                               = true) sourcestamps) as Hf
      by by apply list_elem_of_filter.
    clear -Ht Hf HK. induction Ht as [|ss0 k0 l l' H0 Ht IH].
    - by apply elem_of_nil in Hf.
    - apply elem_of_cons in Hf as [-> | Hf]; [|right; by apply IH].
      assert (k0 = K) as -> by congruence. by left. }
  destruct (on_change_consistent s1 change K Hinv1 HKc)
    as (s2 & c & Heq2 & Hg & _ & _ & Hc & Hinv2).
  assert (hit K (br_by_id s1) id = true) as Hhit.
  { apply hit_spec. exists (mkTracked id tuples). split; [|done].
    subst s1. cbn [br_by_id]. apply get_set_eq. }
  exists s1, s2, c. split; [done|]. split; [done|].
  split; [by apply Hc|]. split; [|done].
  unfold is_buildrequest_tracked. apply bool_decide_eq_false_2.
  rewrite Hg, Hhit. by intros [? ?].
Qed.

End TrackerMore.

Module TrackerProperties.
Import Dict DictFacts DictMore Tracker TrackerAux TrackerFacts.
Import CancellerAux CancellerFacts ExtraAux TrackerMore.
Implicit Types (s : OldBuildrequestTracker) (k K : SSKey) (id : Z).
Implicit Types (t : TrackedBuildRequest).

(** X3: take any sequence of events on a fresh tracker in which every new
    request has an id that is not tracked when it arrives and matching
    stamps with pairwise distinct tuples. In the state it leaves,
    [on_complete_buildrequest] of a tracked request returns without
    cancelling anything; the request is then untracked and in no bucket,
    every other request keeps its record and its bucket entries, the buckets
    of the tuples that the request did not have are left as they were, I1
    and I2 hold, and a second completion of the same request changes
    nothing. *)
Theorem on_complete_tracked_removes fs bk evs id t :
  let s := run (new_tracker fs bk) evs in
  admissible (new_tracker fs bk) evs → get id (br_by_id s) = Some t →
  ∃ s', on_complete_buildrequest s id = Returned s' [] ∧
    is_buildrequest_tracked s' id = false ∧
    (∀ k, bucket_entry s' k id = None) ∧
    (∀ id', id' ≠ id →
       get id' (br_by_id s') = get id' (br_by_id s) ∧
       ∀ k, bucket_entry s' k id' = bucket_entry s k id') ∧
    (∀ k, k ∉ ss_tuples t → get k (br_by_ss s') = get k (br_by_ss s)) ∧
    (I1 s' ∧ I2 s') ∧
    on_complete_buildrequest s' id = Returned s' [].
Proof.
  intros s Hadm Hid.
  assert (tracker_inv s) as Hinv
    by (apply run_consistent; [apply new_tracker_inv | done]).
  destruct (on_complete_tracked_inv s id t Hinv Hid)
    as (s' & Heq & Hun & Hno & Hkeep & Hframe & Hinv' & Hagain).
  exists s'. split; [done|]. split; [done|]. split; [done|].
  split; [done|]. split; [done|]. split; [|done]. split; apply Hinv'.
Qed.


(** X4: a new request followed by its completion is a round trip. When the
    indices are consistent, the id is not tracked, the matching stamps have
    distinct tuples and the branch-key function gives a key for every stamp
    with a branch, [on_new_buildrequest] returns, and
    [on_complete_buildrequest] of the same id then gives back the very state
    from which the request was added, order of the buckets included. *)
Theorem on_new_then_complete_restores s id builder_name sourcestamps :
  tracker_inv s → get id (br_by_id s) = None →
  distinct_tuples s builder_name sourcestamps →
  total_on_branches (branch_key s) →
  ∃ s1, on_new_buildrequest s id builder_name sourcestamps = Returned s1 [] ∧
    on_complete_buildrequest s1 id = Returned s [].
Proof.
  intros Hinv Hfresh Hdist Hbk.
  destruct (on_new_shape s id builder_name sourcestamps Hbk)
    as [[_ Heq] | (matched_ss & tuples & Hm & _ & Ht & Heq)].
  - exists s. split; [done|]. unfold on_complete_buildrequest.
    by rewrite Hfresh.
  - eexists. split; [exact Heq|].
    set (t := mkTracked id tuples).
    unfold on_complete_buildrequest. cbn [br_by_id]. rewrite get_set_eq.
    subst t. cbn [brid ss_tuples]. set (t := mkTracked id tuples).
    assert (NoDup tuples) as Hnd by by apply (Hdist matched_ss).
    rewrite complete_loop_fold; [|done|].
    + unfold with_by_ss, with_by_id.
      cbn [br_by_id br_by_ss tracker_filter branch_key].
      rewrite del_set_absent by done.
      assert (drop_all id tuples (register t tuples (br_by_ss s))
              = br_by_ss s) as ->.
      { apply (drop_all_register t tuples (br_by_ss s) Hnd).
        - by apply tracker_inv_ss_ok.
        - intros k _. apply untracked_no_entry; [apply Hinv | done]. }
      by destruct s.
    + intros k Hk. cbn. exists t. rewrite entry_register.
      by rewrite decide_True.
Qed.

(** X5: [on_new_buildrequest] touches the request it is called with only:
    whether it returns or raises, the filter set and the branch-key function
    are the same afterwards, and every other request has the record and the
    bucket entries that it had before. *)
Theorem on_new_buildrequest_frame s id builder_name sourcestamps :
  let s' := state_of (on_new_buildrequest s id builder_name sourcestamps) in
  (tracker_filter s' = tracker_filter s ∧ branch_key s' = branch_key s) ∧
  (∀ id', id' ≠ id → get id' (br_by_id s') = get id' (br_by_id s)) ∧
  (∀ id' k, id' ≠ id → bucket_entry s' k id' = bucket_entry s k id').
Proof.
  cbv zeta. split.
  { apply (dispatch_config s (NewBuildrequest id builder_name sourcestamps)). }
  unfold on_new_buildrequest.
  destruct (match_loop _ _ _ _) as [[|m ms]|]; try done.
  destruct (ss_tuples_of _ _) as [tuples|e]; [|done]. cbn [state_of]. split.
  - intros id' Hne. cbn. by rewrite get_set_ne.
  - intros id' k Hne. unfold bucket_entry. cbn [br_by_ss].
    rewrite entry_register. rewrite decide_False; [done|]. cbn. tauto.
Qed.

(** X6: a change that arrives twice cancels nothing the second time. Take
    any sequence of events on a fresh tracker in which every new request has
    an id that is not tracked when it arrives and matching stamps with
    pairwise distinct tuples, and a change for which the branch-key function
    gives a key. In the state the events leave, [on_change] returns, the
    bucket of the tuple [(project, codebase, repository, branch key)] of the
    change is gone, and [on_change] of the same change in the state it
    leaves returns at once: no request is cancelled and the state stays as
    it is. *)
Theorem on_change_twice fs bk evs change key :
  let s := run (new_tracker fs bk) evs in
  let K := (project change, codebase change, repository change, key) in
  admissible (new_tracker fs bk) evs → bk change = Ok key →
  ∃ s' cancelled,
    on_change s change = Returned s' cancelled ∧
    get K (br_by_ss s') = None ∧
    on_change s' change = Returned s' [].
Proof.
  intros s K Hadm Hkey.
  assert (tracker_inv s) as Hinv
    by (apply run_consistent; [apply new_tracker_inv | done]).
  apply on_change_twice_inv; [done|].
  destruct (run_config (new_tracker fs bk) evs) as [_ Hb].
  fold s in Hb. rewrite Hb. by apply ss_tuple_of_Ok.
Qed.


(** X7: with the default branch key, [on_change] of a change whose branch
    is [None] raises (an attribute of [None] is read) before it touches the
    indices: the state is the one before the call. *)
Theorem on_change_no_branch_raises s change :
  branch_key s = BranchKey._default_branch_key → branch change = None →
  on_change s change = Raised AttributeError s.
Proof.
  intros Hbk Hb. unfold on_change, ss_tuple_of. rewrite Hbk.
  unfold BranchKey._default_branch_key. by rewrite Hb.
Qed.

(** X8: the tracker does not leak buckets. After any sequence of events in
    which new requests come with untracked ids and distinct tuples, if no
    request is tracked any more then the key index is empty as well. *)
Theorem no_requests_no_buckets fs bk evs :
  admissible (new_tracker fs bk) evs →
  br_by_id (run (new_tracker fs bk) evs) = [] →
  br_by_ss (run (new_tracker fs bk) evs) = [].
Proof.
  intros Hadm. apply empty_id_index.
  apply run_consistent; [apply new_tracker_inv | done].
Qed.

(** X9: neither [KeyError] of the tracker is raised along a sequence of
    events on a fresh tracker in which every new request has an id that is
    not tracked when it arrives and matching stamps with pairwise distinct
    tuples: a method raises only when the branch-key function raised, with
    the exception of that function, and the tracker is then in the state it
    had before the event. *)
Theorem only_branch_key_raises fs bk evs :
  admissible (new_tracker fs bk) evs →
  raises_only_from_branch_key (new_tracker fs bk) evs.
Proof.
  intros Hadm. apply only_branch_key_raises_inv; [|done].
  apply new_tracker_inv.
Qed.


(** X10: no method of the tracker changes its configuration. Whatever the
    events and whether their methods return or raise, the filter set and the
    branch-key function after them are those before them; [reconfig] alone
    replaces them. *)
Theorem run_keeps_config s evs :
  tracker_filter (run s evs) = tracker_filter s ∧
  branch_key (run s evs) = branch_key s.
Proof.
  unfold run. revert s. induction evs as [|ev rest IH]; intros s; [done|].
  cbn [fold_left]. destruct (IH (state_of (dispatch s ev))) as [-> ->].
  apply dispatch_config.
Qed.

(** X11: a request that matches is cancelled by the next change on one of
    its branches. Take any sequence of events on a fresh tracker in which
    every new request has an id that is not tracked when it arrives and
    matching stamps with pairwise distinct tuples, and a branch-key function
    that gives a key for every stamp with a branch. In the state the events
    leave, for an untracked id whose stamps all have a branch and have
    distinct tuples, if one stamp matches the filters and a change has the
    project, codebase, repository and branch key of that stamp, then
    [on_new_buildrequest] followed by [on_change] returns, the request is
    among those cancelled, it is no longer tracked, and I1 and I2 hold. *)
Theorem new_request_cancelled_by_change fs bk evs id builder_name
    sourcestamps ss change key :
  let s := run (new_tracker fs bk) evs in
  admissible (new_tracker fs bk) evs →
  get id (br_by_id s) = None →
  distinct_tuples s builder_name sourcestamps →
  total_on_branches bk →
  (∀ ss', ss' ∈ sourcestamps → branch ss' ≠ None) →
  ss ∈ sourcestamps → is_matched fs builder_name ss = true →
  bk ss = Ok key → bk change = Ok key →
  project change = project ss → codebase change = codebase ss →
  repository change = repository ss →
  ∃ s1 s2 cancelled,
    on_new_buildrequest s id builder_name sourcestamps = Returned s1 [] ∧
    on_change s1 change = Returned s2 cancelled ∧
    id ∈ cancelled ∧ is_buildrequest_tracked s2 id = false ∧
    I1 s2 ∧ I2 s2.
Proof.
  intros s Hadm Hfresh Hdist Hbk Hall Hin Hm Hkey Hkeyc Hp Hc Hr.
  assert (tracker_inv s) as Hinv
    by (apply run_consistent; [apply new_tracker_inv | done]).
  destruct (run_config (new_tracker fs bk) evs) as [Hf Hb].
  fold s in Hf, Hb. cbn [tracker_filter branch_key new_tracker] in Hf, Hb.
  destruct (new_then_change_inv s id builder_name sourcestamps ss change
              (project ss, codebase ss, repository ss, key))
    as (s1 & s2 & c & H1 & H2 & H3 & H4 & Hinv2); try done.
  - by rewrite Hb.
  - by rewrite Hf.
  - rewrite Hb. by apply ss_tuple_of_Ok.
  - rewrite Hb, <- Hp, <- Hc, <- Hr. by apply ss_tuple_of_Ok.
  - exists s1, s2, c. split; [done|]. split; [done|]. split; [done|].
    split; [done|]. split; apply Hinv2.
Qed.


(** X12: [on_new_buildrequest] does not look whether the id is tracked.
    Called with an id that is in the bucket of a tuple [k] and with stamps
    whose tuples do not include [k], it returns with the record of the id
    replaced and the old record left in the bucket of [k], so that the two
    indices disagree; [reconfigService] therefore skips the requests that
    are tracked. *)
Theorem on_new_tracked_id_leaves_stale_entry s id t k builder_name
    sourcestamps matched_ss tuples :
  bucket_entry s k id = Some t →
  match_loop (tracker_filter s) builder_name sourcestamps [] = Some matched_ss →
  matched_ss ≠ [] →
  ss_tuples_of (branch_key s) matched_ss = Ok tuples →
  k ∉ tuples →
  ∃ s', on_new_buildrequest s id builder_name sourcestamps = Returned s' [] ∧
    get id (br_by_id s') = Some (mkTracked id tuples) ∧
    bucket_entry s' k id = Some t ∧
    ¬ I1 s'.
Proof.
  intros He Hm Hne Ht Hk. unfold on_new_buildrequest. rewrite Hm.
  destruct matched_ss as [|m ms]; [done|]. rewrite Ht.
  eexists. split; [reflexivity|].
  assert (∀ d, bucket_entry
                 (mkTracker (tracker_filter s) (branch_key s) d
                    (register (mkTracked id tuples) tuples (br_by_ss s))) k id
               = Some t) as He'.
  { intros d. unfold bucket_entry. cbn [br_by_ss]. rewrite entry_register.
    rewrite decide_False; [done | tauto]. }
  split; [cbn [br_by_id]; apply get_set_eq|]. split; [apply He'|].
  intros H1. destruct (proj1 (H1 k id t) (He' _)) as [Hg Hin].
  cbn [br_by_id] in Hg. rewrite get_set_eq in Hg. injection Hg as <-.
  done.
Qed.

(** *** The properties on sample data *)

Import Samples ExtraSamples.

(** Request 1 of the three sample requests completes. *)
Lemma on_complete_tracked_removes_witness :
  ∃ s', on_complete_buildrequest (run tracker0 events_distinct) 1
        = Returned s' [] ∧
    is_buildrequest_tracked s' 1 = false ∧
    get 2 (br_by_id s') = Some (mkTracked 2 [key_master]) ∧
    I1 s' ∧ I2 s'.
Proof.
  destruct (on_complete_tracked_removes (tracker_filter tracker0)
              (branch_key tracker0) events_distinct 1 tracked1
              events_distinct_admissible eq_refl)
    as (s' & Heq & Hun & _ & Hkeep & _ & Hinv' & _).
  exists s'. split; [exact Heq|]. split; [exact Hun|]. split; [|exact Hinv'].
  destruct (Hkeep 2) as [-> _]; [discriminate | reflexivity].
Defined.

Lemma fresh_request_distinct :
  distinct_tuples (run tracker0 events_distinct) "builder"
    [ss_master; ss_patchset3].
Proof.
  intros matched_ss tuples Hm Ht.
  vm_compute in Hm; injection Hm as <-.
  vm_compute in Ht; injection Ht as <-.
  apply (bool_decide_unpack _); vm_compute; exact I.
Defined.

Lemma tracker_events_distinct_total :
  total_on_branches (branch_key (run tracker0 events_distinct)).
Proof. exact default_branch_key_total. Defined.

(** Request 4 is added to the three sample requests and completes. *)
Lemma on_new_then_complete_restores_witness :
  ∃ s1,
    on_new_buildrequest (run tracker0 events_distinct) 4 "builder"
      [ss_master; ss_patchset3] = Returned s1 [] ∧
    on_complete_buildrequest s1 4
    = Returned (run tracker0 events_distinct) [].
Proof.
  exact (on_new_then_complete_restores (run tracker0 events_distinct) 4
           "builder" [ss_master; ss_patchset3] tracker_events_distinct_inv
           eq_refl fresh_request_distinct tracker_events_distinct_total).
Defined.

(** A new patch set arrives twice. *)
Lemma on_change_twice_witness :
  ∃ s' cancelled,
    on_change (run tracker0 events_distinct) ss_patchset4
    = Returned s' cancelled ∧
    get key_review (br_by_ss s') = None ∧
    on_change s' ss_patchset4 = Returned s' [].
Proof.
  exact (on_change_twice (tracker_filter tracker0) (branch_key tracker0)
           events_distinct ss_patchset4 "refs/changes/12/3412"
           events_distinct_admissible eq_refl).
Defined.

Lemma on_change_no_branch_raises_witness :
  on_change tracker0 ss_no_branch = Raised AttributeError tracker0.
Proof.
  exact (on_change_no_branch_raises tracker0 ss_no_branch eq_refl eq_refl).
Defined.

Lemma events_cancelled_admissible :
  admissible (new_tracker (tracker_filter tracker0) (branch_key tracker0))
    events_cancelled.
Proof.
  repeat split; try reflexivity;
    intros matched_ss tuples Hm Ht;
    vm_compute in Hm; injection Hm as <-;
    vm_compute in Ht; injection Ht as <-;
    apply (bool_decide_unpack _); vm_compute; exact I.
Defined.

Lemma no_requests_no_buckets_witness :
  br_by_ss (run tracker0 events_cancelled) = [].
Proof.
  exact (no_requests_no_buckets (tracker_filter tracker0)
           (branch_key tracker0) events_cancelled
           events_cancelled_admissible eq_refl).
Defined.

Lemma events_bad_change_admissible : admissible tracker0 events_bad_change.
Proof.
  repeat split; try reflexivity;
    intros matched_ss tuples Hm Ht;
    vm_compute in Hm; injection Hm as <-;
    vm_compute in Ht; injection Ht as <-;
    apply (bool_decide_unpack _); vm_compute; exact I.
Defined.

Lemma only_branch_key_raises_witness :
  raises_only_from_branch_key tracker0 events_bad_change.
Proof.
  exact (only_branch_key_raises (tracker_filter tracker0)
           (branch_key tracker0) events_bad_change
           events_bad_change_admissible).
Defined.

(** Request 4 on master is cancelled by a change on master. *)
Lemma new_request_cancelled_by_change_witness :
  ∃ s1 s2 cancelled,
    on_new_buildrequest (run tracker0 events_distinct) 4 "builder"
      [ss_master; ss_patchset3] = Returned s1 [] ∧
    on_change s1 ss_master = Returned s2 cancelled ∧
    4 ∈ cancelled ∧ is_buildrequest_tracked s2 4 = false.
Proof.
  destruct (new_request_cancelled_by_change (tracker_filter tracker0)
              (branch_key tracker0) events_distinct 4 "builder"
              [ss_master; ss_patchset3] ss_master ss_master "master"
              events_distinct_admissible eq_refl fresh_request_distinct
              default_branch_key_total)
    as (s1 & s2 & c & H1 & H2 & H3 & H4 & _);
    [ | by left | reflexivity | reflexivity | reflexivity | reflexivity
      | reflexivity | reflexivity | ].
  - intros ss' [-> | Hin]%elem_of_cons; [done|].
    apply list_elem_of_singleton in Hin. by subst ss'.
  - exists s1, s2, c. repeat split; assumption.
Defined.

(** Request 1, tracked for master and for the review, is announced again
    with the stamp of the review only. *)
Lemma on_new_tracked_id_leaves_stale_entry_witness :
  ∃ s', on_new_buildrequest (run tracker0 events_distinct) 1 "builder"
          [ss_patchset3] = Returned s' [] ∧
    get 1 (br_by_id s') = Some (mkTracked 1 [key_review]) ∧
    bucket_entry s' key_master 1 = Some tracked1 ∧
    ¬ I1 s'.
Proof.
  apply (on_new_tracked_id_leaves_stale_entry (run tracker0 events_distinct)
           1 tracked1 key_master "builder" [ss_patchset3] [ss_patchset3]
           [key_review]); try reflexivity.
  - discriminate.
  - intros Hin. apply list_elem_of_singleton in Hin. discriminate Hin.
Defined.

End TrackerProperties.

(** ** The service: seeding, and completions deferred by a reconfiguration *)

Module CancellerMore.
Import Dict DictFacts Tracker TrackerAux TrackerFacts Canceller CancellerAux.
Import CancellerFacts ExtraAux TrackerMore FilterSetFacts Service.
Implicit Types (s : OldBuildrequestTracker) (id : Z).

Section service_more.
Variable builder_name_of : Z → string.
Variable sourcestamps_of : Z → list SourceStamp.

Local Abbreviation seed_loop := (seed_loop builder_name_of sourcestamps_of).
Local Abbreviation reconfigService :=
  (reconfigService builder_name_of sourcestamps_of).
Local Abbreviation wanted_breq fs breq :=
  (wanted fs (builder_name_of (builderid breq))
     (sourcestamps_of (buildsetid breq))).

Lemma seed_loop_exact running s :
  total_on_branches (branch_key s) →
  ∃ s', seed_loop running s = Finished s' ∧
    tracker_filter s' = tracker_filter s ∧ branch_key s' = branch_key s ∧
    (∀ id, tracked s' id ↔
       tracked s id ∨
       ∃ breq, breq ∈ running ∧ buildrequestid breq = id ∧
         wanted_breq (tracker_filter s) breq) ∧
    (tracker_inv s →
     seed_distinct builder_name_of sourcestamps_of (tracker_filter s)
       (branch_key s) running →
     tracker_inv s').
Proof.
  revert s. induction running as [|breq rest IH]; intros s Hbk.
  - exists s. split; [done|]. split; [done|]. split; [done|]. split; [|done].
    intros id. split; [by left|]. intros [? | (? & ?%elem_of_nil & _)]; done.
  - cbn [Canceller.seed_loop].
    destruct (is_buildrequest_tracked s (buildrequestid breq)) eqn:Et.
    + apply is_buildrequest_tracked_spec in Et.
      destruct (IH s Hbk) as (s' & -> & Hf & Hb & Hiff & Hinv).
      exists s'. split; [done|]. split; [done|]. split; [done|]. split.
      * intros id. rewrite Hiff. split.
        -- intros [? | (b & Hin & ? & ?)]; [by left|]. right. exists b.
           split; [by right | done].
        -- intros [? | (b & [-> | Hin]%elem_of_cons & <- & ?)];
             [by left | by left |]. right. by exists b.
      * intros Hi Hd. apply Hinv; [done|]. intros b Hin. apply Hd. by right.
    + assert (get (buildrequestid breq) (br_by_id s) = None) as Hfresh.
      { destruct (get _ (br_by_id s)) eqn:E; [|done].
        assert (is_buildrequest_tracked s (buildrequestid breq) = true);
          [|congruence].
        apply is_buildrequest_tracked_spec. by eexists. }
      unfold tracker_on_buildrequest_new.
      pose proof (on_new_consistent s (buildrequestid breq)
                    (builder_name_of (builderid breq))
                    (sourcestamps_of (buildsetid breq))) as Hcons.
      destruct (on_new_shape s (buildrequestid breq)
                  (builder_name_of (builderid breq))
                  (sourcestamps_of (buildsetid breq)) Hbk)
        as [[Hign Heq] | (matched_ss & tuples & Hm & Hne & Ht & Heq)];
        rewrite Heq in *; cbn [state_of] in Hcons.
      * destruct (IH s Hbk) as (s' & -> & Hf & Hb & Hiff & Hinv).
        exists s'. split; [done|]. split; [done|]. split; [done|]. split.
        -- intros id. rewrite Hiff. split.
           ++ intros [? | (b & Hin & ? & ?)]; [by left|]. right. exists b.
              split; [by right | done].
           ++ intros [? | (b & [-> | Hin]%elem_of_cons & <- & Hw)];
                [by left | | right; by exists b].
              by apply wanted_not_ignored in Hw.
        -- intros Hi Hd. apply Hinv; [done|]. intros b Hin. apply Hd.
           by right.
      * set (s1 := mkTracker _ _ _ _) in *.
        destruct (IH s1 Hbk) as (s' & -> & Hf & Hb & Hiff & Hinv).
        exists s'. split; [done|]. split; [done|]. split; [done|].
        assert (∀ id, tracked s1 id ↔ id = buildrequestid breq ∨ tracked s id)
          as Ht1.
        { intros id. unfold tracked. subst s1. cbn [br_by_id].
          rewrite get_set. case_decide; [|tauto].
          split; [by left | by eexists]. }
        assert (wanted_breq (tracker_filter s) breq) as Hw.
        { apply wanted_not_ignored. unfold ignored. rewrite Hm.
          intros [? | [= ?]]; done. }
        split.
        -- intros id. rewrite Hiff, Ht1. cbn [tracker_filter]. split.
           ++ intros [[-> | ?] | (b & Hin & ? & ?)].
              ** right. exists breq. split; [by left | done].
              ** by left.
              ** right. exists b. split; [by right | done].
           ++ intros [? | (b & [-> | Hin]%elem_of_cons & <- & ?)].
              ** left. by right.
              ** left. by left.
              ** right. by exists b.
        -- intros Hi Hd. apply Hinv.
           ++ apply Hcons; [done | done |]. apply (Hd breq). by left.
           ++ intros b Hin. apply (Hd b). by right.
Qed.

Lemma replay_loop_spec completed_breqs s :
  tracker_inv s →
  ∃ s', replay_loop completed_breqs s = Finished s' ∧
    tracker_inv s' ∧
    (∀ id, get id (br_by_id s')
           = if decide (id ∈ map buildrequestid completed_breqs)
             then None else get id (br_by_id s)) ∧
    (∀ k id, bucket_entry s' k id
             = if decide (id ∈ map buildrequestid completed_breqs)
               then None else bucket_entry s k id).
Proof.
  revert s. induction completed_breqs as [|breq rest IH]; intros s Hinv.
  - exists s. split; [done|]. split; [done|].
    split; intros; by rewrite decide_False by apply not_elem_of_nil.
  - cbn [replay_loop].
    destruct (on_complete_consistent s (buildrequestid breq) Hinv)
      as (s1 & -> & Hg1 & He1 & Hinv1).
    destruct (IH s1 Hinv1) as (s' & -> & Hinv' & Hg & He).
    exists s'. split; [done|]. split; [done|]. split.
    + intros id. rewrite Hg, Hg1. cbn [map].
      destruct (decide (id = buildrequestid breq)) as [-> | Hne].
      * rewrite (decide_True (P := _ ∈ _ :: _)) by by left.
        by case_decide.
      * destruct (decide (id ∈ map buildrequestid rest)).
        -- by rewrite decide_True by by right.
        -- rewrite decide_False; [done|].
           by intros [? | ?]%elem_of_cons.
    + intros k id. rewrite He, He1. cbn [map].
      destruct (decide (id = buildrequestid breq)) as [-> | Hne].
      * rewrite (decide_True (P := _ ∈ _ :: _)) by by left.
        by case_decide.
      * destruct (decide (id ∈ map buildrequestid rest)).
        -- by rewrite decide_True by by right.
        -- rewrite decide_False; [done|].
           by intros [? | ?]%elem_of_cons.
Qed.

(** X13: with no completion queued and a branch-key function that gives a
    key for every stamp with a branch, [reconfigService] returns, and the
    requests tracked afterwards are exactly those tracked before and the
    incomplete requests that the new filters want: every stamp of their
    buildset has a branch and one of them matches a filter of their
    builder. *)
Theorem reconfigService_tracks_wanted c filters bk running :
  _completed_buildrequests_while_reconfiguring c = [] →
  total_on_branches (default BranchKey._default_branch_key bk) →
  ∃ s1,
    reconfigService c filters bk running
    = ServiceReturned (mkCanceller (Some s1) false []) [] ∧
    ∀ id, tracked s1 id ↔
      (∃ s, _build_tracker c = Some s ∧ tracked s id) ∨
      ∃ breq, breq ∈ running ∧ buildrequestid breq = id ∧
        (∀ ss, ss ∈ sourcestamps_of (buildsetid breq) → branch ss ≠ None) ∧
        ∃ ss, ss ∈ sourcestamps_of (buildsetid breq) ∧
          matching_filters filters (builder_name_of (builderid breq)) ss
          = true.
Proof.
  intros Hq Hbk. unfold Canceller.reconfigService. rewrite Hq.
  set (bk' := default BranchKey._default_branch_key bk) in *.
  set (fso := filter_tuples_to_filter_set_object filters).
  set (s0 := match _build_tracker c with
             | Some s => reconfig s fso bk'
             | None => new_tracker fso bk'
             end).
  assert (tracker_filter s0 = fso ∧ branch_key s0 = bk') as [Hf0 Hb0].
  { subst s0. by destruct (_build_tracker c). }
  destruct (seed_loop_exact running s0) as (s1 & -> & Hf & Hb & Hiff & _).
  { by rewrite Hb0. }
  cbn [replay_loop]. exists s1. split; [reflexivity|].
  intros id. rewrite Hiff, Hf0.
  assert (tracked s0 id ↔ ∃ s, _build_tracker c = Some s ∧ tracked s id)
    as ->.
  { subst s0. destruct (_build_tracker c) as [s|].
    - split; [by exists s | by intros (? & [= <-] & ?)].
    - split; [by intros [? ?] | by intros (? & ? & ?)]. }
  unfold wanted. subst fso.
  by setoid_rewrite is_matched_fold.
Qed.

Lemma reconfigService_replay c filters bk running :
  (∀ s, _build_tracker c = Some s → tracker_inv s) →
  total_on_branches (default BranchKey._default_branch_key bk) →
  seed_distinct builder_name_of sourcestamps_of
    (filter_tuples_to_filter_set_object filters)
    (default BranchKey._default_branch_key bk) running →
  ∃ s1,
    reconfigService c filters bk running
    = ServiceReturned (mkCanceller (Some s1) false []) [] ∧
    tracker_inv s1 ∧
    (∀ breq, breq ∈ _completed_buildrequests_while_reconfiguring c →
       ¬ tracked s1 (buildrequestid breq)) ∧
    (∀ id,
       id ∉ map buildrequestid (_completed_buildrequests_while_reconfiguring c) →
       tracked s1 id ↔
         (∃ s, _build_tracker c = Some s ∧ tracked s id) ∨
         ∃ breq, breq ∈ running ∧ buildrequestid breq = id ∧
           wanted_breq (filter_tuples_to_filter_set_object filters) breq).
Proof.
  intros Hc Hbk Hd. unfold Canceller.reconfigService.
  set (bk' := default BranchKey._default_branch_key bk) in *.
  set (fso := filter_tuples_to_filter_set_object filters) in *.
  set (s0 := match _build_tracker c with
             | Some s => reconfig s fso bk'
             | None => new_tracker fso bk'
             end).
  assert (tracker_filter s0 = fso ∧ branch_key s0 = bk') as [Hf0 Hb0].
  { subst s0. by destruct (_build_tracker c). }
  assert (tracker_inv s0) as Hinv0.
  { subst s0. destruct (_build_tracker c) as [s|] eqn:Ec;
      [|apply new_tracker_inv].
    by apply reconfig_inv, Hc. }
  destruct (seed_loop_exact running s0) as (s1 & -> & Hf & Hb & Hiff & Hinv).
  { by rewrite Hb0. }
  destruct (replay_loop_spec (_completed_buildrequests_while_reconfiguring c)
              s1) as (s2 & -> & Hinv2 & Hg & _).
  { apply Hinv; [done|]. by rewrite Hf0, Hb0. }
  exists s2. split; [reflexivity|]. split; [done|]. split.
  - intros breq Hin. unfold tracked. rewrite Hg, decide_True.
    + by intros [? ?].
    + apply list_elem_of_fmap. by exists breq.
  - intros id Hid. unfold tracked at 1. rewrite Hg, decide_False by done.
    fold (tracked s1 id). rewrite Hiff, Hf0.
    assert (tracked s0 id ↔ ∃ s, _build_tracker c = Some s ∧ tracked s id)
      as ->; [|done].
    subst s0. destruct (_build_tracker c) as [s|].
    + split; [by exists s | by intros (? & [= <-] & ?)].
    + split; [by intros [? ?] | by intros (? & ? & ?)].
Qed.


Local Abbreviation reconfig_turns :=
  (reconfig_turns builder_name_of sourcestamps_of).
Local Abbreviation reconfig_in_progress :=
  (reconfig_in_progress builder_name_of sourcestamps_of).
Local Abbreviation handle := (handle builder_name_of sourcestamps_of).
Local Abbreviation serve := (serve builder_name_of sourcestamps_of).
Local Abbreviation admissible_messages :=
  (admissible_messages builder_name_of sourcestamps_of).

(** While the flag is set the loop works on the tracker and the deliveries
    on the queue. *)
Lemma reconfig_turns_spec turns s q s' :
  seed_loop (seeded turns) s = Finished s' →
  reconfig_turns turns (mkCanceller (Some s) true q)
  = ServiceReturned (mkCanceller (Some s') true (q ++ delivered turns)) [].
Proof.
  revert s q. induction turns as [|[breq | breq] rest IH]; intros s q.
  - cbn. intros [= <-]. by rewrite app_nil_r.
  - cbn [seeded Canceller.seed_loop Service.reconfig_turns delivered].
    unfold seed_pass, _on_buildrequest_new.
    cbn [_build_tracker _reconfiguring
         _completed_buildrequests_while_reconfiguring].
    destruct (is_buildrequest_tracked s (buildrequestid breq)); [apply IH|].
    destruct (tracker_on_buildrequest_new _ _ s breq) as [s1 ids|e s1];
      [apply IH | done].
  - cbn [seeded Service.reconfig_turns delivered].
    unfold _on_buildrequest_complete. cbn [_reconfiguring canceller_of].
    cbn [_build_tracker _completed_buildrequests_while_reconfiguring].
    intros Hs. rewrite (IH s (q ++ [breq]) Hs). by rewrite <- app_assoc.
Qed.

Lemma reconfig_in_progress_atomic c filters bk turns :
  total_on_branches (default BranchKey._default_branch_key bk) →
  reconfig_in_progress c filters bk turns
  = reconfigService
      (mkCanceller (_build_tracker c) (_reconfiguring c)
         (_completed_buildrequests_while_reconfiguring c ++ delivered turns))
      filters bk (seeded turns).
Proof.
  intros Hbk. unfold Service.reconfig_in_progress, reconfig_begin,
    Canceller.reconfigService.
  cbn [_build_tracker _completed_buildrequests_while_reconfiguring].
  set (bk' := default BranchKey._default_branch_key bk) in *.
  set (fso := filter_tuples_to_filter_set_object filters).
  set (s0 := match _build_tracker c with
             | Some s => reconfig s fso bk'
             | None => new_tracker fso bk'
             end).
  assert (branch_key s0 = bk') as Hb0.
  { subst s0. by destruct (_build_tracker c). }
  destruct (seed_loop_spec builder_name_of sourcestamps_of (seeded turns) s0)
    as (s1 & Hs1 & _); [by rewrite Hb0|].
  rewrite Hs1, (reconfig_turns_spec turns s0 _ s1 Hs1).
  unfold reconfig_end.
  by cbn [_build_tracker _completed_buildrequests_while_reconfiguring].
Qed.

(** A canceller between two messages: no reconfiguration is under way, no
    completion is queued, and the tracker, if there is one, has consistent
    indices. *)
Lemma handle_settled c m :
  (_reconfiguring c = false ∧
   _completed_buildrequests_while_reconfiguring c = [] ∧
   ∀ s, _build_tracker c = Some s → tracker_inv s) →
  admissible_messages c [m] →
  _reconfiguring (canceller_of (handle c m)) = false ∧
  _completed_buildrequests_while_reconfiguring (canceller_of (handle c m))
  = [] ∧
  ∀ s, _build_tracker (canceller_of (handle c m)) = Some s → tracker_inv s.
Proof.
  intros (Hr & Hq & Hinv) [Hm _].
  destruct m as [change | breq | breq | filters bk turns];
    cbn [Service.handle].
  - unfold _on_change. destruct (_build_tracker c) as [s|] eqn:Ec.
    + pose proof (dispatch_consistent s (Change change) (Hinv s eq_refl)
                    (conj I I)) as Hd. cbn [dispatch] in Hd.
      destruct (on_change s change); cbn in *;
        (split; [done|]; split; [done|]); by intros ? [= <-].
    + cbn. rewrite Ec. split; [done|]. split; [done|]. done.
  - unfold _on_buildrequest_new. destruct (_build_tracker c) as [s|] eqn:Ec.
    + pose proof (dispatch_consistent s
                    (NewBuildrequest (buildrequestid breq)
                       (builder_name_of (builderid breq))
                       (sourcestamps_of (buildsetid breq)))
                    (Hinv s eq_refl) (conj (Hm s eq_refl) I)) as Hd.
      cbn [dispatch] in Hd. unfold tracker_on_buildrequest_new.
      destruct (on_new_buildrequest s _ _ _); cbn in *;
        (split; [done|]; split; [done|]); by intros ? [= <-].
    + cbn. rewrite Ec. split; [done|]. split; [done|]. done.
  - unfold _on_buildrequest_complete. rewrite Hr.
    destruct (_build_tracker c) as [s|] eqn:Ec.
    + pose proof (dispatch_consistent s
                    (CompleteBuildrequest (buildrequestid breq))
                    (Hinv s eq_refl) (conj I I)) as Hd.
      cbn [dispatch] in Hd.
      destruct (on_complete_buildrequest s _); cbn in *;
        (split; [done|]; split; [done|]); by intros ? [= <-].
    + cbn. rewrite Ec. split; [done|]. split; [done|]. done.
  - destruct Hm as [Hbk Hd].
    rewrite (reconfig_in_progress_atomic c filters bk turns Hbk).
    destruct (reconfigService_replay
                (mkCanceller (_build_tracker c) (_reconfiguring c)
                   (_completed_buildrequests_while_reconfiguring c
                    ++ delivered turns)) filters bk (seeded turns))
      as (s1 & -> & Hinv1 & _); [done | done | done |].
    cbn. split; [done|]. split; [done|]. by intros ? [= <-].
Qed.

Lemma serve_settled ms :
  admissible_messages checkConfig ms →
  _reconfiguring (serve checkConfig ms) = false ∧
  _completed_buildrequests_while_reconfiguring (serve checkConfig ms) = [] ∧
  ∀ s, _build_tracker (serve checkConfig ms) = Some s → tracker_inv s.
Proof.
  unfold Service.serve.
  assert (_reconfiguring checkConfig = false ∧
          _completed_buildrequests_while_reconfiguring checkConfig = [] ∧
          ∀ s, _build_tracker checkConfig = Some s → tracker_inv s) as H0
    by done.
  revert H0. generalize checkConfig as c.
  induction ms as [|m rest IH]; intros c Hc Hadm; [done|].
  destruct Hadm as [Hm Hrest]. cbn [fold_left]. apply IH; [|done].
  apply handle_settled; [done | by split].
Qed.

Lemma admissible_messages_app c ms ms' :
  admissible_messages c (ms ++ ms') →
  admissible_messages c ms ∧ admissible_messages (serve c ms) ms'.
Proof.
  revert c. induction ms as [|m rest IH]; intros c; [done|].
  cbn [app Service.admissible_messages]. intros [Hm Hrest].
  destruct (IH _ Hrest) as [H1 H2]. by repeat split.
Qed.

(** X14: completions delivered during a reconfiguration are applied after
    the seeding. Take a service fresh from [checkConfig] and any sequence
    of messages and reconfigurations in which every new build request has an
    id that is not tracked when it arrives and matching stamps with pairwise
    distinct tuples, and every reconfiguration has a branch-key function
    that gives a key for every stamp with a branch and incomplete build
    requests whose matching stamps have pairwise distinct tuples. A
    reconfiguration that comes last, on the same conditions, with
    completions delivered at any of its [yield]s, returns with the flag
    cleared and the queue emptied; I1 and I2 hold; no request whose
    completion was delivered is tracked, even one that the query still
    listed as incomplete; and any other request is tracked exactly when it
    was tracked before or is an incomplete request that the new filters
    want. *)
Theorem reconfiguration_replays_completions ms filters bk turns :
  let c := serve checkConfig ms in
  admissible_messages checkConfig (ms ++ [Reconfig filters bk turns]) →
  ∃ s1,
    reconfig_in_progress c filters bk turns
    = ServiceReturned (mkCanceller (Some s1) false []) [] ∧
    (I1 s1 ∧ I2 s1) ∧
    (∀ breq, breq ∈ delivered turns → ¬ tracked s1 (buildrequestid breq)) ∧
    (∀ id, id ∉ map buildrequestid (delivered turns) →
       tracked s1 id ↔
         (∃ s, _build_tracker c = Some s ∧ tracked s id) ∨
         ∃ breq, breq ∈ seeded turns ∧ buildrequestid breq = id ∧
           wanted_breq (filter_tuples_to_filter_set_object filters) breq).
Proof.
  intros c Hadm.
  apply admissible_messages_app in Hadm as [Hms [[Hbk Hd] _]].
  fold c in Hbk, Hd.
  destruct (serve_settled ms Hms) as (Hr & Hq & Hinv). fold c in Hr, Hq, Hinv.
  rewrite (reconfig_in_progress_atomic c filters bk turns Hbk).
  rewrite Hq. cbn [app].
  destruct (reconfigService_replay
              (mkCanceller (_build_tracker c) (_reconfiguring c)
                 (delivered turns)) filters bk (seeded turns))
    as (s1 & Heq & Hinv1 & Hgone & Hiff); [done | done | done |].
  exists s1. split; [done|]. split; [split; apply Hinv1|].
  split; [exact Hgone | exact Hiff].
Qed.

(** X15: a completion that arrives during a reconfiguration is neither lost
    nor applied early. With a branch-key function that gives a key for
    every stamp with a branch, whatever the state of the canceller and at
    whichever [yield]s of [reconfigService] the completions are delivered to
    [_on_buildrequest_complete], the reconfiguration ends exactly as
    [reconfigService] run without interruption ends when these completions
    are on the queue from the start, behind those that were already there
    and in the order of their arrival. *)
Theorem completion_while_reconfiguring c filters bk turns :
  total_on_branches (default BranchKey._default_branch_key bk) →
  reconfig_in_progress c filters bk turns
  = reconfigService
      (mkCanceller (_build_tracker c) (_reconfiguring c)
         (_completed_buildrequests_while_reconfiguring c ++ delivered turns))
      filters bk (seeded turns).
Proof. apply reconfig_in_progress_atomic. Qed.

End service_more.

(** *** The properties on sample data *)

Import Samples CancellerSamples ExtraSamples.

(** Request 1 has a stamp on master; the buildset of request 2 has a stamp
    without a branch. *)
Lemma reconfigService_tracks_wanted_witness :
  ∃ s1,
    Canceller.reconfigService builder_name_of sourcestamps_of checkConfig
      filters None running
    = ServiceReturned (mkCanceller (Some s1) false []) [] ∧
    tracked s1 1 ∧ ¬ tracked s1 2.
Proof.
  destruct (reconfigService_tracks_wanted builder_name_of sourcestamps_of
              checkConfig filters None running eq_refl
              default_branch_key_total) as (s1 & Heq & Hiff).
  exists s1. split; [exact Heq|]. split.
  - apply Hiff. right. exists (mkBuildRequest 1 5 10).
    split; [by left|]. split; [reflexivity|]. split.
    + intros ss Hin. apply list_elem_of_singleton in Hin. by subst ss.
    + exists ss_master. split; [by left | reflexivity].
  - intros [(s & Hs & _) | (breq & Hin & Hid & Hall & _)]%Hiff;
      [discriminate Hs|].
    apply elem_of_cons in Hin as [-> | Hin]; [discriminate Hid|].
    apply list_elem_of_singleton in Hin. subst breq.
    apply (Hall ss_no_branch); [|reflexivity].
    right. by left.
Defined.

Lemma messages_busy_admissible :
  Service.admissible_messages builder_name_of sourcestamps_of checkConfig
    (messages_started ++ [Reconfig filters None turns_busy]).
Proof.
  assert (∀ breq, breq ∈ [mkBuildRequest 1 5 10; mkBuildRequest 2 5 11;
                           mkBuildRequest 3 5 10; mkBuildRequest 4 5 10] →
            distinct_tuples
              (new_tracker (filter_tuples_to_filter_set_object filters)
                 BranchKey._default_branch_key)
              (builder_name_of (builderid breq))
              (sourcestamps_of (buildsetid breq))) as Hd.
  { intros breq Hin matched_ss tuples Hm Ht.
    repeat (apply elem_of_cons in Hin as [-> | Hin]);
      [..|by apply elem_of_nil in Hin];
      vm_compute in Hm; try discriminate Hm; injection Hm as <-;
      vm_compute in Ht; injection Ht as <-;
      apply (bool_decide_unpack _); vm_compute; exact I. }
  split; [split; [exact default_branch_key_total|]|split; [|split]].
  - intros breq Hin. apply Hd.
    repeat (apply elem_of_cons in Hin as [-> | Hin]);
      [..|by apply elem_of_nil in Hin];
      repeat first [apply list_elem_of_here | apply list_elem_of_further].
  - intros s [= <-]. split; [reflexivity|].
    apply (Hd (mkBuildRequest 3 5 10)).
    repeat first [apply list_elem_of_here | apply list_elem_of_further].
  - split; [exact default_branch_key_total|].
    intros breq Hin. apply Hd.
    repeat (apply elem_of_cons in Hin as [-> | Hin]);
      [..|by apply elem_of_nil in Hin];
      repeat first [apply list_elem_of_here | apply list_elem_of_further].
  - exact I.
Defined.

(** The service tracks requests 1 and 3. In the reconfiguration request 1
    completes before the loop comes to it and request 3 after the loop has
    passed it; request 4 is new. *)
Lemma reconfiguration_replays_completions_witness :
  ∃ s1,
    Service.reconfig_in_progress builder_name_of sourcestamps_of
      (Service.serve builder_name_of sourcestamps_of checkConfig
         messages_started) filters None turns_busy
    = ServiceReturned (mkCanceller (Some s1) false []) [] ∧
    (I1 s1 ∧ I2 s1) ∧
    ¬ tracked s1 1 ∧ ¬ tracked s1 3 ∧ tracked s1 4.
Proof.
  destruct (reconfiguration_replays_completions builder_name_of
              sourcestamps_of messages_started filters None turns_busy
              messages_busy_admissible) as (s1 & Heq & Hinv & Hq & Hiff).
  exists s1. split; [exact Heq|]. split; [exact Hinv|]. split; [|split].
  - apply (Hq (mkBuildRequest 1 5 10)). by left.
  - apply (Hq (mkBuildRequest 3 5 10)). right. by left.
  - apply Hiff.
    + intros Hin. repeat (apply elem_of_cons in Hin as [Hin | Hin];
                          [discriminate Hin|]).
      by apply elem_of_nil in Hin.
    + right. exists (mkBuildRequest 4 5 10).
      split; [right; right; by left|]. split; [reflexivity|]. split.
      * intros ss Hin. apply list_elem_of_singleton in Hin. by subst ss.
      * exists ss_master. split; [by left | reflexivity].
Defined.

Lemma completion_while_reconfiguring_witness :
  Service.reconfig_in_progress builder_name_of sourcestamps_of
    (Service.serve builder_name_of sourcestamps_of checkConfig
       messages_started) filters None turns_busy
  = Canceller.reconfigService builder_name_of sourcestamps_of
      (mkCanceller
         (_build_tracker
            (Service.serve builder_name_of sourcestamps_of checkConfig
               messages_started)) false
         [mkBuildRequest 1 5 10; mkBuildRequest 3 5 10])
      filters None
      [mkBuildRequest 1 5 10; mkBuildRequest 3 5 10; mkBuildRequest 4 5 10].
Proof.
  exact (completion_while_reconfiguring builder_name_of sourcestamps_of
           (Service.serve builder_name_of sourcestamps_of checkConfig
              messages_started) filters None turns_busy
           default_branch_key_total).
Defined.

End CancellerMore.

(** ** The default branch key: keys are fixed points, reviews stay apart *)

Module BranchKeyMore.
Import BranchKey BranchKeyAux BranchKeyFacts.
Local Open Scope string_scope.
Local Arguments is_digit : simpl never.

Lemma append_empty (s : string) : s +:+ "" = s.
Proof.
  induction s as [|c s IH]; [done|].
  change (String c (s +:+ "") = String c s). by rewrite IH.
Qed.

Lemma span_digits_all x : all_digits x = true → span_digits x = (x, "").
Proof.
  intros Hx. rewrite <- (append_empty x) at 1. by apply span_digits_app.
Qed.

(** The pattern does not match a key: the third number is missing. *)
Lemma re_match_key x y :
  numeric x → numeric y → re_match ("refs/changes/" +:+ x +:+ "/" +:+ y) = None.
Proof.
  intros [Hx1 Hx2] [Hy1 Hy2]. unfold re_match. rewrite strip_prefix_app.
  change ("/" +:+ y) with (String "/" y).
  rewrite (span_digits_app x _ Hx2 (slash_stops y)). rewrite Hx1.
  rewrite (span_digits_all y Hy2). by rewrite Hy1.
Qed.

Lemma startswith_app p s : startswith p (p +:+ s) = true.
Proof. unfold startswith. by rewrite strip_prefix_app. Qed.

Lemma key_inj x y x' y' :
  all_digits x = true → all_digits x' = true →
  "refs/changes/" +:+ x +:+ "/" +:+ y = "refs/changes/" +:+ x' +:+ "/" +:+ y' →
  x = x' ∧ y = y'.
Proof.
  intros Hx Hx' Heq.
  apply (f_equal (strip_prefix "refs/changes/")) in Heq.
  rewrite !strip_prefix_app in Heq. injection Heq as Heq.
  apply (f_equal span_digits) in Heq.
  change ("/" +:+ y) with (String "/" y) in Heq.
  change ("/" +:+ y') with (String "/" y') in Heq.
  rewrite (span_digits_app x _ Hx (slash_stops y)) in Heq.
  rewrite (span_digits_app x' _ Hx' (slash_stops y')) in Heq.
  by injection Heq as -> ->.
Qed.

(** X16: the default branch key maps its own results to themselves: a
    branch and the key computed from it have the same key, so a key is the
    same whether it is computed from a stamp or from a stamp whose branch is
    already a key. *)
Theorem default_branch_key_idempotent b :
  default_branch_key_of (default_branch_key_of b) = default_branch_key_of b.
Proof.
  unfold default_branch_key_of at 2 3.
  destruct (startswith "refs/changes/" b) eqn:Es.
  - destruct (re_match b) as [[g1 g2]|] eqn:Em.
    + apply re_match_Some in Em as (d & rest & Hg1 & Hg2 & _ & _).
      unfold default_branch_key_of. rewrite startswith_app.
      by rewrite re_match_key.
    + unfold default_branch_key_of. by rewrite Es, Em.
  - unfold default_branch_key_of. by rewrite Es.
Qed.

(** X17: the default branch key keeps reviews apart. Two branches
    [refs/changes/<X>/<Y>/<rev>] with numeric parts get the same key exactly
    when they agree on [X] and on [Y]; the revisions play no part. *)
Theorem default_branch_key_same_review x y r x' y' r' :
  numeric x → numeric y → numeric r →
  numeric x' → numeric y' → numeric r' →
  default_branch_key_of ("refs/changes/" +:+ x +:+ "/" +:+ y +:+ "/" +:+ r)
  = default_branch_key_of
      ("refs/changes/" +:+ x' +:+ "/" +:+ y' +:+ "/" +:+ r')
  ↔ x = x' ∧ y = y'.
Proof.
  intros Hx Hy Hr Hx' Hy' Hr'.
  destruct (numeric_inv r Hr) as (d & rest & -> & Hd).
  destruct (numeric_inv r' Hr') as (d' & rest' & -> & Hd').
  rewrite !default_branch_key_prefixed by done. split.
  - apply key_inj; [apply Hx | apply Hx'].
  - by intros [-> ->].
Qed.

Lemma default_branch_key_same_review_witness :
  default_branch_key_of "refs/changes/12/3412/3"
  = default_branch_key_of "refs/changes/12/3412/4" ∧
  default_branch_key_of "refs/changes/12/3412/3"
  ≠ default_branch_key_of "refs/changes/12/3413/3".
Proof.
  split.
  - apply (default_branch_key_same_review "12" "3412" "3" "12" "3412" "4");
      repeat split.
  - intros Heq.
    apply (default_branch_key_same_review "12" "3412" "3" "12" "3413" "3")
      in Heq as [_ Heq]; [discriminate Heq | repeat split ..].
Defined.

End BranchKeyMore.
